(** * watermark-tool: region detection and removal pipeline

    A shallow embedding of [core/image_processor.py],
    [core/video_processor.py] and of the coordinate mapping in
    [ui/main_window.py], followed by the properties of the pipeline.

    Conventions of the embedding.
    - Python [int] is [Z]; Python [float] is modelled by an exact rational
      ([Q]): rounding of IEEE doubles is not represented.  [int(v)] on a
      float truncates toward zero ([py_int]).
    - A function that may raise returns a [res]; a method body with
      [return] inside [try]/[finally] is a computation in the monad [M],
      whose completions are normal, returning or raising.
    - OpenCV, PIL, ffmpeg and the file system are collaborators: they
      appear as section variables or as explicit state. *)

From Stdlib Require Import ZArith QArith Qround Qabs Lia Lqa Ascii String List Sorted.
From stdpp Require Import base option list gmap strings pretty.
Import ListNotations.

Local Open Scope string_scope.
Local Open Scope Z_scope.

(** ** Python values *)

(** Exceptions the modelled code raises or meets. *)
Inductive exn :=
| ValueError
| AttributeError
| ZeroDivisionError
| UnboundLocalError
| OSError
| Cv2Error
| FfmpegError
| CallbackError.

(** Result of a call that either returns or raises. *)
Inductive res (A : Type) :=
| Ok (a : A)
| Raise (e : exn).
Arguments Ok {A} a.
Arguments Raise {A} e.

Definition res_bind {A B} (r : res A) (k : A -> res B) : res B :=
  match r with
  | Ok a => k a
  | Raise e => Raise e
  end.

(** [try: r except Exception: h] *)
Definition res_catch {A} (r : res A) (h : exn -> res A) : res A :=
  match r with
  | Ok a => Ok a
  | Raise e => h e
  end.

Declare Scope res_scope.
Delimit Scope res_scope with res.
Notation "x <~ r ;; k" := (res_bind r (fun x => k))
  (at level 100, r at next level, right associativity) : res_scope.

(** [int(v)] for a float [v]: truncation toward zero. *)
Definition py_int (v : Q) : Z :=
  if Qle_bool 0 v then Qfloor v else Qceiling v.

(** [max(a, b)] and [min(a, b)] as the builtins choose: the first argument
    unless the second is strictly better. *)
Definition py_max (a b : Q) : Q := if Qlt_le_dec a b then b else a.
Definition py_min (a b : Q) : Q := if Qlt_le_dec b a then b else a.

(** ** Frames and masks *)

(** A BGR pixel, 8 bits per channel. *)
Definition pixel : Type := Z * Z * Z.

(** A decoded image: rows of pixels ([numpy] array of shape (h, w, 3)). *)
Definition Frame : Type := list (list pixel).

(** [image.shape[:2]] *)
Definition shape (image : Frame) : Z * Z :=
  (Z.of_nat (length image), Z.of_nat (length (hd [] image))).

(** A single-channel [uint8] grid. *)
Definition Mask : Type := list (list Z).

(** [np.zeros((h, w), dtype=np.uint8)] *)
Definition np_zeros (hw : Z * Z) : Mask :=
  repeat (repeat 0 (Z.to_nat (snd hw))) (Z.to_nat (fst hw)).

(** Bounds of the slice [start:stop] on an axis of length [n]: negative
    indices count from the end, everything is clipped to [0, n]. *)
Definition slice_index (n i : Z) : Z :=
  if i <? 0 then Z.max 0 (i + n) else Z.min i n.

Definition in_slice (n start stop k : Z) : bool :=
  (slice_index n start <=? k) && (k <? slice_index n stop).

(** [mask[y:y+h, x:x+w] = v] *)
Definition assign_rect (mask : Mask) (x y w h v : Z) : Mask :=
  let n_rows := Z.of_nat (length mask) in
  imap (fun i row =>
    let n_cols := Z.of_nat (length row) in
    if in_slice n_rows y (y + h) (Z.of_nat i)
    then imap (fun j old =>
           if in_slice n_cols x (x + w) (Z.of_nat j) then v else old) row
    else row) mask.

Definition Region : Type := Z * Z * Z * Z.

(** The mask both processors build before calling [cv2.inpaint]. *)
Definition region_mask (image : Frame) (region : Region) : Mask :=
  let '(x, y, w, h) := region in
  assign_rect (np_zeros (shape image)) x y w h 255.

(** [cv2.INPAINT_TELEA] / [cv2.INPAINT_NS] *)
Inductive InpaintFlag := INPAINT_TELEA | INPAINT_NS.

(** [a < b] on floats. *)
Definition Qltb (a b : Q) : bool := if Qlt_le_dec a b then true else false.

(** ** core/image_processor.py *)

Module ImageProcessor.

Record t := {
  watermark_region : option Region;   (* None until a region is set *)
  inpaint_radius : Z;
  method : string                     (* 'telea' or 'ns' *)
}.

Definition init : t :=
  {| watermark_region := None; inpaint_radius := 3; method := "telea" |}.

Definition set_watermark_region (self : t) (x y width height : Z) : t :=
  {| watermark_region := Some (x, y, width, height);
     inpaint_radius := inpaint_radius self;
     method := method self |}.

Definition set_method (self : t) (m : string) : t :=
  {| watermark_region := watermark_region self;
     inpaint_radius := inpaint_radius self;
     method := m |}.

(** The detector's padding step: grow the bounding rectangle by 5 pixels
    on each side and clip it to the image. *)
Definition pad_region (image : Frame) (rect : Region) : Region :=
  let '(x, y, w, h) := rect in
  let padding := 5 in
  let x := Z.max 0 (x - padding) in
  let y := Z.max 0 (y - padding) in
  let w := Z.min (snd (shape image) - x) (w + 2 * padding) in
  let h := Z.min (fst (shape image) - y) (h + 2 * padding) in
  (x, y, w, h).

Definition min_area (image : Frame) : Q :=
  inject_Z (fst (shape image) * snd (shape image)) * (1 # 1000).

Definition max_area (image : Frame) : Q :=
  inject_Z (fst (shape image) * snd (shape image)) * (2 # 10).

Section Collaborators.

(** Image files on disk, as PIL decodes them (already converted to
    BGR); a path that is absent or not an image has no entry. *)
Abbreviation files := (gmap string Frame).

(** Whether [pil_image.save(path, quality=95)] succeeds at a path. *)
Variable writable : string -> bool.

(** [cv2.inpaint(image, mask, radius, flags)] *)
Variable inpaint : Frame -> Mask -> Z -> InpaintFlag -> res Frame.

(** Contours as OpenCV reports them. [find_contours] stands for the
    chain cvtColor, adaptiveThreshold (Gaussian, inverted, 25, 5),
    two morphologyEx with a 3x3 kernel and findContours (external,
    simple approximation). *)
Variable Contour : Type.
Variable find_contours : Frame -> res (list Contour).
Variable contourArea : Contour -> Q.
Variable boundingRect : Contour -> Region.

(** Any failure of PIL is caught inside and becomes [None]. *)
Definition read_image (fs : files) (path : string) : option Frame :=
  fs !! path.

Definition save_image (fs : files) (path : string) (image : Frame)
  : res files :=
  if writable path then Ok (<[path := image]> fs) else Raise ValueError.

Definition remove_watermark (self : t) (fs : files)
    (input_path output_path : string) : res files :=
  match watermark_region self with
  | None => Raise ValueError
  | Some region =>
    match read_image fs input_path with
    | None => Raise ValueError
    | Some image =>
      let mask := region_mask image region in
      let radius := inpaint_radius self in
      (result <~ inpaint image mask radius INPAINT_TELEA ;;
       save_image fs output_path result)%res
    end
  end.

Definition preview_removal (self : t) (fs : files) (image_path : string)
  : res Frame :=
  match watermark_region self with
  | None => Raise ValueError
  | Some region =>
    match read_image fs image_path with
    | None => Raise AttributeError      (* [image.shape] on None *)
    | Some image =>
      let mask := region_mask image region in
      if String.eqb (method self) "telea"
      then inpaint image mask (inpaint_radius self) INPAINT_TELEA
      else inpaint image mask (inpaint_radius self) INPAINT_NS
    end
  end.

(** The loop that keeps the contours whose area lies strictly between
    the two thresholds. *)
Definition valid_contours (image : Frame) (contours : list Contour)
  : list Contour :=
  List.filter
    (fun contour =>
       let area := contourArea contour in
       Qltb (min_area image) area && Qltb area (max_area image))
    contours.

Definition score (image : Frame) (contour : Contour) : res Q :=
  let '(x, y, w, h) := boundingRect contour in
  let solidity :=
    if w * h =? 0 then 0%Q
    else (contourArea contour / inject_Z (w * h))%Q in
  let center_y := (inject_Z y + inject_Z h / 2)%Q in
  if fst (shape image) =? 0 then Raise ZeroDivisionError
  else Ok (solidity *
           (1 - Qabs ((1 # 2) - center_y / inject_Z (fst (shape image)))))%Q.

Fixpoint contour_features (image : Frame) (valid : list Contour)
  : res (list (Contour * Q)) :=
  match valid with
  | [] => Ok []
  | contour :: rest =>
    (s <~ score image contour ;;
     features <~ contour_features image rest ;;
     Ok ((contour, s) :: features))%res
  end.

(** [max(features, key=lambda x: x[1])]: the first entry whose score
    no later entry exceeds. *)
Fixpoint max_by_score (best : Contour * Q) (features : list (Contour * Q))
  : Contour * Q :=
  match features with
  | [] => best
  | f :: rest =>
    if Qltb (snd best) (snd f) then max_by_score f rest
    else max_by_score best rest
  end.

Definition auto_detect_watermark (fs : files) (image_path : string)
  : res (option Region) :=
  match read_image fs image_path with
  | None => Raise ValueError
  | Some image =>
    (contours <~ find_contours image ;;
     match contours with
     | [] => Ok None
     | _ =>
       match valid_contours image contours with
       | [] => Ok None
       | first :: more =>
         if (1 <? length (first :: more))%nat
         then
           features <~ contour_features image (first :: more) ;;
           match features with
           | [] => Raise ValueError      (* [max] of an empty list *)
           | f :: fs' =>
             let best_contour := fst (max_by_score f fs') in
             Ok (Some (pad_region image (boundingRect best_contour)))
           end
         else Ok (Some (pad_region image (boundingRect first)))
       end
     end)%res
  end.

End Collaborators.

Arguments valid_contours {Contour} contourArea image contours.
Arguments score {Contour} contourArea boundingRect image contour.
Arguments contour_features {Contour} contourArea boundingRect image valid.
Arguments max_by_score {Contour} best features.
Arguments auto_detect_watermark {Contour} find_contours contourArea
  boundingRect fs image_path.

End ImageProcessor.

(** ** ui/main_window.py: preview geometry *)

(** [QRect(x, y, w, h)] *)
Record QRect := { rect_x : Z; rect_y : Z; rect_width : Z; rect_height : Z }.

(** [QRect.isNull()], which is also the truth value the binding gives a
    rectangle: [if not rect] holds exactly for a null rectangle. *)
Definition isNull (r : QRect) : bool :=
  (rect_width r =? 0) && (rect_height r =? 0).

Module ImageLabel.

Record t := {
  selection : option QRect;
  scale_factor : Q;
  original_size : Z * Z;        (* (width, height) of the source image *)
  pixmap : option (Z * Z);      (* size of the pixmap shown, if any *)
  size : Z * Z                  (* (width, height) of the label *)
}.

Definition set_selection (self : t) (sel : option QRect) : t :=
  {| selection := sel;
     scale_factor := scale_factor self;
     original_size := original_size self;
     pixmap := pixmap self;
     size := size self |}.

(** Position of the pixmap inside the label (centred). *)
Definition get_pixmap_rect (self : t) : option QRect :=
  match pixmap self with
  | None => None
  | Some (pw, ph) =>
    let x := (fst (size self) - pw) / 2 in
    let y := (snd (size self) - ph) / 2 in
    Some {| rect_x := x; rect_y := y; rect_width := pw; rect_height := ph |}
  end.

(** The selection in the coordinates of the original image. *)
Definition get_scaled_rect (self : t) : res (option QRect) :=
  match selection self, pixmap self with
  | None, _ | _, None => Ok None
  | Some sel, Some _ =>
    if isNull sel then Ok None else
    match get_pixmap_rect self with
    | None => Ok None
    | Some pixmap_rect =>
      if isNull pixmap_rect then Ok None
      else if Qeq_bool (scale_factor self) 0 then Raise ZeroDivisionError
      else
        let s := scale_factor self in
        let ow := inject_Z (fst (original_size self)) in
        let oh := inject_Z (snd (original_size self)) in
        let x := (inject_Z (rect_x sel - rect_x pixmap_rect) / s)%Q in
        let y := (inject_Z (rect_y sel - rect_y pixmap_rect) / s)%Q in
        let w := (inject_Z (rect_width sel) / s)%Q in
        let h := (inject_Z (rect_height sel) / s)%Q in
        let x := py_max 0 (py_min x ow) in
        let y := py_max 0 (py_min y oh) in
        let w := py_min w (ow - x)%Q in
        let h := py_min h (oh - y)%Q in
        Ok (Some {| rect_x := py_int x; rect_y := py_int y;
                    rect_width := py_int w; rect_height := py_int h |})
    end
  end.

(** The state [set_image] leaves behind for an image of size [(w, h)]:
    [scale_image] picks the smaller of the two ratios and the pixmap gets
    the truncated scaled size. *)
Definition scale_image_factor (label_size image_size : Z * Z) : Q :=
  let width_ratio := (inject_Z (fst label_size) / inject_Z (fst image_size))%Q in
  let height_ratio := (inject_Z (snd label_size) / inject_Z (snd image_size))%Q in
  py_min width_ratio height_ratio.

Definition scaled_size (image_size : Z * Z) (s : Q) : Z * Z :=
  (py_int (inject_Z (fst image_size) * s), py_int (inject_Z (snd image_size) * s)).

Definition set_image (self : t) (image_size : Z * Z) : t :=
  let s := scale_image_factor (size self) image_size in
  {| selection := None;
     scale_factor := s;
     original_size := image_size;
     pixmap := Some (scaled_size image_size s);
     size := size self |}.

End ImageLabel.

(** ** utils/file_handler.py *)

Module FileHandler.

Definition IMAGE_EXTENSIONS : list string :=
  [".jpg"; ".jpeg"; ".png"; ".bmp"; ".gif"].

Definition VIDEO_EXTENSIONS : list string :=
  [".mp4"; ".avi"; ".mov"; ".mkv"].

Section OsPath.

(** [os.path] of the platform, and [str.lower]. *)
Variable splitext : string -> string * string.
Variable basename : string -> string.
Variable dirname : string -> string.
Variable join : string -> string -> string.
Variable lower : string -> string.
(** Whether [os.makedirs] can create a directory. *)
Variable makedirs_ok : string -> bool.

Definition is_image (file_path : string) : bool :=
  bool_decide (lower (snd (splitext file_path)) ∈ IMAGE_EXTENSIONS).

Definition is_video (file_path : string) : bool :=
  bool_decide (lower (snd (splitext file_path)) ∈ VIDEO_EXTENSIONS).

(** The body of the inner loop of [scan_directory] for one file. *)
Definition scan_file (root : string) (lists : list string * list string)
    (file : string) : list string * list string :=
  let '(image_files, video_files) := lists in
  let file_path := join root file in
  if is_image file_path then ((image_files ++ [file_path])%list, video_files)
  else if is_video file_path then (image_files, (video_files ++ [file_path])%list)
  else (image_files, video_files).

(** [walk] is what [os.walk(directory)] yields: each directory with the
    files in it. *)
Definition scan_directory (walk : list (string * list string))
  : list string * list string :=
  foldl (fun lists entry => foldl (scan_file (fst entry)) lists (snd entry))
    ([], []) walk.

(** [existing] are the paths for which [os.path.exists] holds. *)
Definition ensure_directory (existing : gset string) (directory : string)
  : res (gset string) :=
  if bool_decide (directory ∈ existing) then Ok existing
  else if makedirs_ok directory then Ok ({[directory]} ∪ existing)
  else Raise OSError.

Definition get_output_path (existing : gset string) (input_path suffix : string)
  : res (string * gset string) :=
  let input_dir := dirname input_path in
  let output_dir := join input_dir "processed" in
  (existing' <~ (if bool_decide (output_dir ∈ existing) then Ok existing
                 else if makedirs_ok output_dir then Ok ({[output_dir]} ∪ existing)
                 else Raise OSError) ;;
   let '(filename, ext) := splitext (basename input_path) in
   let new_filename := filename ++ suffix ++ ext in
   Ok (join output_dir new_filename, existing'))%res.

End OsPath.

End FileHandler.

Module MainWindow.

(** What [detect_watermark] does to the label once the detector has
    answered: a found region is converted to display coordinates and
    becomes the selection; every exception ends in the status line and
    leaves the label alone. *)
Definition detect_watermark (label : ImageLabel.t)
    (detected : res (option Region)) : ImageLabel.t :=
  match detected with
  | Ok (Some (x, y, w, h)) =>
    match ImageLabel.get_pixmap_rect label with
    | None => label
    | Some pixmap_rect =>
      if isNull pixmap_rect then label
      else
        let '(ow, oh) := ImageLabel.original_size label in
        if (ow =? 0) || (oh =? 0) then label      (* ZeroDivisionError *)
        else
          let scale_x := (inject_Z (rect_width pixmap_rect) / inject_Z ow)%Q in
          let scale_y := (inject_Z (rect_height pixmap_rect) / inject_Z oh)%Q in
          let display_x := py_int (inject_Z x * scale_x) + rect_x pixmap_rect in
          let display_y := py_int (inject_Z y * scale_y) + rect_y pixmap_rect in
          let display_w := py_int (inject_Z w * scale_x) in
          let display_h := py_int (inject_Z h * scale_y) in
          ImageLabel.set_selection label
            (Some {| rect_x := display_x; rect_y := display_y;
                     rect_width := display_w; rect_height := display_h |})
    end
  | _ => label
  end.

(** What a batch leaves behind. *)
Record batch := {
  batch_files : gmap string Frame;
  batch_existing : gset string;
  processed_count : nat
}.

Section Batch.

Variable splitext : string -> string * string.
Variable basename : string -> string.
Variable dirname : string -> string.
Variable join : string -> string -> string.
Variable lower : string -> string.
Variable makedirs_ok : string -> bool.
Variable writable : string -> bool.
Variable inpaint : Frame -> Mask -> Z -> InpaintFlag -> res Frame.

(** The [for file_path in self.selected_files] loop of [process_files]:
    a file that fails is reported and the loop goes on. *)
Fixpoint process_each (processor : ImageProcessor.t)
    (selected_files : list string) (st : batch) : batch :=
  match selected_files with
  | [] => st
  | file_path :: rest =>
    if FileHandler.is_image splitext lower file_path then
      match FileHandler.get_output_path splitext basename dirname join
              makedirs_ok (batch_existing st) file_path "_nowm" with
      | Raise _ => process_each processor rest st
      | Ok (output_path, existing') =>
        match ImageProcessor.remove_watermark writable inpaint processor
                (batch_files st) file_path output_path with
        | Ok files' =>
          process_each processor rest
            {| batch_files := files'; batch_existing := existing';
               processed_count := S (processed_count st) |}
        | Raise _ =>
          process_each processor rest
            {| batch_files := batch_files st; batch_existing := existing';
               processed_count := processed_count st |}
        end
      end
    else process_each processor rest st
  end.

(** [process_files]: nothing happens without files or a selection; the
    region is set from the selection, then every selected file is tried. *)
Definition process_files (label : ImageLabel.t) (processor : ImageProcessor.t)
    (selected_files : list string) (fs : gmap string Frame)
    (existing : gset string) : res (option (ImageProcessor.t * batch)) :=
  match selected_files, ImageLabel.selection label with
  | [], _ | _, None => Ok None
  | _ :: _, Some sel =>
    if isNull sel then Ok None
    else
      (scaled_rect <~ ImageLabel.get_scaled_rect label ;;
       match scaled_rect with
       | None => Ok None
       | Some rect =>
         if isNull rect then Ok None
         else
           let processor :=
             ImageProcessor.set_watermark_region processor
               (rect_x rect) (rect_y rect) (rect_width rect) (rect_height rect) in
           Ok (Some (processor,
                     process_each processor selected_files
                       {| batch_files := fs; batch_existing := existing;
                          processed_count := 0 |}))
       end)%res
  end.

End Batch.

End MainWindow.

(** ** core/video_processor.py *)

(** An entry of a directory: a still written by [cv2.imwrite], or something
    else that was already there ([os.remove] fails on a subdirectory or on
    a protected file). *)
Inductive entry :=
| Still (image : Frame)
| Foreign (removable : bool).

Definition removable_entry (e : entry) : bool :=
  match e with
  | Still _ => true
  | Foreign r => r
  end.

(** [ffmpeg.input(filename, framerate=...)] *)
Record ffmpeg_input := { in_filename : string; in_framerate : Z }.

(** The output node handed to [ffmpeg.run]. *)
Record ffmpeg_cmd := {
  cmd_inputs : list ffmpeg_input;
  out_filename : string;
  vcodec : string;
  pix_fmt : string;
  preset : string;
  crf : Z;
  acodec : string;
  overwrite_output : bool
}.

(** What an opened [cv2.VideoCapture] reports and delivers. *)
Record capture := {
  frame_count : Q;          (* CAP_PROP_FRAME_COUNT, container metadata *)
  cap_fps : Q;
  frame_width : Q;
  frame_height : Q;
  frames : list Frame       (* what successive [read()] calls return *)
}.

(** State threaded through a run: the directories on disk (path to entries
    by name), the values handed to the progress callback, the commands
    handed to ffmpeg, and whether the local name [cap] is bound. *)
Record world := {
  dirs : gmap string (gmap string entry);
  delivered : list Q;
  ffmpeg_log : list ffmpeg_cmd;
  cap_bound : bool
}.

Definition set_dirs (w : world) (d : gmap string (gmap string entry)) : world :=
  {| dirs := d; delivered := delivered w; ffmpeg_log := ffmpeg_log w;
     cap_bound := cap_bound w |}.

(** How a block of statements ends. *)
Inductive completion (A : Type) :=
| Normal (a : A)
| Return (v : bool)
| Throw (e : exn).
Arguments Normal {A} a.
Arguments Return {A} v.
Arguments Throw {A} e.

Definition M (A : Type) : Type := world -> completion A * world.

#[export] Instance M_ret : MRet M := fun A a w => (Normal a, w).

#[export] Instance M_bind : MBind M := fun A B k m w =>
  match m w with
  | (Normal a, w') => k a w'
  | (Return v, w') => (Return v, w')
  | (Throw e, w') => (Throw e, w')
  end.

Definition return_ {A} (v : bool) : M A := fun w => (Return v, w).
Definition throw {A} (e : exn) : M A := fun w => (Throw e, w).

Definition lift_res {A} (r : res A) : M A :=
  match r with
  | Ok a => mret a
  | Raise e => throw e
  end.

(** [try: body finally: fin]: the finaliser always runs; its own return or
    exception replaces the completion of the body. *)
Definition try_finally {A} (body : M A) (fin : M unit) : M A := fun w =>
  let '(c, w1) := body w in
  match fin w1 with
  | (Normal _, w2) => (c, w2)
  | (Return v, w2) => (Return v, w2)
  | (Throw e, w2) => (Throw e, w2)
  end.

(** [try: body except Exception as e: handler] *)
Definition try_except {A} (body : M A) (handler : exn -> M A) : M A := fun w =>
  match body w with
  | (Throw e, w1) => handler e w1
  | r => r
  end.

(** [try: body except: pass] *)
Definition ignore_errors (body : M unit) : M unit :=
  try_except body (fun _ => mret tt).

(** A call of a function all of whose paths return or raise. *)
Definition call (body : M Empty_set) (w : world) : res bool * world :=
  match body w with
  | (Normal a, _) => match a with end
  | (Return v, w') => (Ok v, w')
  | (Throw e, w') => (Raise e, w')
  end.

(** [f"{n:06d}"] *)
Definition pad6 (n : nat) : string :=
  let digits := pretty n in
  String.concat "" (repeat "0" (6 - String.length digits)%nat) ++ digits.

Definition frame_name (n : nat) : string := "frame_" ++ pad6 n ++ ".jpg".

(** *** File system calls *)

Definition os_listdir (dir : string) : M (list string) := fun w =>
  match dirs w !! dir with
  | Some es => (Normal (map_to_list es).*1, w)
  | None => (Throw OSError, w)
  end.

(** [os.remove(os.path.join(dir, name))] *)
Definition os_remove (dir name : string) : M unit := fun w =>
  match dirs w !! dir with
  | Some es =>
    match es !! name with
    | Some e =>
      if removable_entry e
      then (Normal tt, set_dirs w (<[dir := delete name es]> (dirs w)))
      else (Throw OSError, w)
    | None => (Throw OSError, w)
    end
  | None => (Throw OSError, w)
  end.

(** [os.rmdir(dir)]: only an existing, empty directory goes. *)
Definition os_rmdir (dir : string) : M unit := fun w =>
  match dirs w !! dir with
  | Some es =>
    if decide (es = ∅)
    then (Normal tt, set_dirs w (delete dir (dirs w)))
    else (Throw OSError, w)
  | None => (Throw OSError, w)
  end.

(** [cv2.imwrite(os.path.join(dir, name), image, ...)]: a failed write is
    reported by the return value, which the caller drops; only a missing
    image raises. *)
Definition cv2_imwrite (dir name : string) (image : option Frame) : M unit :=
  fun w =>
  match image with
  | None => (Throw Cv2Error, w)
  | Some img =>
    match dirs w !! dir with
    | Some es =>
      match es !! name with
      | Some (Foreign false) => (Normal tt, w)
      | _ => (Normal tt, set_dirs w (<[dir := <[name := Still img]> es]> (dirs w)))
      end
    | None => (Normal tt, w)
    end
  end.

Definition set_cap_bound (w : world) (b : bool) : world :=
  {| dirs := dirs w; delivered := delivered w; ffmpeg_log := ffmpeg_log w;
     cap_bound := b |}.

Fixpoint for_each {A} (l : list A) (body : A -> M unit) : M unit :=
  match l with
  | [] => mret tt
  | a :: rest => body a ;; for_each rest body
  end.

Module VideoProcessor.

Record t := {
  video_path : option string;
  total_frames : Z;
  fps : Z;
  width : Z;
  height : Z;
  watermark_region : option Region;
  method : string;
  inpaint_radius : Z
}.

Definition init : t :=
  {| video_path := None; total_frames := 0; fps := 0; width := 0; height := 0;
     watermark_region := None; method := "telea"; inpaint_radius := 3 |}.

Definition set_watermark_region (self : t) (x y w h : Q) : t :=
  {| video_path := video_path self; total_frames := total_frames self;
     fps := fps self; width := width self; height := height self;
     watermark_region := Some (py_int x, py_int y, py_int w, py_int h);
     method := method self; inpaint_radius := inpaint_radius self |}.

(** [not self.video_path]: unset or empty. *)
Definition no_path (p : option string) : bool :=
  match p with
  | None => true
  | Some s => String.eqb s ""
  end.

(** [not self.watermark_region]: a 4-tuple is always true. *)
Definition no_region (r : option Region) : bool :=
  match r with
  | None => true
  | Some _ => false
  end.

Definition ffmpeg_input_ (filename : string) (framerate : Z) : list ffmpeg_input :=
  [{| in_filename := filename; in_framerate := framerate |}].

Section Collaborators.

(** [cv2.VideoCapture(path)]; [None] when [isOpened()] is false. *)
Variable VideoCapture : string -> option capture.
Variable inpaint : Frame -> Mask -> Z -> InpaintFlag -> res Frame.
(** [os.path.dirname] and [os.path.join] of the platform. *)
Variable dirname : string -> string.
Variable join : string -> string -> string.
(** Whether the directory can be created (or already is one). *)
Variable makedirs_ok : string -> bool.
(** Whether ffmpeg succeeds on a command, given the disk. *)
Variable ffmpeg_ok : ffmpeg_cmd -> gmap string (gmap string entry) -> bool.

(** An unopened capture answers 0 to every property query. *)
Definition load_video (self : t) (path : string) : t * bool :=
  let get prop :=
    match VideoCapture path with
    | Some cap => prop cap
    | None => 0%Q
    end in
  ({| video_path := Some path;
      total_frames := py_int (get frame_count);
      fps := py_int (get cap_fps);
      width := py_int (get frame_width);
      height := py_int (get frame_height);
      watermark_region := watermark_region self;
      method := method self; inpaint_radius := inpaint_radius self |}, true).

Definition process_frame (self : t) (frame : option Frame)
  : res (option Frame) :=
  match frame, watermark_region self with
  | None, _ | _, None => Ok frame
  | Some image, Some region =>
    res_catch
      (let mask := region_mask image region in
       result <~ (if String.eqb (method self) "telea"
                  then inpaint image mask (inpaint_radius self) INPAINT_TELEA
                  else inpaint image mask (inpaint_radius self) INPAINT_NS) ;;
       Ok (Some result))%res
      (fun _ => Ok frame)
  end.

(** [os.makedirs(dir, exist_ok=True)] *)
Definition os_makedirs (dir : string) : M unit := fun w =>
  if makedirs_ok dir then
    match dirs w !! dir with
    | Some _ => (Normal tt, w)
    | None => (Normal tt, set_dirs w (<[dir := ∅]> (dirs w)))
    end
  else (Throw OSError, w).

(** [cap = cv2.VideoCapture(path)] *)
Definition open_capture (path : string) : M (option capture) := fun w =>
  (Normal (VideoCapture path), set_cap_bound w true).

(** [progress_callback(progress)]; the sink sees how many values it
    was given before. *)
Definition deliver (sink : nat -> Q -> res bool) (progress : Q) : M bool :=
  fun w =>
  let w' := {| dirs := dirs w; delivered := delivered w ++ [progress];
               ffmpeg_log := ffmpeg_log w; cap_bound := cap_bound w |} in
  match sink (length (delivered w)) progress with
  | Ok b => (Normal b, w')
  | Raise e => (Throw e, w')
  end.

(** [ffmpeg.run(stream, overwrite_output=True)] *)
Definition ffmpeg_run (cmd : ffmpeg_cmd) : M unit := fun w =>
  let w' := {| dirs := dirs w; delivered := delivered w;
               ffmpeg_log := ffmpeg_log w ++ [cmd]; cap_bound := cap_bound w |} in
  if ffmpeg_ok cmd (dirs w) then (Normal tt, w') else (Throw FfmpegError, w').

(** The [while True] loop over [cap.read()]; [pending] are the frames
    the capture has still to deliver. *)
Fixpoint frame_loop (self : t) (temp_dir : string) (total_frames : Z)
    (progress_callback : option (nat -> Q -> res bool))
    (pending : list Frame) (current_frame : nat) : M unit :=
  match pending with
  | [] => mret tt
  | frame :: rest =>
    processed ← lift_res (process_frame self (Some frame));
    cv2_imwrite temp_dir (frame_name current_frame) processed;;
    let current_frame := S current_frame in
    match progress_callback with
    | None =>
      frame_loop self temp_dir total_frames progress_callback rest current_frame
    | Some sink =>
      if total_frames =? 0 then throw ZeroDivisionError
      else
        let progress :=
          (inject_Z (Z.of_nat current_frame) / inject_Z total_frames * 100)%Q in
        continue ← deliver sink progress;
        if continue : bool
        then frame_loop self temp_dir total_frames progress_callback rest
               current_frame
        else return_ false
    end
  end.

(** The inner [finally]. *)
Definition cleanup (temp_dir : string) : M unit :=
  files ← os_listdir temp_dir;
  for_each files (fun file => ignore_errors (os_remove temp_dir file));;
  ignore_errors (os_rmdir temp_dir).

(** The outer [finally]: [if cap: cap.release()]. *)
Definition release_cap : M unit := fun w =>
  if cap_bound w then (Normal tt, w) else (Throw UnboundLocalError, w).

Definition mux_command (self : t) (temp_dir output_path : string) : ffmpeg_cmd :=
  let frame_pattern := join temp_dir "frame_%06d.jpg" in
  let stream := ffmpeg_input_ frame_pattern (fps self) in
  {| cmd_inputs := stream;
     out_filename := output_path;
     vcodec := "libx264";
     pix_fmt := "yuv420p";
     preset := "veryfast";
     crf := 23;
     acodec := "copy";
     overwrite_output := true |}.

Definition process_video_body (self : t) (output_path : string)
    (progress_callback : option (nat -> Q -> res bool)) : M Empty_set :=
  if no_path (video_path self) || no_region (watermark_region self)
  then return_ false
  else
    try_finally
      (try_except
         (let temp_dir := join (dirname output_path) "temp_frames" in
          os_makedirs temp_dir;;
          cap ← open_capture (default "" (video_path self));
          match cap with
          | None => return_ false
          | Some cap =>
            let total_frames := py_int (frame_count cap) in
            try_finally
              (frame_loop self temp_dir total_frames progress_callback
                 (frames cap) 0;;
               ffmpeg_run (mux_command self temp_dir output_path);;
               return_ true)
              (cleanup temp_dir)
          end)
         (fun e => return_ false))
      release_cap.

(** A call starts with no local bound. *)
Definition process_video (self : t) (output_path : string)
    (progress_callback : option (nat -> Q -> res bool)) (w : world)
  : res bool * world :=
  call (process_video_body self output_path progress_callback)
       (set_cap_bound w false).

(** The scratch directory of a run (the local [temp_dir]). *)
Definition scratch_dir (output_path : string) : string :=
  join (dirname output_path) "temp_frames".

End Collaborators.

Section Frames.

(** [cap.set(cv2.CAP_PROP_POS_FRAMES, frame_idx)] then [cap.read()]:
    the frame, [None] when [ret] is false. *)
Variable read_at : capture -> Z -> res (option Frame).
(** [cv2.resize(frame, (w, h), interpolation=cv2.INTER_AREA)] *)
Variable resize : Frame -> Z * Z -> res Frame.
(** [cv2.cvtColor(frame, cv2.COLOR_BGR2RGB)] *)
Variable cvtColor : Frame -> res Frame.
Variable inpaint : Frame -> Mask -> Z -> InpaintFlag -> res Frame.

(** [cap] is [self.cap]: unset or unopened captures deliver nothing. *)
Definition get_frame (cap : option capture) (frame_idx : Z) : option Frame :=
  match cap with
  | None => None
  | Some c =>
    match read_at c frame_idx with
    | Ok (Some frame) => Some frame
    | Ok None => None
    | Raise _ => None
    end
  end.

Definition get_preview_frame (cap : option capture) (frame_idx : Z)
    (max_size : Z) : option Frame :=
  match get_frame cap frame_idx with
  | None => None
  | Some frame =>
    let attempt :=
      let '(h, w) := shape frame in
      if (w =? 0) || (h =? 0) then Raise ZeroDivisionError
      else
        let scale := py_min (inject_Z max_size / inject_Z w)
                            (inject_Z max_size / inject_Z h) in
        (frame <~ (if Qltb scale 1
                   then resize frame (py_int (inject_Z w * scale),
                                      py_int (inject_Z h * scale))
                   else Ok frame) ;;
         cvtColor frame)%res in
    match attempt with
    | Ok frame_rgb => Some frame_rgb
    | Raise _ => None
    end
  end.

(** [process_frame_batch]; [i] is the position [enumerate] has reached. *)
Fixpoint process_frame_batch_from (self : t) (start_idx : nat)
    (frames : list (option Frame)) (temp_dir : string) (i : nat)
  : M (list nat) :=
  match frames with
  | [] => mret []
  | None :: rest => process_frame_batch_from self start_idx rest temp_dir (S i)
  | Some frame :: rest =>
    processed ← lift_res (process_frame inpaint self (Some frame));
    let frame_idx := (start_idx + i)%nat in
    cv2_imwrite temp_dir (frame_name frame_idx) processed;;
    results ← process_frame_batch_from self start_idx rest temp_dir (S i);
    mret (frame_idx :: results)
  end.

Definition process_frame_batch (self : t) (start_idx : nat)
    (frames : list (option Frame)) (temp_dir : string) : M (list nat) :=
  process_frame_batch_from self start_idx frames temp_dir 0.

End Frames.

End VideoProcessor.

(** ** ui/video_window.py *)

Module VideoPreviewLabel.

Record t := {
  selection : option QRect;
  pixmap : option (Z * Z);
  size : Z * Z
}.

Definition get_pixmap_rect (self : t) : option QRect :=
  match pixmap self with
  | None => None
  | Some (pw, ph) =>
    let x := (fst (size self) - pw) / 2 in
    let y := (snd (size self) - ph) / 2 in
    Some {| rect_x := x; rect_y := y; rect_width := pw; rect_height := ph |}
  end.

End VideoPreviewLabel.

Module VideoWindow.

(** The processor after [preview_removal]: the selection is converted to
    the coordinates of the video and becomes the watermark region; every
    exception ends in the status line. *)
Definition preview_removal (label : VideoPreviewLabel.t)
    (video_processor : VideoProcessor.t) : VideoProcessor.t :=
  match VideoPreviewLabel.selection label with
  | None => video_processor
  | Some rect =>
    if isNull rect then video_processor
    else
      match VideoPreviewLabel.get_pixmap_rect label with
      | None => video_processor
      | Some pixmap_rect =>
        if isNull pixmap_rect then video_processor
        else if (rect_width pixmap_rect =? 0) || (rect_height pixmap_rect =? 0)
        then video_processor                      (* ZeroDivisionError *)
        else
          let scale_x := (inject_Z (VideoProcessor.width video_processor)
                          / inject_Z (rect_width pixmap_rect))%Q in
          let scale_y := (inject_Z (VideoProcessor.height video_processor)
                          / inject_Z (rect_height pixmap_rect))%Q in
          let x := py_int (inject_Z (rect_x rect - rect_x pixmap_rect) * scale_x) in
          let y := py_int (inject_Z (rect_y rect - rect_y pixmap_rect) * scale_y) in
          let w := py_int (inject_Z (rect_width rect) * scale_x) in
          let h := py_int (inject_Z (rect_height rect) * scale_y) in
          VideoProcessor.set_watermark_region video_processor
            (inject_Z x) (inject_Z y) (inject_Z w) (inject_Z h)
      end
  end.

End VideoWindow.

Module ProcessThread.

Section Run.

Variable VideoCapture : string -> option capture.
Variable inpaint : Frame -> Mask -> Z -> InpaintFlag -> res Frame.
Variable dirname : string -> string.
Variable join : string -> string -> string.
Variable makedirs_ok : string -> bool.
Variable ffmpeg_ok : ffmpeg_cmd -> gmap string (gmap string entry) -> bool.
(** The truth value of what [self.progress_updated.emit(p)] returns. *)
Variable emit : Q -> res bool.
(** [self._is_canceled] as the callback reads it when it is called for
    the k-th time; [cancel] sets it from the thread of the window. *)
Variable is_canceled : nat -> bool.

(** [lambda p: self.progress_updated.emit(p) if not self._is_canceled
    else False] *)
Definition callback (k : nat) (p : Q) : res bool :=
  if is_canceled k then Ok false else emit p.

(** [run]: the first argument [finished] is emitted with, if it is
    emitted; [canceled_at_end] is the flag once [process_video] is over. *)
Definition run (video_processor : VideoProcessor.t) (output_path : string)
    (canceled_at_end : bool) (w : world) : option bool * world :=
  let '(result, w') :=
    VideoProcessor.process_video VideoCapture inpaint dirname join makedirs_ok
      ffmpeg_ok video_processor output_path (Some callback) w in
  match result with
  | Ok success => (if canceled_at_end then None else Some success, w')
  | Raise _ => (if canceled_at_end then None else Some false, w')
  end.

End Run.

End ProcessThread.

(** ** Vocabulary of the properties *)

(** The Region invariant of the data model, for a given frame. *)
Definition region_in_frame (image : Frame) (r : Region) : Prop :=
  let '(x, y, w, h) := r in
  0 <= x /\ 0 <= y /\ x + w <= snd (shape image) /\ y + h <= fst (shape image).

(** A rectangle with non-negative sides inside an image of the given
    (width, height). *)
Definition region_in_size (size : Z * Z) (r : Region) : Prop :=
  let '(x, y, w, h) := r in
  0 <= x /\ 0 <= y /\ 0 <= w /\ 0 <= h /\
  x + w <= fst size /\ y + h <= snd size.

(** The label once [detect_watermark] has shown a detected region. *)
Definition shown (label : ImageLabel.t) (r : Region) : ImageLabel.t :=
  MainWindow.detect_watermark label (Ok (Some r)).

(** Native to display and back. *)
Definition roundtrip (label : ImageLabel.t) (r : Region) : res (option QRect) :=
  ImageLabel.get_scaled_rect (shown label r).

(** Each of x, y, width, height within [tol] pixels. *)
Definition within (tol : Z) (r : Region) (q : QRect) : Prop :=
  let '(x, y, w, h) := r in
  Z.abs (rect_x q - x) <= tol /\ Z.abs (rect_y q - y) <= tol /\
  Z.abs (rect_width q - w) <= tol /\ Z.abs (rect_height q - h) <= tol.

(** What one coordinate loses in the round trip at scale [s]: it never
    grows, and it falls short by less than [1 + 2 / s]. *)
Definition lost (s : Q) (a a' : Z) : Prop :=
  a' <= a /\ (inject_Z (a - a') < 1 + 2 / s)%Q.

(** A reconstruction primitive made harmless: where [inpaint] raises, hand
    back the frame it was given. *)
Definition passthrough (inpaint : Frame -> Mask -> Z -> InpaintFlag -> res Frame)
    (image : Frame) (mask : Mask) (radius : Z) (flag : InpaintFlag) : res Frame :=
  match inpaint image mask radius flag with
  | Ok result => Ok result
  | Raise _ => Ok image
  end.

(** The value [process_video] computes after its [k]-th frame. *)
Definition progress_value (total_frames : Z) (k : nat) : Q :=
  (inject_Z (Z.of_nat k) / inject_Z total_frames * 100)%Q.

(** The flag [process_frame] passes for a configuration. *)
Definition chosen_flag (self : VideoProcessor.t) : InpaintFlag :=
  if String.eqb (VideoProcessor.method self) "telea"
  then INPAINT_TELEA else INPAINT_NS.

(** The world once one more progress value has been handed over. *)
Definition pushed (w : world) (v : Q) : world :=
  {| dirs := dirs w; delivered := delivered w ++ [v];
     ffmpeg_log := ffmpeg_log w; cap_bound := cap_bound w |}.

(** Every entry of a directory can be removed. *)
Definition clearable (es : gmap string entry) : Prop :=
  map_Forall (fun _ e => removable_entry e = true) es.

(** A directory after an attempt to remove one name from it. *)
Definition removed (es : gmap string entry) (name : string) : gmap string entry :=
  match es !! name with
  | Some e => if removable_entry e then delete name es else es
  | None => es
  end.

(** What a step that only touches the scratch directory [d] preserves:
    the ffmpeg log, the binding of [cap], the other directories, and the
    presence (and clearability) of [d] itself. *)
Definition scratch_step (d : string) (w w' : world) : Prop :=
  ffmpeg_log w' = ffmpeg_log w /\
  cap_bound w' = cap_bound w /\
  (forall d', d' <> d -> dirs w' !! d' = dirs w !! d') /\
  (dirs w !! d = None -> dirs w' !! d = None) /\
  (forall es, dirs w !! d = Some es ->
     exists es', dirs w' !! d = Some es' /\ (clearable es -> clearable es')).

(** The world when the frame loop starts: the scratch directory exists
    and [cap] is bound. *)
Definition prepared (d : string) (w : world) : world :=
  {| dirs := match dirs w !! d with
             | Some _ => dirs w
             | None => <[d := ∅]> (dirs w)
             end;
     delivered := delivered w;
     ffmpeg_log := ffmpeg_log w;
     cap_bound := true |}.

(** What [process_video] returns once the capture is open: [c] is how the
    frame loop ended, [mux_ok] whether ffmpeg succeeded. *)
Definition run_result (c : completion unit) (mux_ok : bool) : bool :=
  match c with
  | Normal _ => mux_ok
  | Return v => v
  | Throw _ => false
  end.

(** The commands a run adds to the ffmpeg log. *)
Definition run_commands (c : completion unit) (cmd : ffmpeg_cmd) : list ffmpeg_cmd :=
  match c with
  | Normal _ => [cmd]
  | _ => []
  end.

(** How the frame loop ended, read off the answers of the sink: [base]
    values had been delivered before the loop, [n] frames were done, [len]
    frames were pending and [m] values were delivered by the loop. *)
Definition loop_verdict (progress_callback : option (nat -> Q -> res bool))
    (total_frames : Z) (base n len m : nat) (c : completion unit) : Prop :=
  match progress_callback with
  | None => m = 0%nat /\ c = Normal tt
  | Some sink =>
    let answer i := sink (base + i)%nat (progress_value total_frames (S n + i)) in
    ((0 < m)%nat -> total_frames <> 0) /\
    match c with
    | Normal _ => m = len /\ (forall i, (i < m)%nat -> answer i = Ok true)
    | Return v =>
      v = false /\
      exists m', m = S m' /\ (forall i, (i < m')%nat -> answer i = Ok true) /\
                 answer m' = Ok false
    | Throw e =>
      (m = 0%nat /\ total_frames = 0 /\ e = ZeroDivisionError /\ (0 < len)%nat)
      \/ (exists m', m = S m' /\ (forall i, (i < m')%nat -> answer i = Ok true) /\
                     answer m' = Raise e)
    end
  end.

(** A string without its leading zeros. *)
Fixpoint strip_zeros (s : string) : string :=
  match s with
  | String c rest => if Ascii.eqb c "0" then strip_zeros rest else s
  | EmptyString => s
  end.

(** The path [get_output_path] gives a batch output: the input's name
    with [_nowm] before its extension, in [processed] next to the input. *)
Definition nowm_path (splitext : string -> string * string)
    (basename dirname : string -> string) (join : string -> string -> string)
    (input_path : string) : string :=
  join (join (dirname input_path) "processed")
       (fst (splitext (basename input_path)) ++ "_nowm"
        ++ snd (splitext (basename input_path))).

(** ** Concrete collaborators for the examples *)

(** [posixpath.join] and [posixpath.dirname]. *)
Module Posix.

Definition is_sep (c : ascii) : bool := Ascii.eqb c "/".

Fixpoint drop_while (p : ascii -> bool) (l : list ascii) : list ascii :=
  match l with
  | [] => []
  | c :: rest => if p c then drop_while p rest else l
  end.

Definition ends_with_sep (a : string) : bool :=
  match rev (list_ascii_of_string a) with
  | c :: _ => is_sep c
  | [] => false
  end.

Definition join (a b : string) : string :=
  if String.prefix "/" b then b
  else if String.eqb a "" || ends_with_sep a then a ++ b
  else a ++ "/" ++ b.

Definition dirname (p : string) : string :=
  let head := drop_while (fun c => negb (is_sep c)) (rev (list_ascii_of_string p)) in
  if forallb is_sep head then string_of_list_ascii (rev head)
  else string_of_list_ascii (rev (drop_while is_sep head)).

End Posix.

Module Sample.

Definition gray : pixel := (128, 128, 128).
Definition black : pixel := (0, 0, 0).
Definition white : pixel := (255, 255, 255).

Definition image2x2 : Frame := [[gray; gray]; [gray; gray]].
Definition image10x10 : Frame := repeat (repeat gray 10) 10.

(** A reconstruction primitive that tells the two algorithms apart: the
    masked pixels become black under Telea and white under
    Navier-Stokes; the others are kept. *)
Definition paint (image : Frame) (mask : Mask) (radius : Z)
    (flag : InpaintFlag) : res Frame :=
  let ink := match flag with INPAINT_TELEA => black | INPAINT_NS => white end in
  Ok (imap (fun i row =>
        imap (fun j px =>
          match mask !! i ≫= (.!! j) with
          | Some 0 | None => px
          | Some _ => ink
          end) row) image).

(** A reconstruction primitive that always fails. *)
Definition broken (image : Frame) (mask : Mask) (radius : Z)
    (flag : InpaintFlag) : res Frame := Raise Cv2Error.

(** Contours reduced to what the detector reads of them. *)
Definition contour : Type := Q * Region.
Definition area (c : contour) : Q := fst c.
Definition rect (c : contour) : Region := snd c.

(** A detector front end that reports one blob of area 4 at (3, 3). *)
Definition one_blob (image : Frame) : res (list contour) :=
  Ok [(4%Q, (3, 3, 2, 2))].

Definition always_writable (path : string) : bool := true.

(** A 400x300 label showing a 1600x1200 image: scale factor 1/4. *)
Definition small_preview : ImageLabel.t :=
  ImageLabel.set_image
    {| ImageLabel.selection := None; ImageLabel.scale_factor := 1;
       ImageLabel.original_size := (0, 0); ImageLabel.pixmap := None;
       ImageLabel.size := (400, 300) |}
    (1600, 1200).

(** A 200x200 label showing a 100x100 image: scale factor 2. *)
Definition large_preview : ImageLabel.t :=
  ImageLabel.set_image
    {| ImageLabel.selection := None; ImageLabel.scale_factor := 1;
       ImageLabel.original_size := (0, 0); ImageLabel.pixmap := None;
       ImageLabel.size := (200, 200) |}
    (100, 100).

(** A processor switched to Navier-Stokes, with a one-pixel region. *)
Definition ns_processor : ImageProcessor.t :=
  {| ImageProcessor.watermark_region := Some (0, 0, 1, 1);
     ImageProcessor.inpaint_radius := 3;
     ImageProcessor.method := "ns" |}.

Definition one_file : gmap string Frame := {[ "in.png" := image2x2 ]}.
Definition big_file : gmap string Frame := {[ "in.png" := image10x10 ]}.

Definition empty_world : world :=
  {| dirs := ∅; delivered := []; ffmpeg_log := []; cap_bound := false |}.

(** A two-frame clip whose container claims [n] frames. *)
Definition clip (n : Z) : capture :=
  {| frame_count := inject_Z n; cap_fps := 25; frame_width := 2;
     frame_height := 2; frames := [image2x2; image2x2] |}.

Definition one_video (n : Z) (path : string) : option capture :=
  if String.eqb path "/v/in.mp4" then Some (clip n) else None.

Definition no_video (path : string) : option capture := None.

Definition loaded : VideoProcessor.t :=
  {| VideoProcessor.video_path := Some "/v/in.mp4";
     VideoProcessor.total_frames := 2;
     VideoProcessor.fps := 25;
     VideoProcessor.width := 2;
     VideoProcessor.height := 2;
     VideoProcessor.watermark_region := Some (0, 0, 1, 1);
     VideoProcessor.method := "telea";
     VideoProcessor.inpaint_radius := 3 |}.

Definition keep_going (k : nat) (progress : Q) : res bool := Ok true.
Definition stop_at_once (k : nat) (progress : Q) : res bool := Ok false.

Definition can_mkdir (dir : string) : bool := true.
Definition ffmpeg_works (cmd : ffmpeg_cmd) (d : gmap string (gmap string entry)) : bool := true.
Definition ffmpeg_fails (cmd : ffmpeg_cmd) (d : gmap string (gmap string entry)) : bool := false.

(** A run of [loaded] writing to /v/out.mp4 on an empty disk. *)
Definition run (source : string -> option capture)
    (inpaint : Frame -> Mask -> Z -> InpaintFlag -> res Frame)
    (ffmpeg_ok : ffmpeg_cmd -> gmap string (gmap string entry) -> bool)
    (cb : option (nat -> Q -> res bool)) : res bool * world :=
  VideoProcessor.process_video source inpaint Posix.dirname Posix.join
    can_mkdir ffmpeg_ok loaded "/v/out.mp4" cb empty_world.

End Sample.

(** More collaborators and inputs: path functions in the manner of
    [posixpath], a detector front end with two blobs, captures that can
    be read at an index, and a small folder of pictures. *)
Module Fixtures.

Fixpoint take_while (p : ascii -> bool) (l : list ascii) : list ascii :=
  match l with
  | [] => []
  | c :: rest => if p c then c :: take_while p rest else []
  end.

Definition basename (p : string) : string :=
  string_of_list_ascii
    (rev (take_while (fun c => negb (Posix.is_sep c))
            (rev (list_ascii_of_string p)))).

(** The extension starts at the last dot of the last component, unless
    only dots come before it. *)
Definition splitext (p : string) : string * string :=
  let name := list_ascii_of_string (basename p) in
  let ext := rev (take_while (fun c => negb (Ascii.eqb c ".")) (rev name)) in
  let stem := firstn (length name - length ext - 1) name in
  if (length ext <? length name)%nat && negb (forallb (fun c => Ascii.eqb c ".") stem)
  then (string_of_list_ascii
          (firstn (String.length p - length ext - 1) (list_ascii_of_string p)),
        string_of_list_ascii ("."%char :: ext))
  else (p, "").

Definition lower_char (c : ascii) : ascii :=
  let n := nat_of_ascii c in
  if (65 <=? n)%nat && (n <=? 90)%nat then ascii_of_nat (n + 32) else c.

Definition lower (s : string) : string :=
  string_of_list_ascii (map lower_char (list_ascii_of_string s)).

Definition two_blobs (image : Frame) : res (list Sample.contour) :=
  Ok [(4%Q, (3, 3, 2, 2)); (6%Q, (5, 5, 3, 3))].

Definition telea_processor : ImageProcessor.t :=
  {| ImageProcessor.watermark_region := Some (0, 0, 1, 1);
     ImageProcessor.inpaint_radius := 3;
     ImageProcessor.method := "telea" |}.

(** [Sample.small_preview] with a selection drawn on it. *)
Definition selected_preview : ImageLabel.t :=
  ImageLabel.set_selection Sample.small_preview
    (Some {| rect_x := 100; rect_y := 50; rect_width := 40; rect_height := 20 |}).

(** A 400x300 video label showing a 200x200 pixmap, with a selection. *)
Definition video_label : VideoPreviewLabel.t :=
  {| VideoPreviewLabel.selection :=
       Some {| rect_x := 150; rect_y := 100; rect_width := 50; rect_height := 100 |};
     VideoPreviewLabel.pixmap := Some (200, 200);
     VideoPreviewLabel.size := (400, 300) |}.

Definition read_at (cap : capture) (frame_idx : Z) : res (option Frame) :=
  if frame_idx <? 0 then Ok None else Ok (frames cap !! Z.to_nat frame_idx).

Definition resize (frame : Frame) (new_size : Z * Z) : res Frame :=
  Ok (repeat (repeat Sample.gray (Z.to_nat (fst new_size)))
        (Z.to_nat (snd new_size))).

Definition cvtColor (frame : Frame) : res Frame :=
  Ok (map (map (fun px : pixel => let '(b, g, r) := px in (r, g, b))) frame).

(** Two pictures that decode, one that does not, and a text file. *)
Definition pictures : gmap string Frame :=
  {[ "/pics/a.png" := Sample.image2x2; "/pics/c.JPG" := Sample.image10x10 ]}.

Definition selected : list string :=
  ["/pics/a.png"; "/pics/b.png"; "/pics/notes.txt"; "/pics/c.JPG"].

(** A signal whose [emit] returns True, and a cancel flag that is set
    from the n-th report on. *)
Definition emit_true (p : Q) : res bool := Ok true.
Definition canceled_from (n k : nat) : bool := (n <=? k)%nat.

End Fixtures.

(** * Properties *)

(** ** Small facts about the Python layer *)

Lemma Qltb_true (a b : Q) : Qltb a b = true <-> (a < b)%Q.
Proof.
  unfold Qltb. destruct (Qlt_le_dec a b) as [Hlt | Hle].
  - split; auto.
  - split; [discriminate |]. intros Hab. exfalso. revert Hab. apply Qle_not_lt, Hle.
Qed.

Lemma py_int_inject_Z (z : Z) : py_int (inject_Z z) = z.
Proof.
  unfold py_int. destruct (Qle_bool 0 (inject_Z z)).
  - apply Qfloor_Z.
  - apply Qceiling_Z.
Qed.

(** ** The image processor *)

Section ImageProcessorFacts.

Context (writable : string -> bool).
Context (inpaint : Frame -> Mask -> Z -> InpaintFlag -> res Frame).
Context {Contour : Type}.
Context (find_contours : Frame -> res (list Contour)).
Context (contourArea : Contour -> Q).
Context (boundingRect : Contour -> Region).

Local Abbreviation remove_watermark :=
  (ImageProcessor.remove_watermark writable inpaint).
Local Abbreviation preview_removal := (ImageProcessor.preview_removal inpaint).
Local Abbreviation auto_detect_watermark :=
  (ImageProcessor.auto_detect_watermark find_contours contourArea boundingRect).
Local Abbreviation valid_contours := (ImageProcessor.valid_contours contourArea).

(** The batch path never looks at [method]. *)
Lemma remove_watermark_ignores_method self m fs input_path output_path :
  remove_watermark (ImageProcessor.set_method self m) fs input_path output_path
  = remove_watermark self fs input_path output_path.
Proof. reflexivity. Qed.

(** With [method = 'telea'] the batch path saves what the preview shows. *)
Lemma remove_watermark_telea_matches_preview self fs input_path output_path image :
  ImageProcessor.method self = "telea" ->
  ImageProcessor.read_image fs input_path = Some image ->
  remove_watermark self fs input_path output_path
  = (result <~ preview_removal self fs input_path ;;
     ImageProcessor.save_image writable fs output_path result)%res.
Proof.
  intros Hm Hread. unfold ImageProcessor.remove_watermark,
    ImageProcessor.preview_removal.
  destruct (ImageProcessor.watermark_region self) as [region |]; [| reflexivity].
  rewrite Hread, Hm. reflexivity.
Qed.

Lemma valid_contours_spec image contours c :
  In c (valid_contours image contours) <->
  In c contours /\
  (ImageProcessor.min_area image < contourArea c)%Q /\
  (contourArea c < ImageProcessor.max_area image)%Q.
Proof.
  unfold ImageProcessor.valid_contours. rewrite filter_In.
  rewrite andb_true_iff, !Qltb_true. reflexivity.
Qed.

(** A frame without rows has no contour inside the area bounds. *)
Lemma valid_contours_no_rows image contours :
  fst (shape image) = 0 -> valid_contours image contours = [].
Proof.
  intros Hrows.
  destruct (valid_contours image contours) as [| c rest] eqn:Hvalid; [reflexivity |].
  assert (Hin : In c (valid_contours image contours)) by (rewrite Hvalid; left; reflexivity).
  apply valid_contours_spec in Hin as (_ & Hmin & Hmax).
  unfold ImageProcessor.min_area, ImageProcessor.max_area in Hmin, Hmax.
  rewrite Hrows, Z.mul_0_l in Hmin, Hmax.
  change (inject_Z 0) with 0%Q in Hmin, Hmax.
  exfalso. lra.
Qed.

Lemma contour_features_ok image valid :
  fst (shape image) <> 0 ->
  exists features,
    ImageProcessor.contour_features contourArea boundingRect image valid = Ok features
    /\ map fst features = valid.
Proof.
  intros Hrows. induction valid as [| c rest IH].
  - exists []. split; reflexivity.
  - destruct IH as (features & Hfeat & Hmap). simpl.
    unfold ImageProcessor.score.
    destruct (boundingRect c) as [[[x y] w] h].
    destruct (Z.eqb_spec (fst (shape image)) 0) as [Heq | _]; [contradiction |].
    simpl. rewrite Hfeat. simpl. eexists. split; [reflexivity |].
    simpl. rewrite Hmap. reflexivity.
Qed.

Lemma max_by_score_in (best : Contour * Q) features :
  In (ImageProcessor.max_by_score best features) (best :: features).
Proof.
  revert best. induction features as [| f rest IH]; intros best; simpl.
  - left; reflexivity.
  - destruct (Qltb (snd best) (snd f)).
    + right. apply IH.
    + destruct (IH best) as [Heq | Hin]; [left; exact Heq | right; right; exact Hin].
Qed.

(** What the detector answers on a decoded image whose contours were
    extracted: none, or the padded bounding rectangle of a contour that
    passed the area filter. *)
Lemma auto_detect_watermark_decoded fs image_path image contours :
  ImageProcessor.read_image fs image_path = Some image ->
  find_contours image = Ok contours ->
  (valid_contours image contours = [] /\
   auto_detect_watermark fs image_path = Ok None)
  \/
  (exists c, In c (valid_contours image contours) /\
     auto_detect_watermark fs image_path
     = Ok (Some (ImageProcessor.pad_region image (boundingRect c)))).
Proof.
  intros Hread Hfind. unfold ImageProcessor.auto_detect_watermark.
  rewrite Hread, Hfind. cbn [res_bind].
  destruct contours as [| c0 cs]; [left; split; reflexivity |].
  destruct (valid_contours image (c0 :: cs)) as [| first more] eqn:Hvalid;
    [left; split; reflexivity |].
  right.
  destruct (1 <? length (first :: more))%nat eqn:Hmany.
  - assert (Hrows : fst (shape image) <> 0).
    { intros Hz. rewrite (valid_contours_no_rows _ _ Hz) in Hvalid. discriminate. }
    destruct (contour_features_ok image (first :: more) Hrows)
      as (features & Hfeat & Hmap).
    rewrite Hfeat. cbn [res_bind].
    destruct features as [| f rest]; [discriminate |].
    exists (fst (ImageProcessor.max_by_score f rest)). split; [| reflexivity].
    rewrite <- Hmap. apply in_map, max_by_score_in.
  - exists first. split; [left; reflexivity | reflexivity].
Qed.

End ImageProcessorFacts.

(** C1 (the code departs from the claim). With [method = 'ns'] the batch
    operation [remove_watermark] still hands [cv2.INPAINT_TELEA] to the
    reconstruction primitive, whatever that primitive is, while
    [preview_removal] on the same image, region and configuration hands it
    [cv2.INPAINT_NS]; with a primitive that tells the two algorithms apart
    the file written by the batch differs from the preview. *)
Theorem remove_watermark_runs_telea_under_ns :
  let mask := region_mask Sample.image2x2 (0, 0, 1, 1) in
  (forall writable inpaint,
     ImageProcessor.remove_watermark writable inpaint Sample.ns_processor
       Sample.one_file "in.png" "out.png"
     = (result <~ inpaint Sample.image2x2 mask 3 INPAINT_TELEA ;;
        ImageProcessor.save_image writable Sample.one_file "out.png" result)%res
     /\ ImageProcessor.preview_removal inpaint Sample.ns_processor
          Sample.one_file "in.png"
        = inpaint Sample.image2x2 mask 3 INPAINT_NS)
  /\ (exists fs' saved shown,
        ImageProcessor.remove_watermark Sample.always_writable Sample.paint
          Sample.ns_processor Sample.one_file "in.png" "out.png" = Ok fs'
        /\ fs' !! "out.png" = Some saved
        /\ ImageProcessor.preview_removal Sample.paint Sample.ns_processor
             Sample.one_file "in.png" = Ok shown
        /\ saved <> shown).
Proof.
  split.
  - intros writable inpaint. split; reflexivity.
  - exists (<["out.png" := [[Sample.black; Sample.gray]; [Sample.gray; Sample.gray]]]>
              Sample.one_file),
      [[Sample.black; Sample.gray]; [Sample.gray; Sample.gray]],
      [[Sample.white; Sample.gray]; [Sample.gray; Sample.gray]].
    split; [reflexivity |]. split; [apply lookup_insert_eq |].
    split; [reflexivity | discriminate].
Qed.

(** C6. On a decoded frame whose contours were extracted, every contour the
    detector keeps as a candidate has an enclosed area strictly between
    0.001 and 0.2 times the frame area (measured before any padding); when
    no contour lies within these bounds the detector returns none, and any
    region it returns is the padded bounding rectangle of a contour within
    the bounds. *)
Theorem detection_candidates_within_area_bounds
    {Contour : Type} (find_contours : Frame -> res (list Contour))
    (contourArea : Contour -> Q) (boundingRect : Contour -> Region)
    (fs : gmap string Frame) (image_path : string) (image : Frame)
    (contours : list Contour) :
  ImageProcessor.read_image fs image_path = Some image ->
  find_contours image = Ok contours ->
  let frame_area := inject_Z (fst (shape image) * snd (shape image)) in
  let within c :=
    (frame_area * (1 # 1000) < contourArea c)%Q /\
    (contourArea c < frame_area * (2 # 10))%Q in
  let detect :=
    ImageProcessor.auto_detect_watermark find_contours contourArea boundingRect
      fs image_path in
  (forall c, In c (ImageProcessor.valid_contours contourArea image contours) ->
             In c contours /\ within c)
  /\ ((forall c, In c contours -> ~ within c) -> detect = Ok None)
  /\ (forall r, detect = Ok (Some r) ->
        exists c, In c contours /\ within c /\
                  r = ImageProcessor.pad_region image (boundingRect c)).
Proof.
  intros Hread Hfind frame_area within detect.
  assert (Hvalid : forall c,
    In c (ImageProcessor.valid_contours contourArea image contours) ->
    In c contours /\ within c).
  { intros c Hc. apply valid_contours_spec in Hc. exact Hc. }
  destruct (auto_detect_watermark_decoded find_contours contourArea boundingRect
              fs image_path image contours Hread Hfind)
    as [[Hnone Hans] | (c & Hc & Hans)].
  - split; [exact Hvalid |]. split; [intros _; exact Hans |].
    intros r Hr. unfold detect in Hr. rewrite Hans in Hr. discriminate.
  - split; [exact Hvalid |]. split.
    + intros Hout. exfalso. destruct (Hvalid c Hc) as [Hin Hw].
      exact (Hout c Hin Hw).
    + intros r Hr. unfold detect in Hr. rewrite Hans in Hr.
      injection Hr as <-. exists c. destruct (Hvalid c Hc) as [Hin Hw].
      split; [exact Hin |]. split; [exact Hw | reflexivity].
Qed.

Lemma detection_candidates_within_area_bounds_witness :
  let within (c : Sample.contour) :=
    (inject_Z (10 * 10) * (1 # 1000) < Sample.area c)%Q /\
    (Sample.area c < inject_Z (10 * 10) * (2 # 10))%Q in
  let detect :=
    ImageProcessor.auto_detect_watermark Sample.one_blob Sample.area Sample.rect
      Sample.big_file "in.png" in
  (forall c, In c (ImageProcessor.valid_contours Sample.area Sample.image10x10
                     [(4%Q, (3, 3, 2, 2))]) ->
             In c [(4%Q, (3, 3, 2, 2))] /\ within c)
  /\ ((forall c, In c [(4%Q, (3, 3, 2, 2))] -> ~ within c) -> detect = Ok None)
  /\ (forall r, detect = Ok (Some r) ->
        exists c, In c [(4%Q, (3, 3, 2, 2))] /\ within c /\
                  r = ImageProcessor.pad_region Sample.image10x10 (Sample.rect c)).
Proof.
  exact (detection_candidates_within_area_bounds Sample.one_blob Sample.area
           Sample.rect Sample.big_file "in.png" Sample.image10x10
           [(4%Q, (3, 3, 2, 2))] eq_refl eq_refl).
Defined.

(** C7, as claimed, fails: on a path that cannot be decoded the detector
    raises instead of returning. *)
Lemma auto_detect_watermark_raises_on_unreadable :
  ~ exists answer,
      ImageProcessor.auto_detect_watermark Sample.one_blob Sample.area Sample.rect
        ∅ "missing.png" = Ok answer.
Proof. intros [answer Hanswer]. vm_compute in Hanswer. discriminate. Qed.

(** C7, amended. When the source image cannot be decoded,
    [auto_detect_watermark] raises [ValueError]; when it decodes and the
    contour extraction succeeds, the detector returns without raising, and
    it returns none if no contour passes the area filter. *)
Theorem auto_detect_watermark_failure_modes
    {Contour : Type} (find_contours : Frame -> res (list Contour))
    (contourArea : Contour -> Q) (boundingRect : Contour -> Region)
    (fs : gmap string Frame) (image_path : string) :
  let detect :=
    ImageProcessor.auto_detect_watermark find_contours contourArea boundingRect
      fs image_path in
  (ImageProcessor.read_image fs image_path = None -> detect = Raise ValueError)
  /\ (forall image contours,
        ImageProcessor.read_image fs image_path = Some image ->
        find_contours image = Ok contours ->
        exists answer,
          detect = Ok answer /\
          (ImageProcessor.valid_contours contourArea image contours = [] ->
           answer = None)).
Proof.
  intros detect. split.
  - intros Hread. unfold detect, ImageProcessor.auto_detect_watermark.
    rewrite Hread. reflexivity.
  - intros image contours Hread Hfind.
    destruct (auto_detect_watermark_decoded find_contours contourArea boundingRect
                fs image_path image contours Hread Hfind)
      as [[Hnone Hans] | (c & Hc & Hans)].
    + exists None. split; [exact Hans | reflexivity].
    + eexists. split; [exact Hans |]. intros Hempty.
      rewrite Hempty in Hc. destruct Hc.
Qed.

Lemma auto_detect_watermark_failure_modes_witness :
  ImageProcessor.auto_detect_watermark Sample.one_blob Sample.area Sample.rect
    ∅ "missing.png" = Raise ValueError
  /\ exists answer,
       ImageProcessor.auto_detect_watermark Sample.one_blob Sample.area Sample.rect
         Sample.big_file "in.png" = Ok answer
       /\ (ImageProcessor.valid_contours Sample.area Sample.image10x10
             [(4%Q, (3, 3, 2, 2))] = [] -> answer = None).
Proof.
  split.
  - exact (proj1 (auto_detect_watermark_failure_modes Sample.one_blob Sample.area
                    Sample.rect ∅ "missing.png") eq_refl).
  - exact (proj2 (auto_detect_watermark_failure_modes Sample.one_blob Sample.area
                    Sample.rect Sample.big_file "in.png")
             Sample.image10x10 [(4%Q, (3, 3, 2, 2))] eq_refl eq_refl).
Defined.

(** ** Setting the region *)

(** C9, as claimed, fails: arguments that leave the frame are stored as
    they are. *)
Lemma set_watermark_region_keeps_out_of_frame_arguments :
  exists r,
    ImageProcessor.watermark_region
      (ImageProcessor.set_watermark_region ImageProcessor.init (-5) (-5) 10000 10000)
    = Some r
    /\ ~ region_in_frame Sample.image10x10 r.
Proof.
  exists (-5, -5, 10000, 10000). split; [reflexivity |].
  unfold region_in_frame. intros (Hx & _). lia.
Qed.

(** C9, amended. [set_watermark_region] stores its arguments unchanged
    (the video processor after [int()], which leaves integers alone) and
    does no clamping: the stored region satisfies the Region invariant for
    a frame exactly when the arguments already do. *)
Theorem set_watermark_region_stores_arguments
    (image : Frame) (ip : ImageProcessor.t) (vp : VideoProcessor.t)
    (x y w h : Z) (fx fy fw fh : Q) :
  ImageProcessor.watermark_region (ImageProcessor.set_watermark_region ip x y w h)
  = Some (x, y, w, h)
  /\ VideoProcessor.watermark_region
       (VideoProcessor.set_watermark_region vp fx fy fw fh)
     = Some (py_int fx, py_int fy, py_int fw, py_int fh)
  /\ VideoProcessor.watermark_region
       (VideoProcessor.set_watermark_region vp
          (inject_Z x) (inject_Z y) (inject_Z w) (inject_Z h))
     = Some (x, y, w, h)
  /\ (forall r,
        ImageProcessor.watermark_region
          (ImageProcessor.set_watermark_region ip x y w h) = Some r ->
        (region_in_frame image r <->
         0 <= x /\ 0 <= y /\
         x + w <= snd (shape image) /\ y + h <= fst (shape image))).
Proof.
  split; [reflexivity |]. split; [reflexivity |]. split.
  - simpl. rewrite !py_int_inject_Z. reflexivity.
  - intros r Hr. simpl in Hr. injection Hr as <-. reflexivity.
Qed.

Lemma set_watermark_region_stores_arguments_witness :
  region_in_frame Sample.image10x10 (3, 3, 2, 2) <->
  0 <= 3 /\ 0 <= 3 /\
  3 + 2 <= snd (shape Sample.image10x10) /\ 3 + 2 <= fst (shape Sample.image10x10).
Proof.
  exact (proj2 (proj2 (proj2
           (set_watermark_region_stores_arguments Sample.image10x10
              ImageProcessor.init VideoProcessor.init 3 3 2 2 0 0 0 0)))
           (3, 3, 2, 2) eq_refl).
Defined.

(** ** The video processor *)

Section VideoProcessorFacts.

Context (VideoCapture : string -> option capture).
Context (inpaint : Frame -> Mask -> Z -> InpaintFlag -> res Frame).
Context (dirname : string -> string) (join : string -> string -> string).
Context (makedirs_ok : string -> bool).
Context (ffmpeg_ok : ffmpeg_cmd -> gmap string (gmap string entry) -> bool).

Local Abbreviation process_frame := (VideoProcessor.process_frame inpaint).
Local Abbreviation frame_loop := (VideoProcessor.frame_loop inpaint).
Local Abbreviation process_video :=
  (VideoProcessor.process_video VideoCapture inpaint dirname join makedirs_ok
     ffmpeg_ok).

Lemma process_frame_total self frame :
  exists out,
    process_frame self frame = Ok out /\
    (frame = None -> out = None) /\
    (VideoProcessor.watermark_region self = None -> out = frame) /\
    (forall image region e,
       frame = Some image ->
       VideoProcessor.watermark_region self = Some region ->
       inpaint image (region_mask image region)
         (VideoProcessor.inpaint_radius self) (chosen_flag self) = Raise e ->
       out = frame) /\
    (forall image, frame = Some image -> exists image', out = Some image').
Proof.
  unfold VideoProcessor.process_frame, chosen_flag.
  destruct frame as [image |];
    [| exists None; repeat split; try reflexivity; intros; discriminate].
  destruct (VideoProcessor.watermark_region self) as [region |];
    [| exists (Some image); repeat split; try reflexivity; intros; try discriminate;
       eexists; reflexivity].
  destruct (String.eqb (VideoProcessor.method self) "telea");
    match goal with
    | |- context [inpaint ?i ?m ?r ?f] => destruct (inpaint i m r f) as [result | e0] eqn:Hcall
    end; simpl.
  all: eexists; split; [reflexivity |].
  all: split; [intros; discriminate |].
  all: split; [intros; discriminate |].
  all: split; [| intros; eexists; reflexivity].
  all: intros image0 region0 e [= <-] [= <-] Hraise; congruence.
Qed.

Lemma scratch_step_refl d w : scratch_step d w w.
Proof.
  repeat split; auto. intros es Hes. exists es. split; auto.
Qed.

Lemma scratch_step_trans d w1 w2 w3 :
  scratch_step d w1 w2 -> scratch_step d w2 w3 -> scratch_step d w1 w3.
Proof.
  intros (Hl1 & Hc1 & Ho1 & Hn1 & Hs1) (Hl2 & Hc2 & Ho2 & Hn2 & Hs2).
  repeat split.
  - congruence.
  - congruence.
  - intros d' Hd'. rewrite Ho2, Ho1; auto.
  - auto.
  - intros es Hes. destruct (Hs1 es Hes) as (es' & Hes' & Hcl).
    destruct (Hs2 es' Hes') as (es'' & Hes'' & Hcl').
    exists es''. split; auto.
Qed.

Lemma scratch_step_pushed d w v : scratch_step d w (pushed w v).
Proof.
  repeat split; simpl; auto. intros es Hes. exists es. split; auto.
Qed.

(** Writing a still keeps the directory and what can be cleared. *)
Lemma cv2_imwrite_still d name image w :
  exists w0,
    cv2_imwrite d name (Some image) w = (Normal tt, w0) /\
    delivered w0 = delivered w /\ scratch_step d w w0.
Proof.
  unfold cv2_imwrite.
  destruct (dirs w !! d) as [es |] eqn:Hdir.
  - assert (Hins : exists w0,
              (Normal tt, set_dirs w (<[d := <[name := Still image]> es]> (dirs w)))
              = (Normal tt, w0) /\
              delivered w0 = delivered w /\ scratch_step d w w0).
    { eexists. split; [reflexivity |]. split; [reflexivity |].
      repeat split; simpl.
      - intros d' Hd'. apply lookup_insert_ne. congruence.
      - intros Hnone. congruence.
      - intros es0 Hes0. rewrite Hdir in Hes0. injection Hes0 as <-.
        eexists. split; [apply lookup_insert_eq |].
        intros Hcl. apply map_Forall_insert_2; [reflexivity | exact Hcl]. }
    destruct (es !! name) as [[img0 | [|]] |]; try exact Hins.
    exists w. split; [reflexivity |]. split; [reflexivity | apply scratch_step_refl].
  - exists w. split; [reflexivity |]. split; [reflexivity | apply scratch_step_refl].
Qed.

(** One turn of the frame loop. *)
Lemma frame_loop_step self temp_dir total cb frame rest n w :
  exists w0,
    delivered w0 = delivered w /\ scratch_step temp_dir w w0 /\
    frame_loop self temp_dir total cb (frame :: rest) n w
    = match cb with
      | None => frame_loop self temp_dir total cb rest (S n) w0
      | Some sink =>
        if total =? 0 then (Throw ZeroDivisionError, w0)
        else
          let v := progress_value total (S n) in
          match sink (length (delivered w0)) v with
          | Ok true => frame_loop self temp_dir total cb rest (S n) (pushed w0 v)
          | Ok false => (Return false, pushed w0 v)
          | Raise e => (Throw e, pushed w0 v)
          end
      end.
Proof.
  destruct (process_frame_total self (Some frame))
    as (out & Hout & _ & _ & _ & Hsome).
  destruct (Hsome frame eq_refl) as (image' & ->).
  destruct (cv2_imwrite_still temp_dir (frame_name n) image' w)
    as (w0 & Hwrite & Hdel & Hstep).
  exists w0. split; [exact Hdel |]. split; [exact Hstep |].
  cbn [VideoProcessor.frame_loop]. unfold mbind at 1, M_bind at 1.
  rewrite Hout. cbn [lift_res]. unfold mret at 1, M_ret at 1.
  unfold mbind at 1, M_bind at 1. rewrite Hwrite.
  destruct cb as [sink |]; [| reflexivity].
  destruct (total =? 0); [reflexivity |].
  unfold mbind at 1, M_bind at 1, VideoProcessor.deliver, progress_value.
  fold (progress_value total (S n)).
  destruct (sink (length (delivered w0)) (progress_value total (S n)))
    as [[|] | e]; reflexivity.
Qed.

Lemma frame_loop_spec self temp_dir total cb pending :
  forall n w c w1,
    frame_loop self temp_dir total cb pending n w = (c, w1) ->
    scratch_step temp_dir w w1 /\
    exists m, (m <= length pending)%nat /\
      delivered w1 = (delivered w ++ map (progress_value total) (seq (S n) m))%list /\
      loop_verdict cb total (length (delivered w)) n (length pending) m c.
Proof.
  induction pending as [| frame rest IH]; intros n w c w1 Hrun.
  - injection Hrun as <- <-. split; [apply scratch_step_refl |].
    exists 0%nat. split; [lia |]. split; [simpl; rewrite app_nil_r; reflexivity |].
    unfold loop_verdict. destruct cb as [sink |]; [| split; reflexivity].
    split; [lia |]. split; [reflexivity | intros i Hi; lia].
  - destruct (frame_loop_step self temp_dir total cb frame rest n w)
      as (w0 & Hdel & Hstep & Heq).
    rewrite Heq in Hrun. clear Heq.
    destruct cb as [sink |].
    + destruct (Z.eqb_spec total 0) as [Hzero | Hpos].
      * injection Hrun as <- <-. split; [exact Hstep |].
        exists 0%nat. split; [lia |].
        split; [simpl; rewrite app_nil_r; exact Hdel |].
        simpl. split; [lia |]. left. repeat split; auto. lia.
      * cbv zeta in Hrun. rewrite Hdel in Hrun.
        destruct (sink (length (delivered w)) (progress_value total (S n)))
          as [[|] | e] eqn:Hans.
        -- apply IH in Hrun as (Hstep' & m & Hm & Hdel' & Hverdict).
           split.
           { eapply scratch_step_trans; [exact Hstep |].
             eapply scratch_step_trans; [apply scratch_step_pushed | exact Hstep']. }
           exists (S m). split; [simpl; lia |]. split.
           { rewrite Hdel'. simpl. rewrite Hdel, <- app_assoc. reflexivity. }
           simpl in Hverdict. rewrite Hdel, length_app in Hverdict.
           simpl in Hverdict. simpl.
           destruct Hverdict as (_ & Hverdict). split; [intros _; exact Hpos |].
           assert (Hshift : forall i,
             sink (length (delivered w) + 1 + i)%nat
                  (progress_value total (S (S n) + i))
             = sink (length (delivered w) + S i)%nat
                    (progress_value total (S n + S i))).
           { intros i. f_equal; [lia | f_equal; lia]. }
           assert (Hall : forall k,
             (forall i, (i < k)%nat ->
                sink (length (delivered w) + 1 + i)%nat
                     (progress_value total (S (S n) + i)) = Ok true) ->
             forall i, (i < S k)%nat ->
                sink (length (delivered w) + i)%nat
                     (progress_value total (S n + i)) = Ok true).
           { intros k Hk [| i] Hi.
             - rewrite !Nat.add_0_r. exact Hans.
             - rewrite <- Hshift. apply Hk. lia. }
           destruct c as [[] | v | e].
           ++ destruct Hverdict as (-> & Hk). split; [reflexivity |].
              apply Hall, Hk.
           ++ destruct Hverdict as (-> & m' & -> & Hk & Hlast).
              split; [reflexivity |]. exists (S m'). split; [reflexivity |].
              split; [apply Hall, Hk |]. rewrite <- Hshift. exact Hlast.
           ++ destruct Hverdict as [(-> & Hz & _) | (m' & -> & Hk & Hlast)];
                [contradiction |].
              right. exists (S m'). split; [reflexivity |].
              split; [apply Hall, Hk |]. rewrite <- Hshift. exact Hlast.
        -- injection Hrun as <- <-.
           split; [eapply scratch_step_trans;
                     [exact Hstep | apply scratch_step_pushed] |].
           exists 1%nat. split; [simpl; lia |].
           split; [simpl; rewrite Hdel; reflexivity |].
           simpl. split; [intros _; exact Hpos |]. split; [reflexivity |].
           exists 0%nat. split; [reflexivity |]. split; [intros i Hi; lia |].
           rewrite !Nat.add_0_r. exact Hans.
        -- injection Hrun as <- <-.
           split; [eapply scratch_step_trans;
                     [exact Hstep | apply scratch_step_pushed] |].
           exists 1%nat. split; [simpl; lia |].
           split; [simpl; rewrite Hdel; reflexivity |].
           simpl. split; [intros _; exact Hpos |]. right.
           exists 0%nat. split; [reflexivity |]. split; [intros i Hi; lia |].
           rewrite !Nat.add_0_r. exact Hans.
    + apply IH in Hrun as (Hstep' & m & Hm & Hdel' & Hverdict).
      split; [eapply scratch_step_trans; eassumption |].
      simpl in Hverdict. destruct Hverdict as (-> & ->).
      exists 0%nat. split; [lia |].
      split; [simpl in *; rewrite Hdel', Hdel; reflexivity |].
      simpl. split; reflexivity.
Qed.

Local Abbreviation remove_each d :=
  (fun file : string => ignore_errors (os_remove d file)).

Lemma remove_each_spec d name w es :
  dirs w !! d = Some es ->
  remove_each d name w = (Normal tt, set_dirs w (<[d := removed es name]> (dirs w))).
Proof.
  intros Hdir. unfold ignore_errors, try_except, os_remove, removed.
  rewrite Hdir.
  assert (Hid : set_dirs w (<[d := es]> (dirs w)) = w).
  { destruct w as [ds dl fl cb]. unfold set_dirs. simpl in *.
    rewrite insert_id; [reflexivity | exact Hdir]. }
  destruct (es !! name) as [e |]; [destruct (removable_entry e) |].
  - reflexivity.
  - rewrite Hid. reflexivity.
  - rewrite Hid. reflexivity.
Qed.

Lemma for_each_remove_spec d names :
  forall w es,
    dirs w !! d = Some es ->
    for_each names (remove_each d) w
    = (Normal tt, set_dirs w (<[d := foldl removed es names]> (dirs w))).
Proof.
  induction names as [| name rest IH]; intros w es Hdir.
  - simpl. unfold mret, M_ret. f_equal.
    destruct w as [ds dl fl cb]. unfold set_dirs. simpl in *.
    rewrite insert_id; [reflexivity | exact Hdir].
  - cbn [for_each]. unfold mbind at 1, M_bind at 1.
    rewrite (remove_each_spec d name w es Hdir).
    rewrite (IH _ (removed es name)); [| simpl; apply lookup_insert_eq].
    simpl. f_equal. unfold set_dirs. simpl. rewrite insert_insert_eq. reflexivity.
Qed.

Lemma removed_clearable es name :
  clearable es -> removed es name = delete name es /\ clearable (delete name es).
Proof.
  intros Hcl. split.
  - unfold removed. destruct (es !! name) as [e |] eqn:He.
    + rewrite (Hcl name e He). reflexivity.
    + symmetry. apply delete_id. exact He.
  - apply map_Forall_delete. exact Hcl.
Qed.

Lemma foldl_removed_all names :
  forall es,
    clearable es ->
    (forall k, is_Some (es !! k) -> k ∈ names) ->
    foldl removed es names = ∅.
Proof.
  induction names as [| name rest IH]; intros es Hcl Hkeys.
  - simpl. apply map_empty. intros k.
    destruct (es !! k) eqn:Hk; [| reflexivity].
    exfalso. eapply not_elem_of_nil. apply (Hkeys k). eauto.
  - simpl. destruct (removed_clearable es name Hcl) as [-> Hcl'].
    apply IH; [exact Hcl' |].
    intros k Hk. destruct (decide (k = name)) as [-> | Hne].
    + rewrite lookup_delete_eq in Hk. destruct Hk as [? Hk]. discriminate.
    + rewrite lookup_delete_ne in Hk by congruence.
      apply Hkeys in Hk. apply elem_of_cons in Hk as [-> | Hin]; [contradiction | exact Hin].
Qed.

(** The inner [finally]: it fails only if the directory is gone; it
    leaves the callback and ffmpeg logs alone; a directory whose entries
    can all be removed is gone afterwards. *)
Lemma cleanup_spec temp_dir w c w' :
  VideoProcessor.cleanup temp_dir w = (c, w') ->
  delivered w' = delivered w /\
  ffmpeg_log w' = ffmpeg_log w /\
  cap_bound w' = cap_bound w /\
  (forall d, d <> temp_dir -> dirs w' !! d = dirs w !! d) /\
  match dirs w !! temp_dir with
  | None => c = Throw OSError /\ w' = w
  | Some es => c = Normal tt /\ (clearable es -> dirs w' !! temp_dir = None)
  end.
Proof.
  unfold VideoProcessor.cleanup. unfold mbind at 1, M_bind at 1, os_listdir.
  destruct (dirs w !! temp_dir) as [es |] eqn:Hdir.
  - unfold mbind at 1, M_bind at 1.
    rewrite (for_each_remove_spec temp_dir _ w es Hdir).
    unfold ignore_errors, try_except, os_rmdir. simpl.
    rewrite lookup_insert_eq.
    destruct (decide (foldl removed es (map_to_list es).*1 = ∅)) as [Hempty | Hleft].
    + unfold mret, M_ret. intros [= <- <-]. simpl.
      repeat split; try reflexivity.
      * intros d Hd. rewrite lookup_delete_ne by congruence.
        apply lookup_insert_ne. congruence.
      * intros _. apply lookup_delete_eq.
    + unfold mret, M_ret. intros [= <- <-]. simpl.
      repeat split; try reflexivity.
      * intros d Hd. apply lookup_insert_ne. congruence.
      * intros Hcl. exfalso. apply Hleft. apply foldl_removed_all; [exact Hcl |].
        intros k [e Hk]. apply list_elem_of_fmap. exists (k, e).
        split; [reflexivity |]. apply elem_of_map_to_list. exact Hk.
  - intros [= <- <-]. repeat split; reflexivity.
Qed.

Local Abbreviation scratch_dir := (VideoProcessor.scratch_dir dirname join).
Local Abbreviation mux_command := (VideoProcessor.mux_command join).

Lemma process_video_not_ready self output_path cb w :
  VideoProcessor.no_path (VideoProcessor.video_path self)
  || VideoProcessor.no_region (VideoProcessor.watermark_region self) = true ->
  process_video self output_path cb w = (Ok false, set_cap_bound w false).
Proof.
  intros Hnot. unfold VideoProcessor.process_video, call,
    VideoProcessor.process_video_body. rewrite Hnot. reflexivity.
Qed.

Lemma process_video_no_scratch self output_path cb w :
  VideoProcessor.no_path (VideoProcessor.video_path self)
  || VideoProcessor.no_region (VideoProcessor.watermark_region self) = false ->
  makedirs_ok (scratch_dir output_path) = false ->
  process_video self output_path cb w
  = (Raise UnboundLocalError, set_cap_bound w false).
Proof.
  intros Hready Hmk. unfold VideoProcessor.process_video, call,
    VideoProcessor.process_video_body. rewrite Hready.
  unfold try_finally, try_except. unfold mbind at 1, M_bind at 1.
  unfold VideoProcessor.os_makedirs.
  unfold VideoProcessor.scratch_dir in Hmk. rewrite Hmk. reflexivity.
Qed.

Lemma process_video_not_opened self output_path cb w :
  VideoProcessor.no_path (VideoProcessor.video_path self)
  || VideoProcessor.no_region (VideoProcessor.watermark_region self) = false ->
  makedirs_ok (scratch_dir output_path) = true ->
  VideoCapture (default "" (VideoProcessor.video_path self)) = None ->
  process_video self output_path cb w
  = (Ok false, prepared (scratch_dir output_path) w).
Proof.
  intros Hready Hmk Hcap. unfold VideoProcessor.process_video, call,
    VideoProcessor.process_video_body. rewrite Hready.
  unfold try_finally, try_except.
  unfold mbind at 1, M_bind at 1, VideoProcessor.os_makedirs.
  unfold VideoProcessor.scratch_dir in *. rewrite Hmk.
  unfold mbind at 1, M_bind at 1, VideoProcessor.open_capture.
  unfold prepared.
  destruct (dirs (set_cap_bound w false) !! join (dirname output_path) "temp_frames")
    eqn:Hdir; simpl in Hdir; rewrite Hdir, Hcap; reflexivity.
Qed.

(** The inner [try]/[finally] around the frame loop and the mux. *)
Lemma frames_and_mux_spec self temp_dir output_path cb total pending w1 c w2 :
  frame_loop self temp_dir total cb pending 0 w1 = (c, w2) ->
  is_Some (dirs w1 !! temp_dir) ->
  let cmd := mux_command self temp_dir output_path in
  let b := run_result c (ffmpeg_ok cmd (dirs w2)) in
  exists (c_in : completion Empty_set) w4,
    try_finally
      (frame_loop self temp_dir total cb pending 0;;
       VideoProcessor.ffmpeg_run ffmpeg_ok cmd;;
       return_ true)
      (VideoProcessor.cleanup temp_dir) w1 = (c_in, w4)
    /\ (c_in = Return b \/ (b = false /\ exists e, c_in = Throw e))
    /\ delivered w4 = delivered w2
    /\ ffmpeg_log w4 = (ffmpeg_log w2 ++ run_commands c cmd)%list
    /\ cap_bound w4 = cap_bound w1
    /\ (forall d, d <> temp_dir -> dirs w4 !! d = dirs w1 !! d)
    /\ (forall es, dirs w1 !! temp_dir = Some es -> clearable es ->
          dirs w4 !! temp_dir = None).
Proof.
  intros Hloop [es1 Hes1] cmd b.
  destruct (frame_loop_spec self temp_dir total cb pending 0 w1 c w2 Hloop)
    as ((Hlog & Hcap & Hother & _ & Hsome) & m & Hm & Hdel & Hverdict).
  destruct (Hsome es1 Hes1) as (es2 & Hes2 & Hclear).
  unfold try_finally. unfold mbind at 1, M_bind at 1. rewrite Hloop.
  (* the world in which the finaliser starts, and how the body ended *)
  assert (Hfin : forall (c3 : completion Empty_set) w3,
    delivered w3 = delivered w2 ->
    ffmpeg_log w3 = (ffmpeg_log w2 ++ run_commands c cmd)%list ->
    cap_bound w3 = cap_bound w2 ->
    dirs w3 = dirs w2 ->
    (c3 = Return b \/ (b = false /\ exists e, c3 = Throw e)) ->
    exists c_in w4,
      (let '(c0, w0) := (c3, w3) in
       match VideoProcessor.cleanup temp_dir w0 with
       | (Normal _, w5) => (c0, w5)
       | (Return v, w5) => (Return v, w5)
       | (Throw e, w5) => (Throw e, w5)
       end) = (c_in, w4)
      /\ (c_in = Return b \/ (b = false /\ exists e, c_in = Throw e))
      /\ delivered w4 = delivered w2
      /\ ffmpeg_log w4 = (ffmpeg_log w2 ++ run_commands c cmd)%list
      /\ cap_bound w4 = cap_bound w1
      /\ (forall d, d <> temp_dir -> dirs w4 !! d = dirs w1 !! d)
      /\ (forall es, dirs w1 !! temp_dir = Some es -> clearable es ->
            dirs w4 !! temp_dir = None)).
  { intros c3 w3 Hd3 Hl3 Hc3 Hdirs3 Hend.
    destruct (VideoProcessor.cleanup temp_dir w3) as [f w5] eqn:Hclean.
    destruct (cleanup_spec temp_dir w3 f w5 Hclean)
      as (Hd5 & Hl5 & Hc5 & Hother5 & Hscratch).
    rewrite Hdirs3, Hes2 in Hscratch. destruct Hscratch as (-> & Hgone).
    exists c3, w5. split; [reflexivity |]. split; [exact Hend |].
    split; [congruence |]. split; [congruence |]. split; [congruence |].
    split.
    - intros d Hd. rewrite Hother5, Hdirs3 by exact Hd. apply Hother, Hd.
    - intros es Hes Hcl. rewrite Hes1 in Hes. injection Hes as <-.
      apply Hgone, Hclear, Hcl. }
  destruct c as [[] | v | e].
  - unfold mbind at 1, M_bind at 1, VideoProcessor.ffmpeg_run.
    fold cmd. destruct (ffmpeg_ok cmd (dirs w2)) eqn:Hok.
    + apply Hfin; simpl; auto.
    + apply Hfin; simpl; auto. right. subst b. simpl.
      split; [reflexivity | eexists; reflexivity].
  - apply Hfin; simpl; auto. rewrite app_nil_r; reflexivity.
  - apply Hfin; simpl; auto; [rewrite app_nil_r; reflexivity |].
    right. split; [reflexivity | eexists; reflexivity].
Qed.

(** A run whose capture opened. *)
Lemma process_video_opened self output_path cb w cap c w2 :
  VideoProcessor.no_path (VideoProcessor.video_path self)
  || VideoProcessor.no_region (VideoProcessor.watermark_region self) = false ->
  makedirs_ok (scratch_dir output_path) = true ->
  VideoCapture (default "" (VideoProcessor.video_path self)) = Some cap ->
  frame_loop self (scratch_dir output_path) (py_int (frame_count cap)) cb
    (frames cap) 0 (prepared (scratch_dir output_path) w) = (c, w2) ->
  let cmd := mux_command self (scratch_dir output_path) output_path in
  exists w4,
    process_video self output_path cb w
    = (Ok (run_result c (ffmpeg_ok cmd (dirs w2))), w4)
    /\ delivered w4 = delivered w2
    /\ ffmpeg_log w4 = (ffmpeg_log w2 ++ run_commands c cmd)%list
    /\ (forall d, d <> scratch_dir output_path ->
          dirs w4 !! d = dirs (prepared (scratch_dir output_path) w) !! d)
    /\ (forall es,
          dirs (prepared (scratch_dir output_path) w) !! scratch_dir output_path
          = Some es ->
          clearable es -> dirs w4 !! scratch_dir output_path = None).
Proof.
  intros Hready Hmk Hopen Hloop cmd.
  assert (Hdir : is_Some (dirs (prepared (scratch_dir output_path) w)
                            !! scratch_dir output_path)).
  { unfold prepared. simpl.
    destruct (dirs w !! scratch_dir output_path) eqn:Hd.
    - rewrite Hd. eauto.
    - rewrite lookup_insert_eq. eauto. }
  destruct (frames_and_mux_spec self (scratch_dir output_path) output_path cb
              (py_int (frame_count cap)) (frames cap) _ c w2 Hloop Hdir)
    as (c_in & w4 & Hinner & Hend & Hd4 & Hl4 & Hc4 & Hother & Hgone).
  exists w4.
  split; [| split; [exact Hd4 | split; [exact Hl4 | split; [exact Hother | exact Hgone]]]].
  unfold VideoProcessor.process_video, call,
    VideoProcessor.process_video_body. rewrite Hready.
  unfold try_finally at 1, try_except.
  unfold mbind at 1, M_bind at 1, VideoProcessor.os_makedirs.
  unfold VideoProcessor.scratch_dir in *. rewrite Hmk.
  unfold mbind at 1, M_bind at 1, VideoProcessor.open_capture.
  assert (Hprep : forall es0 : option (gmap string entry),
    es0 = dirs w !! join (dirname output_path) "temp_frames" ->
    set_cap_bound
      (match es0 with
       | Some _ => set_cap_bound w false
       | None => set_dirs (set_cap_bound w false)
                   (<[join (dirname output_path) "temp_frames" := ∅]>
                      (dirs (set_cap_bound w false)))
       end) true
    = prepared (join (dirname output_path) "temp_frames") w).
  { intros es0 ->. unfold prepared.
    destruct (dirs w !! join (dirname output_path) "temp_frames"); reflexivity. }
  simpl dirs at 1.
  destruct (dirs w !! join (dirname output_path) "temp_frames") as [es0 |] eqn:Hd0.
  all: rewrite Hopen.
  all: first [ rewrite (Hprep (Some es0) eq_refl) | rewrite (Hprep None eq_refl) ].
  all: rewrite Hinner.
  all: unfold VideoProcessor.release_cap.
  all: destruct Hend as [-> | (Hb & e & ->)]; unfold return_.
  all: rewrite Hc4; simpl; try reflexivity.
  all: fold cmd; unfold cmd; rewrite Hb; reflexivity.
Qed.

(** The four ways a call of [process_video] can go. *)
Lemma process_video_cases self output_path cb w :
  let path := default "" (VideoProcessor.video_path self) in
  let d := scratch_dir output_path in
  let cmd := mux_command self d output_path in
  let run := process_video self output_path cb w in
  (run = (Ok false, set_cap_bound w false))
  \/ (makedirs_ok d = false /\ run = (Raise UnboundLocalError, set_cap_bound w false))
  \/ (VideoCapture path = None /\ makedirs_ok d = true /\
      run = (Ok false, prepared d w))
  \/ (exists cap c w2 w4 m,
        VideoCapture path = Some cap /\ makedirs_ok d = true /\
        frame_loop self d (py_int (frame_count cap)) cb (frames cap) 0
          (prepared d w) = (c, w2) /\
        run = (Ok (run_result c (ffmpeg_ok cmd (dirs w2))), w4) /\
        (m <= length (frames cap))%nat /\
        delivered w4
        = (delivered w
           ++ map (progress_value (py_int (frame_count cap))) (seq 1 m))%list /\
        loop_verdict cb (py_int (frame_count cap)) (length (delivered w)) 0
          (length (frames cap)) m c /\
        ffmpeg_log w4 = (ffmpeg_log w ++ run_commands c cmd)%list /\
        (forall d', d' <> d -> dirs w4 !! d' = dirs w !! d') /\
        (dirs w !! d = None -> dirs w4 !! d = None)).
Proof.
  intros path d cmd run. subst run cmd path d.
  set (d := scratch_dir output_path).
  destruct (VideoProcessor.no_path (VideoProcessor.video_path self)
            || VideoProcessor.no_region (VideoProcessor.watermark_region self))
    eqn:Hready.
  { left. apply process_video_not_ready, Hready. }
  destruct (makedirs_ok d) eqn:Hmk.
  2: { right; left. split; [reflexivity |].
       apply process_video_no_scratch; assumption. }
  destruct (VideoCapture (default "" (VideoProcessor.video_path self)))
    as [cap |] eqn:Hopen.
  2: { right; right; left. split; [reflexivity |]. split; [reflexivity |].
       apply process_video_not_opened; assumption. }
  right; right; right.
  destruct (frame_loop self d (py_int (frame_count cap)) cb (frames cap) 0
              (prepared d w)) as [c w2] eqn:Hloop.
  destruct (process_video_opened self output_path cb w cap c w2
              Hready Hmk Hopen Hloop)
    as (w4 & Hrun & Hd4 & Hl4 & Hother & Hgone).
  destruct (frame_loop_spec self d (py_int (frame_count cap)) cb (frames cap)
              0 (prepared d w) c w2 Hloop)
    as ((Hlog & _ & _ & _ & _) & m & Hm & Hdel & Hverdict).
  exists cap, c, w2, w4, m.
  split; [reflexivity |]. split; [reflexivity |]. split; [exact Hloop |].
  split; [exact Hrun |]. split; [exact Hm |].
  split; [rewrite Hd4, Hdel; reflexivity |].
  split; [exact Hverdict |].
  split; [rewrite Hl4, Hlog; reflexivity |].
  split.
  - intros d' Hd'. rewrite (Hother d' Hd'). unfold prepared. cbn [dirs].
    fold d. destruct (dirs w !! d); [reflexivity |].
    apply lookup_insert_ne. congruence.
  - intros Hfresh. apply (Hgone ∅).
    + unfold prepared. cbn [dirs]. fold d. rewrite Hfresh. apply lookup_insert_eq.
    + apply map_Forall_empty.
Qed.

Lemma run_result_true cb total base n len m c mux_ok :
  loop_verdict cb total base n len m c ->
  run_result c mux_ok = true ->
  c = Normal tt /\ mux_ok = true.
Proof.
  intros Hverdict Htrue. destruct c as [[] | v | e]; simpl in Htrue.
  - split; [reflexivity | exact Htrue].
  - exfalso. subst v. unfold loop_verdict in Hverdict.
    destruct cb as [sink |].
    + destruct Hverdict as (_ & Hv & _). discriminate.
    + destruct Hverdict as (_ & Hc). discriminate.
  - discriminate.
Qed.

(** When the capture opens and the scratch directory is new, it is gone
    after the run, however the run ends. *)
Lemma process_video_removes_scratch_dir_after_open self output_path cb w cap :
  VideoCapture (default "" (VideoProcessor.video_path self)) = Some cap ->
  dirs w !! scratch_dir output_path = None ->
  dirs (snd (process_video self output_path cb w)) !! scratch_dir output_path
  = None.
Proof.
  intros Hopen Hfresh.
  destruct (process_video_cases self output_path cb w)
    as [Hrun | [(_ & Hrun) | [(Hnone & _) | Hrun]]].
  - rewrite Hrun. exact Hfresh.
  - rewrite Hrun. exact Hfresh.
  - congruence.
  - destruct Hrun as (cap' & c & w2 & w4 & m & _ & _ & _ & Hrun & _ & _ & _ & _ & _ & Hgone).
    rewrite Hrun. apply Hgone, Hfresh.
Qed.

(** C3 (the code departs from the claim). When the source cannot be
    opened for decoding, [process_video] has already created the scratch
    directory and returns [False] before the block whose [finally] does
    the cleanup: the directory created for the run is still there, empty,
    after the call. *)
Theorem process_video_leaves_scratch_dir_when_open_fails
    self output_path cb w :
  VideoProcessor.no_path (VideoProcessor.video_path self) = false ->
  VideoProcessor.no_region (VideoProcessor.watermark_region self) = false ->
  makedirs_ok (scratch_dir output_path) = true ->
  VideoCapture (default "" (VideoProcessor.video_path self)) = None ->
  dirs w !! scratch_dir output_path = None ->
  fst (process_video self output_path cb w) = Ok false /\
  dirs (snd (process_video self output_path cb w)) !! scratch_dir output_path
  = Some ∅.
Proof.
  intros Hpath Hregion Hmk Hopen Hfresh.
  rewrite process_video_not_opened; [| rewrite Hpath, Hregion; reflexivity | exact Hmk | exact Hopen].
  split; [reflexivity |]. unfold prepared. simpl. rewrite Hfresh.
  apply lookup_insert_eq.
Qed.

(** The frame rate used for the mux is the truncated rate of the source. *)
Lemma load_video_truncates_fps self path cap :
  VideoCapture path = Some cap ->
  VideoProcessor.fps (fst (VideoProcessor.load_video VideoCapture self path))
  = py_int (cap_fps cap).
Proof. intros Hopen. simpl. rewrite Hopen. reflexivity. Qed.

(** C2 (the code departs from the claim). In every successful run ffmpeg
    is run once, on a command whose only input is the sequence of stills
    in the scratch directory, at the frame rate stored by [load_video];
    the source video is not among the inputs, so the audio codec option
    [copy] has no audio stream to copy. *)
Theorem mux_reads_only_the_stills self output_path cb w :
  fst (process_video self output_path cb w) = Ok true ->
  let cmd := mux_command self (scratch_dir output_path) output_path in
  ffmpeg_log (snd (process_video self output_path cb w))
  = (ffmpeg_log w ++ [cmd])%list
  /\ cmd_inputs cmd
     = [{| in_filename := join (scratch_dir output_path) "frame_%06d.jpg";
           in_framerate := VideoProcessor.fps self |}]
  /\ acodec cmd = "copy".
Proof.
  intros Htrue cmd.
  split; [| split; reflexivity].
  destruct (process_video_cases self output_path cb w)
    as [Hrun | [(_ & Hrun) | [(_ & _ & Hrun) | Hrun]]];
    try (rewrite Hrun in Htrue; discriminate).
  destruct Hrun as (cap & c & w2 & w4 & m & _ & _ & _ & Hrun & _ & _ & Hverdict & Hlog & _).
  rewrite Hrun in Htrue |- *. simpl in Htrue |- *.
  injection Htrue as Htrue.
  destruct (run_result_true _ _ _ _ _ _ _ _ Hverdict Htrue) as [-> _].
  exact Hlog.
Qed.

(** *** Progress values *)

Lemma progress_value_mono total i j :
  0 < total -> (i <= j)%nat ->
  (progress_value total i <= progress_value total j)%Q.
Proof.
  intros Htotal Hij. unfold progress_value.
  destruct total as [| p | p]; try lia.
  unfold Qle, Qdiv, Qmult, Qinv, inject_Z. simpl. nia.
Qed.

Lemma progress_value_pos total k :
  0 < total -> (1 <= k)%nat -> (0 < progress_value total k)%Q.
Proof.
  intros Htotal Hk. unfold progress_value.
  destruct total as [| p | p]; try lia.
  unfold Qlt, Qdiv, Qmult, Qinv, inject_Z. simpl. nia.
Qed.

Lemma progress_value_le_100 total k :
  0 < total -> Z.of_nat k <= total -> (progress_value total k <= 100)%Q.
Proof.
  intros Htotal Hk. unfold progress_value.
  destruct total as [| p | p]; try lia.
  unfold Qle, Qdiv, Qmult, Qinv, inject_Z. simpl. nia.
Qed.

Lemma progress_value_full total k :
  0 < total -> Z.of_nat k = total -> (progress_value total k == 100)%Q.
Proof.
  intros Htotal Hk. unfold progress_value.
  destruct total as [| p | p]; try lia.
  unfold Qeq, Qdiv, Qmult, Qinv, inject_Z. simpl. nia.
Qed.

Lemma app_tail_neq {A} (l more : list A) (x : A) : l <> (l ++ more ++ [x])%list.
Proof.
  intros Heq. apply (f_equal (@length A)) in Heq.
  rewrite !length_app in Heq. simpl in Heq. lia.
Qed.

(** C8, amended. With [N] the frame count the container reports and [F]
    the number of frames the capture delivers, the values handed to the
    callback in a run are [k / N * 100] for [k = 1 .. m] with [m <= F].
    If [N] is positive they are positive and non-decreasing; if moreover
    [F <= N] none exceeds 100; and if [F = N], a callback is given and the
    run succeeds, all [F] values are delivered and the last one is 100. *)
Theorem progress_values_follow_reported_frame_count self output_path cb w :
  let source := VideoCapture (default "" (VideoProcessor.video_path self)) in
  let reported :=
    match source with Some cap => py_int (frame_count cap) | None => 0 end in
  let decoded :=
    match source with Some cap => length (frames cap) | None => 0%nat end in
  let run := process_video self output_path cb w in
  exists m,
    (m <= decoded)%nat /\
    delivered (snd run)
    = (delivered w ++ map (progress_value reported) (seq 1 m))%list /\
    (0 < reported ->
     forall i j, (1 <= i)%nat -> (i <= j)%nat ->
       (0 < progress_value reported i)%Q /\
       (progress_value reported i <= progress_value reported j)%Q) /\
    (0 < reported -> Z.of_nat decoded <= reported ->
     forall k, (k <= m)%nat -> (progress_value reported k <= 100)%Q) /\
    (0 < reported -> Z.of_nat decoded = reported ->
     fst run = Ok true -> cb <> None ->
     m = decoded /\ (progress_value reported m == 100)%Q).
Proof.
  intros source reported decoded run.
  assert (Hvalues :
    (0 < reported ->
     forall i j, (1 <= i)%nat -> (i <= j)%nat ->
       (0 < progress_value reported i)%Q /\
       (progress_value reported i <= progress_value reported j)%Q)).
  { intros Hpos i j Hi Hij. split.
    - apply progress_value_pos; assumption.
    - apply progress_value_mono; assumption. }
  assert (Hnone : forall w',
    run = (Ok false, w') \/ run = (Raise UnboundLocalError, w') ->
    delivered w' = delivered w ->
    exists m,
      (m <= decoded)%nat /\
      delivered (snd run)
      = (delivered w ++ map (progress_value reported) (seq 1 m))%list /\
      (0 < reported ->
       forall i j, (1 <= i)%nat -> (i <= j)%nat ->
         (0 < progress_value reported i)%Q /\
         (progress_value reported i <= progress_value reported j)%Q) /\
      (0 < reported -> Z.of_nat decoded <= reported ->
       forall k, (k <= m)%nat -> (progress_value reported k <= 100)%Q) /\
      (0 < reported -> Z.of_nat decoded = reported ->
       fst run = Ok true -> cb <> None ->
       m = decoded /\ (progress_value reported m == 100)%Q)).
  { intros w' Hrun Hdel. exists 0%nat. split; [lia |].
    split; [destruct Hrun as [-> | ->]; simpl; rewrite app_nil_r; exact Hdel |].
    split; [exact Hvalues |]. split.
    - intros Hpos Hle k Hk. apply progress_value_le_100; lia.
    - intros _ _ Htrue. destruct Hrun as [Hrun | Hrun];
        rewrite Hrun in Htrue; discriminate. }
  destruct (process_video_cases self output_path cb w)
    as [Hrun | [(_ & Hrun) | [(_ & _ & Hrun) | Hrun]]].
  - apply (Hnone _ (or_introl Hrun)). reflexivity.
  - apply (Hnone _ (or_intror Hrun)). reflexivity.
  - apply (Hnone _ (or_introl Hrun)). reflexivity.
  - destruct Hrun as (cap & c & w2 & w4 & m & Hopen & _ & _ & Hrun & Hm & Hdel
                      & Hverdict & _).
    subst reported decoded source run. rewrite Hopen in *.
    exists m. split; [exact Hm |].
    split; [rewrite Hrun; exact Hdel |].
    split; [exact Hvalues |]. split.
    + intros Hpos Hle k Hk. apply progress_value_le_100; lia.
    + intros Hpos Hsame Htrue Hcb. rewrite Hrun in Htrue.
      simpl in Htrue. injection Htrue as Htrue.
      destruct (run_result_true _ _ _ _ _ _ _ _ Hverdict Htrue) as [-> _].
      destruct cb as [sink |]; [| contradiction].
      simpl in Hverdict. destruct Hverdict as (_ & -> & _).
      split; [reflexivity |]. apply progress_value_full; assumption.
Qed.

(** C4, amended. [process_video] returns [True] only if the capture
    opened, the frame loop ran through every frame the capture delivered
    without the sink asking to stop, and ffmpeg ran once and succeeded.
    A run the sink stopped and a run whose mux failed both return
    [False]: the returned value is the same and does not tell them
    apart. *)
Theorem process_video_result_is_one_flag self output_path cb w :
  let d := scratch_dir output_path in
  let cmd := mux_command self d output_path in
  let run := process_video self output_path cb w in
  (fst run = Ok true ->
     exists cap w2,
       VideoCapture (default "" (VideoProcessor.video_path self)) = Some cap /\
       frame_loop self d (py_int (frame_count cap)) cb (frames cap) 0
         (prepared d w) = (Normal tt, w2) /\
       ffmpeg_ok cmd (dirs w2) = true /\
       ffmpeg_log (snd run) = (ffmpeg_log w ++ [cmd])%list /\
       (forall sink, cb = Some sink ->
          delivered (snd run)
          = (delivered w
             ++ map (progress_value (py_int (frame_count cap)))
                  (seq 1 (length (frames cap))))%list /\
          forall i, (i < length (frames cap))%nat ->
            sink (length (delivered w) + i)%nat
              (progress_value (py_int (frame_count cap)) (S i)) = Ok true))
  /\ (forall sink vs v,
        cb = Some sink ->
        delivered (snd run) = (delivered w ++ vs ++ [v])%list ->
        sink (length (delivered w) + length vs)%nat v = Ok false ->
        fst run = Ok false)
  /\ ((forall disk, ffmpeg_ok cmd disk = false) ->
       ffmpeg_log (snd run) = (ffmpeg_log w ++ [cmd])%list ->
       fst run = Ok false).
Proof.
  intros d cmd run. subst run.
  destruct (process_video_cases self output_path cb w)
    as [Hrun | [(_ & Hrun) | [(_ & _ & Hrun) | Hrun]]].
  1-3: rewrite Hrun; simpl.
  1-3: split; [intros; discriminate |].
  1-3: split; [intros sink vs v _ Hdel _; exfalso; exact (app_tail_neq _ _ _ Hdel) |].
  1-3: intros _ Hlog; exfalso; exact (app_tail_neq _ [] _ Hlog).
  destruct Hrun as (cap & c & w2 & w4 & m & Hopen & _ & Hloop & Hrun & Hm & Hdel
                    & Hverdict & Hlog & _).
  fold d in Hloop, Hrun, Hlog. fold cmd in Hrun, Hlog.
  rewrite Hrun. simpl. split; [| split].
  - intros [= Htrue].
    destruct (run_result_true _ _ _ _ _ _ _ _ Hverdict Htrue) as [-> Hok].
    exists cap, w2. split; [exact Hopen |]. split; [exact Hloop |].
    split; [exact Hok |]. split; [exact Hlog |].
    intros sink ->. simpl in Hverdict. destruct Hverdict as (_ & -> & Hall).
    split; [exact Hdel | exact Hall].
  - intros sink vs v -> Hdel' Hstop. f_equal.
    destruct c as [[] | v0 | e]; simpl.
    + exfalso. simpl in Hverdict. destruct Hverdict as (_ & -> & Hall).
      rewrite Hdel in Hdel'. apply app_inv_head in Hdel'.
      destruct (frames cap) as [| f0 fs0] using rev_ind;
        [simpl in Hdel'; destruct vs; discriminate |].
      rewrite length_app in Hdel', Hall. simpl in Hdel', Hall.
      rewrite Nat.add_1_r, seq_S, map_app in Hdel'. simpl in Hdel'.
      apply app_inj_tail in Hdel' as [Hvs Hv].
      assert (Hlen : length vs = length fs0).
      { rewrite <- Hvs, length_map, length_seq. reflexivity. }
      specialize (Hall (length fs0)). rewrite Hlen, <- Hv in Hstop.
      rewrite Hall in Hstop by lia. discriminate.
    + simpl in Hverdict. destruct Hverdict as (_ & -> & _). reflexivity.
    + reflexivity.
  - intros Hfail _. f_equal. rewrite Hfail.
    destruct c as [[] | v0 | e]; simpl; try reflexivity.
    unfold loop_verdict in Hverdict. destruct cb as [sink |].
    + destruct Hverdict as (_ & -> & _). reflexivity.
    + destruct Hverdict as (_ & Hc). discriminate.
Qed.

(** *** Reconstruction failures in a run *)

Lemma process_frame_passthrough self frame :
  VideoProcessor.process_frame (passthrough inpaint) self frame
  = process_frame self frame.
Proof.
  unfold VideoProcessor.process_frame, passthrough.
  destruct frame as [image |]; [| reflexivity].
  destruct (VideoProcessor.watermark_region self) as [region |]; [| reflexivity].
  destruct (String.eqb (VideoProcessor.method self) "telea");
    match goal with
    | |- context [inpaint ?i ?m ?r ?f] => destruct (inpaint i m r f)
    end; reflexivity.
Qed.

Lemma M_bind_ext {A B} (m : M A) (k1 k2 : A -> M B) w :
  (forall a w', k1 a w' = k2 a w') -> (m ≫= k1) w = (m ≫= k2) w.
Proof.
  intros Hk. unfold mbind, M_bind. destruct (m w) as [[a | v | e] w'];
    [apply Hk | reflexivity | reflexivity].
Qed.

Lemma M_bind_ext_l {A B} (m1 m2 : M A) (k : A -> M B) w :
  m1 w = m2 w -> (m1 ≫= k) w = (m2 ≫= k) w.
Proof. intros Hm. unfold mbind, M_bind. rewrite Hm. reflexivity. Qed.

Lemma try_finally_ext {A} (body1 body2 : M A) fin w :
  body1 w = body2 w -> try_finally body1 fin w = try_finally body2 fin w.
Proof. intros Hbody. unfold try_finally. rewrite Hbody. reflexivity. Qed.

Lemma try_except_ext {A} (body1 body2 : M A) handler w :
  body1 w = body2 w -> try_except body1 handler w = try_except body2 handler w.
Proof. intros Hbody. unfold try_except. rewrite Hbody. reflexivity. Qed.

Lemma frame_loop_passthrough self temp_dir total cb pending :
  forall n w,
    VideoProcessor.frame_loop (passthrough inpaint) self temp_dir total cb
      pending n w
    = frame_loop self temp_dir total cb pending n w.
Proof.
  induction pending as [| frame rest IH]; intros n w; [reflexivity |].
  cbn [VideoProcessor.frame_loop]. rewrite process_frame_passthrough.
  apply M_bind_ext. intros processed w0.
  apply M_bind_ext. intros [] w1. cbv zeta.
  destruct cb as [sink |]; [| apply IH].
  destruct (total =? 0); [reflexivity |].
  apply M_bind_ext. intros [|] w2; [apply IH | reflexivity].
Qed.

Lemma process_video_passthrough self output_path cb w :
  VideoProcessor.process_video VideoCapture (passthrough inpaint) dirname join
    makedirs_ok ffmpeg_ok self output_path cb w
  = process_video self output_path cb w.
Proof.
  unfold VideoProcessor.process_video, call. 
  match goal with
  | |- match ?b1 ?w0 with _ => _ end = match ?b2 ?w0 with _ => _ end =>
    assert (Hbody : b1 w0 = b2 w0); [| rewrite Hbody; reflexivity]
  end.
  unfold VideoProcessor.process_video_body.
  destruct (VideoProcessor.no_path (VideoProcessor.video_path self)
            || VideoProcessor.no_region (VideoProcessor.watermark_region self));
    [reflexivity |].
  apply try_finally_ext, try_except_ext.
  apply M_bind_ext. intros [] w0.
  apply M_bind_ext. intros [cap |] w1; [| reflexivity].
  apply try_finally_ext, M_bind_ext_l, frame_loop_passthrough.
Qed.

(** C10. [process_frame] always returns: the frame it was given when the
    frame is None, when no region is set, or when the reconstruction
    raises; a frame in every case where one was given. A video run in
    which reconstructions fail is therefore the run in which those
    reconstructions had handed the frame back unchanged: it is not
    aborted, and the still written is the input frame. *)
Theorem process_frame_never_raises self frame :
  (exists out,
     process_frame self frame = Ok out /\
     (frame = None -> out = None) /\
     (VideoProcessor.watermark_region self = None -> out = frame) /\
     (forall image region e,
        frame = Some image ->
        VideoProcessor.watermark_region self = Some region ->
        inpaint image (region_mask image region)
          (VideoProcessor.inpaint_radius self) (chosen_flag self) = Raise e ->
        out = frame))
  /\ (forall output_path cb w,
        process_video self output_path cb w
        = VideoProcessor.process_video VideoCapture (passthrough inpaint)
            dirname join makedirs_ok ffmpeg_ok self output_path cb w).
Proof.
  split.
  - destruct (process_frame_total self frame)
      as (out & Hout & Hnone & Hregion & Hraise & _).
    exists out. repeat split; assumption.
  - intros output_path cb w. symmetry. apply process_video_passthrough.
Qed.

End VideoProcessorFacts.

(** *** The properties on the runs of the examples *)

Lemma mux_reads_only_the_stills_witness :
  let cmd := VideoProcessor.mux_command Posix.join Sample.loaded
               "/v/temp_frames" "/v/out.mp4" in
  ffmpeg_log (snd (Sample.run (Sample.one_video 2) Sample.paint
                     Sample.ffmpeg_works (Some Sample.keep_going)))
  = [cmd]
  /\ cmd_inputs cmd
     = [{| in_filename := "/v/temp_frames/frame_%06d.jpg"; in_framerate := 25 |}]
  /\ acodec cmd = "copy".
Proof.
  apply (mux_reads_only_the_stills (Sample.one_video 2) Sample.paint
           Posix.dirname Posix.join Sample.can_mkdir Sample.ffmpeg_works
           Sample.loaded "/v/out.mp4" (Some Sample.keep_going) Sample.empty_world).
  vm_compute. reflexivity.
Defined.

Lemma process_video_leaves_scratch_dir_when_open_fails_witness :
  fst (Sample.run Sample.no_video Sample.paint Sample.ffmpeg_works
         (Some Sample.keep_going)) = Ok false
  /\ dirs (snd (Sample.run Sample.no_video Sample.paint Sample.ffmpeg_works
                  (Some Sample.keep_going))) !! "/v/temp_frames" = Some ∅.
Proof.
  apply (process_video_leaves_scratch_dir_when_open_fails Sample.no_video
           Sample.paint Posix.dirname Posix.join Sample.can_mkdir
           Sample.ffmpeg_works Sample.loaded "/v/out.mp4"
           (Some Sample.keep_going) Sample.empty_world); reflexivity.
Defined.

(** C4, as claimed, fails: a run stopped by the sink after its first frame
    and a run whose mux fails return the same value. *)
Lemma cancelled_and_failed_runs_return_the_same :
  let cancelled := Sample.run (Sample.one_video 2) Sample.paint
                     Sample.ffmpeg_works (Some Sample.stop_at_once) in
  let failed := Sample.run (Sample.one_video 2) Sample.paint
                  Sample.ffmpeg_fails (Some Sample.keep_going) in
  fst cancelled = Ok false /\ ffmpeg_log (snd cancelled) = [] /\
  fst failed = Ok false /\ length (ffmpeg_log (snd failed)) = 1%nat /\
  ~ fst cancelled <> fst failed.
Proof.
  vm_compute. repeat split; try reflexivity. intros Hne. apply Hne. reflexivity.
Qed.

Lemma process_video_result_is_one_flag_witness :
  (exists cap w2,
     Sample.one_video 2 "/v/in.mp4" = Some cap /\
     VideoProcessor.frame_loop Sample.paint Sample.loaded "/v/temp_frames"
       (py_int (frame_count cap)) (Some Sample.keep_going) (frames cap) 0
       (prepared "/v/temp_frames" Sample.empty_world) = (Normal tt, w2))
  /\ fst (Sample.run (Sample.one_video 2) Sample.paint Sample.ffmpeg_works
            (Some Sample.stop_at_once)) = Ok false
  /\ fst (Sample.run (Sample.one_video 2) Sample.paint Sample.ffmpeg_fails
            (Some Sample.keep_going)) = Ok false.
Proof.
  split; [| split].
  - destruct (proj1 (process_video_result_is_one_flag (Sample.one_video 2)
                       Sample.paint Posix.dirname Posix.join Sample.can_mkdir
                       Sample.ffmpeg_works Sample.loaded "/v/out.mp4"
                       (Some Sample.keep_going) Sample.empty_world))
      as (cap & w2 & Hopen & Hloop & _).
    + vm_compute. reflexivity.
    + exists cap, w2. split; [exact Hopen | exact Hloop].
  - apply (proj1 (proj2 (process_video_result_is_one_flag (Sample.one_video 2)
                           Sample.paint Posix.dirname Posix.join Sample.can_mkdir
                           Sample.ffmpeg_works Sample.loaded "/v/out.mp4"
                           (Some Sample.stop_at_once) Sample.empty_world))
             Sample.stop_at_once [] (progress_value 2 1));
      [reflexivity | vm_compute; reflexivity | reflexivity].
  - apply (proj2 (proj2 (process_video_result_is_one_flag (Sample.one_video 2)
                           Sample.paint Posix.dirname Posix.join Sample.can_mkdir
                           Sample.ffmpeg_fails Sample.loaded "/v/out.mp4"
                           (Some Sample.keep_going) Sample.empty_world)));
      [reflexivity | vm_compute; reflexivity].
Defined.

(** C8, as claimed, fails: a two-frame clip whose container reports one
    frame is processed to the end, and the callback receives 100 and then
    200. *)
Lemma progress_exceeds_100_when_container_undercounts :
  let run := Sample.run (Sample.one_video 1) Sample.paint Sample.ffmpeg_works
               (Some Sample.keep_going) in
  fst run = Ok true /\
  ~ (forall v, In v (delivered (snd run)) -> (0 <= v)%Q /\ (v <= 100)%Q).
Proof.
  split; [vm_compute; reflexivity |].
  intros Hall. destruct (Hall (200 # 1)%Q) as [_ Hle].
  - vm_compute. right. left. reflexivity.
  - unfold Qle in Hle. simpl in Hle. lia.
Qed.

Lemma progress_values_follow_reported_frame_count_witness :
  exists m,
    (m <= 2)%nat /\
    delivered (snd (Sample.run (Sample.one_video 2) Sample.paint
                      Sample.ffmpeg_works (Some Sample.keep_going)))
    = map (progress_value 2) (seq 1 m) /\
    ((0 < progress_value 2 1)%Q /\
     (progress_value 2 1 <= progress_value 2 2)%Q) /\
    (progress_value 2 m <= 100)%Q /\
    m = 2%nat /\ (progress_value 2 m == 100)%Q.
Proof.
  destruct (progress_values_follow_reported_frame_count (Sample.one_video 2)
              Sample.paint Posix.dirname Posix.join Sample.can_mkdir
              Sample.ffmpeg_works Sample.loaded "/v/out.mp4"
              (Some Sample.keep_going) Sample.empty_world)
    as (m & Hm & Hdel & Hmono & Hle & Hlast).
  exists m. split; [exact Hm |]. split; [exact Hdel |].
  split; [apply Hmono; [reflexivity | lia | lia] |].
  split; [apply Hle; [reflexivity | vm_compute; discriminate | lia] |].
  apply Hlast; [reflexivity | reflexivity | vm_compute; reflexivity | discriminate].
Defined.

Lemma process_frame_never_raises_witness :
  exists out,
    VideoProcessor.process_frame Sample.broken Sample.loaded (Some Sample.image2x2)
    = Ok out
    /\ out = Some Sample.image2x2.
Proof.
  destruct (proj1 (process_frame_never_raises Sample.no_video Sample.broken
                     Posix.dirname Posix.join Sample.can_mkdir Sample.ffmpeg_works
                     Sample.loaded (Some Sample.image2x2)))
    as (out & Hout & _ & _ & Hraise).
  exists out. split; [exact Hout |].
  apply (Hraise Sample.image2x2 (0, 0, 1, 1) Cv2Error); reflexivity.
Defined.

(** ** Preview geometry *)

Lemma py_int_nonneg (v : Q) : (0 <= v)%Q -> py_int v = Qfloor v.
Proof.
  intros Hv. unfold py_int.
  destruct (Qle_bool 0 v) eqn:Hb; [reflexivity |].
  apply Qle_bool_iff in Hv. congruence.
Qed.

Lemma py_int_comp (a b : Q) : (a == b)%Q -> py_int a = py_int b.
Proof.
  intros Hab. unfold py_int.
  assert (Hb : Qle_bool 0 a = Qle_bool 0 b).
  { destruct (Qle_bool 0 a) eqn:Ha; destruct (Qle_bool 0 b) eqn:Hb'; try reflexivity.
    - apply Qle_bool_iff in Ha. rewrite Hab in Ha. apply Qle_bool_iff in Ha. congruence.
    - apply Qle_bool_iff in Hb'. rewrite <- Hab in Hb'. apply Qle_bool_iff in Hb'. congruence. }
  rewrite Hb. destruct (Qle_bool 0 b).
  - apply Qfloor_comp, Hab.
  - apply Qceiling_comp, Hab.
Qed.

Lemma floor_bounds (v : Q) :
  (inject_Z (Qfloor v) <= v)%Q /\ (v < inject_Z (Qfloor v) + 1)%Q.
Proof.
  split; [apply Qfloor_le |].
  pose proof (Qlt_floor v) as H. rewrite inject_Z_plus in H. exact H.
Qed.

Lemma floor_nonneg (v : Q) : (0 <= v)%Q -> 0 <= Qfloor v.
Proof.
  intros Hv. change 0 with (Qfloor 0). apply Qfloor_resp_le, Hv.
Qed.

Lemma axis_roundtrip (W : Z) (s : Q) (a : Z) :
  0 < W -> (0 < s)%Q -> 0 <= a <= W ->
  let pw := py_int (inject_Z W * s) in
  let d := py_int (inject_Z a * (inject_Z pw / inject_Z W)) in
  let v := (inject_Z d / s)%Q in
  (0 <= v)%Q /\ (v <= inject_Z a)%Q /\ ((inject_Z a - v) * s < 2)%Q.
Proof.
  intros HW Hs Ha pw d v.
  assert (HWq : (0 < inject_Z W)%Q)
    by (change 0%Q with (inject_Z 0); rewrite <- Zlt_Qlt; exact HW).
  assert (Haq : (0 <= inject_Z a)%Q /\ (inject_Z a <= inject_Z W)%Q).
  { split; [change 0%Q with (inject_Z 0) |]; rewrite <- Zle_Qle; lia. }
  assert (Hws : (0 <= inject_Z W * s)%Q) by nra.
  assert (Hpw : pw = Qfloor (inject_Z W * s)) by (apply py_int_nonneg, Hws).
  destruct (floor_bounds (inject_Z W * s)) as [Hpw1 Hpw2].
  pose proof (floor_nonneg _ Hws) as Hpw0.
  rewrite <- Hpw in Hpw1, Hpw2, Hpw0.
  assert (Hpw0q : (0 <= inject_Z pw)%Q) by (change 0%Q with (inject_Z 0); rewrite <- Zle_Qle; exact Hpw0).
  set (t := (inject_Z a * (inject_Z pw / inject_Z W))%Q) in *.
  assert (HtW : (t * inject_Z W == inject_Z a * inject_Z pw)%Q).
  { unfold t. field. lra. }
  assert (Ht0 : (0 <= t)%Q) by nra.
  assert (Hd : d = Qfloor t) by (apply py_int_nonneg, Ht0).
  destruct (floor_bounds t) as [Hd1 Hd2].
  pose proof (floor_nonneg _ Ht0) as Hd0.
  rewrite <- Hd in Hd1, Hd2, Hd0.
  assert (Hd0q : (0 <= inject_Z d)%Q) by (change 0%Q with (inject_Z 0); rewrite <- Zle_Qle; exact Hd0).
  assert (Hvs : (v * s == inject_Z d)%Q).
  { unfold v. field. lra. }
  clearbody t v pw d.
  set (A := inject_Z a) in *. set (Wq := inject_Z W) in *.
  set (P := inject_Z pw) in *. set (D := inject_Z d) in *.
  clearbody A Wq P D.
  assert (H1 : (A * P <= A * (Wq * s))%Q) by nra.
  assert (H2 : (t * Wq <= (A * s) * Wq)%Q) by lra.
  assert (H3 : (t <= A * s)%Q) by (apply (Qmult_le_r _ _ Wq); assumption).
  assert (H4 : (v * s <= A * s)%Q) by lra.
  assert (H5 : (v <= A)%Q) by (apply (Qmult_le_r _ _ s); assumption).
  assert (H6 : (0 * s <= v * s)%Q) by lra.
  assert (H7 : (0 <= v)%Q) by (apply (Qmult_le_r _ _ s); assumption).
  assert (H8 : (A * (Wq * s) - A * P <= A)%Q) by nra.
  assert (H9 : ((A * s - t) * Wq <= 1 * Wq)%Q) by lra.
  assert (H10 : (A * s - t <= 1)%Q) by (apply (Qmult_le_r _ _ Wq); assumption).
  repeat split; lra.
Qed.

Lemma clamp_inside (v bound : Q) :
  (0 <= v)%Q -> (v <= bound)%Q -> (py_max 0 (py_min v bound) == v)%Q.
Proof.
  intros Hv Hb. unfold py_max, py_min.
  destruct (Qlt_le_dec bound v) as [Hbv | _]; [exfalso; lra |].
  destruct (Qlt_le_dec 0 v) as [_ | Hv0]; [reflexivity | lra].
Qed.

Lemma min_keeps_extent (v room : Q) : (v <= room)%Q -> py_min v room = v.
Proof.
  intros Hle. unfold py_min.
  destruct (Qlt_le_dec room v) as [Hlt | _]; [exfalso; lra | reflexivity].
Qed.

(** One coordinate after clamping and truncation. *)
Lemma axis_result (s : Q) (a : Z) (v c : Q) :
  (0 < s)%Q -> (0 <= v)%Q -> (v <= inject_Z a)%Q ->
  ((inject_Z a - v) * s < 2)%Q -> (c == v)%Q ->
  lost s a (py_int c) /\ ((2 <= s)%Q -> Z.abs (py_int c - a) <= 1).
Proof.
  intros Hs Hv Hva Hloss Hc.
  rewrite (py_int_comp c v Hc), (py_int_nonneg v Hv).
  destruct (floor_bounds v) as [Hf1 Hf2].
  assert (Hle : Qfloor v <= a) by (rewrite Zle_Qle; lra).
  assert (Hshort : (inject_Z a - v < 2 / s)%Q)
    by (apply Qlt_shift_div_l; assumption).
  assert (Hlost : (inject_Z (a - Qfloor v) < 1 + 2 / s)%Q).
  { unfold Z.sub. rewrite inject_Z_plus, inject_Z_opp. lra. }
  split; [split; assumption |].
  intros Hbig.
  assert (Hsmall : (2 / s <= 1)%Q) by (apply Qle_shift_div_r; lra).
  assert (Hlt : (inject_Z (a - Qfloor v) < inject_Z 2)%Q)
    by (change (inject_Z 2) with 2%Q; lra).
  rewrite <- Zlt_Qlt in Hlt. lia.
Qed.

(** C5, as claimed, fails: on a preview at scale 1/4 the region
    (7, 7, 7, 7) is displayed as (1, 1, 1, 1) and comes back as
    (4, 4, 4, 4), three pixels off in every component. *)
Lemma roundtrip_loses_three_pixels_at_quarter_scale :
  region_in_size (ImageLabel.original_size Sample.small_preview) (7, 7, 7, 7) /\
  roundtrip Sample.small_preview (7, 7, 7, 7)
  = Ok (Some {| rect_x := 4; rect_y := 4; rect_width := 4; rect_height := 4 |}) /\
  ~ (exists q, roundtrip Sample.small_preview (7, 7, 7, 7) = Ok (Some q) /\
               within 1 (7, 7, 7, 7) q).
Proof.
  split; [vm_compute; repeat split; discriminate |].
  split; [vm_compute; reflexivity |].
  intros (q & Hq & Hwithin). vm_compute in Hq. injection Hq as <-.
  unfold within in Hwithin. simpl in Hwithin. lia.
Qed.

(** C5, amended. For a preview whose pixmap has the size [set_image] gives
    it at a positive scale factor [s], whatever the pixmap offset, and a
    native region with non-negative sides inside the image whose displayed
    rectangle is not null: mapping the region to display coordinates and
    back with [get_scaled_rect] yields a rectangle none of whose x, y,
    width, height exceeds the original, and each falls short of it by less
    than [1 + 2 / s] pixels; in particular by at most 1 pixel when
    [s >= 2]. *)
Theorem roundtrip_error_bounded_by_scale
    (label : ImageLabel.t) (r : Region) (pixmap_rect sel : QRect) :
  let s := ImageLabel.scale_factor label in
  0 < fst (ImageLabel.original_size label) ->
  0 < snd (ImageLabel.original_size label) ->
  (0 < s)%Q ->
  ImageLabel.pixmap label
  = Some (ImageLabel.scaled_size (ImageLabel.original_size label) s) ->
  region_in_size (ImageLabel.original_size label) r ->
  ImageLabel.get_pixmap_rect label = Some pixmap_rect ->
  isNull pixmap_rect = false ->
  ImageLabel.selection (shown label r) = Some sel ->
  isNull sel = false ->
  exists q,
    roundtrip label r = Ok (Some q) /\
    let '(x, y, w, h) := r in
    lost s x (rect_x q) /\ lost s y (rect_y q) /\
    lost s w (rect_width q) /\ lost s h (rect_height q) /\
    ((2 <= s)%Q -> within 1 r q).
Proof.
  destruct label as [sel0 s [W H] pm [lw lh]].
  destruct r as [[[x y] w] h].
  cbn [ImageLabel.scale_factor ImageLabel.original_size ImageLabel.pixmap fst snd].
  intros HW HH Hs Hpm (Hx & Hy & Hw & Hh & Hxw & Hyh) Hrect Hnull Hsel Hselnull.
  cbn [fst snd] in Hxw, Hyh.
  subst pm.
  unfold roundtrip. unfold shown in *. unfold MainWindow.detect_watermark in *.
  rewrite Hrect, Hnull in *.
  cbn [ImageLabel.original_size] in *.
  destruct (Z.eqb_spec W 0) as [? | _]; [lia |].
  destruct (Z.eqb_spec H 0) as [? | _]; [lia |].
  cbn [orb] in *.
  unfold ImageLabel.set_selection in *.
  cbn [ImageLabel.selection ImageLabel.scale_factor ImageLabel.original_size
       ImageLabel.pixmap ImageLabel.size] in *.
  injection Hsel as <-.
  unfold ImageLabel.get_scaled_rect.
  cbn [ImageLabel.selection ImageLabel.scale_factor ImageLabel.original_size
       ImageLabel.pixmap ImageLabel.size].
  rewrite Hselnull.
  unfold ImageLabel.get_pixmap_rect in *.
  cbn [ImageLabel.selection ImageLabel.scale_factor ImageLabel.original_size
       ImageLabel.pixmap ImageLabel.size ImageLabel.scaled_size fst snd] in *.
  injection Hrect as <-.
  rewrite Hnull.
  cbn [rect_x rect_y rect_width rect_height] in *.
  rewrite !Z.add_simpl_r.
  destruct (Qeq_bool s 0) eqn:Hzero; [apply Qeq_bool_eq in Hzero; lra |].
  eexists. split; [reflexivity |].
  cbn [rect_x rect_y rect_width rect_height].
  assert (HxW : (inject_Z x <= inject_Z W)%Q) by (rewrite <- Zle_Qle; lia).
  assert (HyH : (inject_Z y <= inject_Z H)%Q) by (rewrite <- Zle_Qle; lia).
  assert (HxwW : (inject_Z x + inject_Z w <= inject_Z W)%Q)
    by (rewrite <- inject_Z_plus, <- Zle_Qle; exact Hxw).
  assert (HyhH : (inject_Z y + inject_Z h <= inject_Z H)%Q)
    by (rewrite <- inject_Z_plus, <- Zle_Qle; exact Hyh).
  destruct (axis_roundtrip W s x HW Hs ltac:(lia)) as (Hx0 & Hx1 & Hx2).
  destruct (axis_roundtrip H s y HH Hs ltac:(lia)) as (Hy0 & Hy1 & Hy2).
  destruct (axis_roundtrip W s w HW Hs ltac:(lia)) as (Hw0 & Hw1 & Hw2).
  destruct (axis_roundtrip H s h HH Hs ltac:(lia)) as (Hh0 & Hh1 & Hh2).
  cbv zeta in Hx0, Hx1, Hx2, Hy0, Hy1, Hy2, Hw0, Hw1, Hw2, Hh0, Hh1, Hh2.
  set (vx := (inject_Z (py_int (inject_Z x * _)) / s)%Q) in *.
  set (vy := (inject_Z (py_int (inject_Z y * _)) / s)%Q) in *.
  set (vw := (inject_Z (py_int (inject_Z w * _)) / s)%Q) in *.
  set (vh := (inject_Z (py_int (inject_Z h * _)) / s)%Q) in *.
  assert (Hcx : (py_max 0 (py_min vx (inject_Z W)) == vx)%Q)
    by (apply clamp_inside; lra).
  assert (Hcy : (py_max 0 (py_min vy (inject_Z H)) == vy)%Q)
    by (apply clamp_inside; lra).
  rewrite (min_keeps_extent vw) by lra.
  rewrite (min_keeps_extent vh) by lra.
  destruct (axis_result s x vx _ Hs Hx0 Hx1 Hx2 Hcx) as [Hlx Hnx].
  destruct (axis_result s y vy _ Hs Hy0 Hy1 Hy2 Hcy) as [Hly Hny].
  destruct (axis_result s w vw vw Hs Hw0 Hw1 Hw2 (Qeq_refl _)) as [Hlw Hnw].
  destruct (axis_result s h vh vh Hs Hh0 Hh1 Hh2 (Qeq_refl _)) as [Hlh Hnh].
  split; [exact Hlx |]. split; [exact Hly |]. split; [exact Hlw |].
  split; [exact Hlh |].
  intros Hbig. unfold within. cbn [rect_x rect_y rect_width rect_height].
  auto.
Qed.


Lemma roundtrip_error_bounded_by_scale_witness :
  exists q,
    roundtrip Sample.large_preview (7, 7, 7, 7) = Ok (Some q) /\
    within 1 (7, 7, 7, 7) q.
Proof.
  destruct (roundtrip_error_bounded_by_scale Sample.large_preview (7, 7, 7, 7)
              {| rect_x := 0; rect_y := 0; rect_width := 200; rect_height := 200 |}
              {| rect_x := 14; rect_y := 14; rect_width := 14; rect_height := 14 |})
    as (q & Hq & _ & _ & _ & _ & Hwithin).
  - reflexivity.
  - reflexivity.
  - reflexivity.
  - reflexivity.
  - vm_compute. repeat split; discriminate.
  - reflexivity.
  - reflexivity.
  - reflexivity.
  - reflexivity.
  - exists q. split; [exact Hq |]. apply Hwithin. vm_compute. discriminate.
Defined.

(** * Further properties of the code *)

(** ** The detector *)

Lemma pad_region_in_frame (image : Frame) (rect : Region) :
  region_in_frame image (ImageProcessor.pad_region image rect).
Proof.
  destruct rect as [[[x y] w] h]. unfold ImageProcessor.pad_region, region_in_frame.
  lia.
Qed.

Section DetectorFacts.

Context {Contour : Type}.
Context (find_contours : Frame -> res (list Contour)).
Context (contourArea : Contour -> Q).
Context (boundingRect : Contour -> Region).

Local Abbreviation detect :=
  (ImageProcessor.auto_detect_watermark find_contours contourArea boundingRect).
Local Abbreviation contour_score :=
  (ImageProcessor.score contourArea boundingRect).

(** X1. Whatever OpenCV reports as contours and bounding rectangles, a
    region returned by [auto_detect_watermark] lies inside the image it was
    detected on: 0 <= x, 0 <= y, x + w <= width and y + h <= height. *)
Theorem detected_region_lies_in_frame fs image_path r :
  detect fs image_path = Ok (Some r) ->
  exists image,
    ImageProcessor.read_image fs image_path = Some image /\
    region_in_frame image r.
Proof.
  intros Hdetect.
  destruct (ImageProcessor.read_image fs image_path) as [image |] eqn:Hread.
  2: { unfold ImageProcessor.auto_detect_watermark in Hdetect.
       rewrite Hread in Hdetect. discriminate. }
  exists image. split; [reflexivity |].
  destruct (find_contours image) as [contours | e] eqn:Hfind.
  2: { unfold ImageProcessor.auto_detect_watermark in Hdetect.
       rewrite Hread, Hfind in Hdetect. discriminate. }
  destruct (auto_detect_watermark_decoded find_contours contourArea boundingRect
              fs image_path image contours Hread Hfind)
    as [[_ Hnone] | (c & _ & Hsome)].
  - rewrite Hnone in Hdetect. discriminate.
  - rewrite Hsome in Hdetect. injection Hdetect as <-. apply pad_region_in_frame.
Qed.

Lemma contour_features_scores image valid features :
  ImageProcessor.contour_features contourArea boundingRect image valid = Ok features ->
  map fst features = valid /\
  forall c s, In (c, s) features -> contour_score image c = Ok s.
Proof.
  revert features. induction valid as [| c0 rest IH]; intros features Hfeat.
  - injection Hfeat as <-. split; [reflexivity | intros c s []].
  - cbn [ImageProcessor.contour_features] in Hfeat.
    destruct (contour_score image c0) as [s0 |] eqn:Hs0; [| discriminate].
    cbn [res_bind] in Hfeat.
    destruct (ImageProcessor.contour_features contourArea boundingRect image rest)
      as [features0 |]; [| discriminate].
    cbn [res_bind] in Hfeat. injection Hfeat as <-.
    destruct (IH features0 eq_refl) as [Hmap Hscores].
    split; [simpl; rewrite Hmap; reflexivity |].
    intros c s [[= <- <-] | Hin]; [exact Hs0 | apply Hscores, Hin].
Qed.

Lemma max_by_score_is_max (best : Contour * Q) features f :
  In f (best :: features) ->
  (snd f <= snd (ImageProcessor.max_by_score best features))%Q.
Proof.
  revert best f. induction features as [| g rest IH]; intros best f Hin.
  - destruct Hin as [<- | []]. apply Qle_refl.
  - cbn [ImageProcessor.max_by_score].
    destruct (Qltb (snd best) (snd g)) eqn:Hlt.
    + apply Qltb_true in Hlt.
      destruct Hin as [<- | [<- | Hin]].
      * apply Qle_trans with (snd g); [apply Qlt_le_weak, Hlt |].
        apply IH. left. reflexivity.
      * apply IH. left. reflexivity.
      * apply IH. right. exact Hin.
    + assert (Hge : (snd g <= snd best)%Q).
      { unfold Qltb in Hlt. destruct (Qlt_le_dec (snd best) (snd g)); [discriminate | assumption]. }
      destruct Hin as [<- | [<- | Hin]].
      * apply IH. left. reflexivity.
      * apply Qle_trans with (snd best); [exact Hge |]. apply IH. left. reflexivity.
      * apply IH. right. exact Hin.
Qed.

(** X2. When more than one contour passes the area filter, the region
    returned is the padded bounding rectangle of a contour whose score
    (solidity weighted by the closeness of its centre to the horizontal
    midline) is at least the score of every other contour that passed. *)
Theorem detector_picks_a_best_scored_contour fs image_path image contours :
  ImageProcessor.read_image fs image_path = Some image ->
  find_contours image = Ok contours ->
  (1 < length (ImageProcessor.valid_contours contourArea image contours))%nat ->
  exists c s,
    In c (ImageProcessor.valid_contours contourArea image contours) /\
    contour_score image c = Ok s /\
    detect fs image_path
    = Ok (Some (ImageProcessor.pad_region image (boundingRect c))) /\
    forall c', In c' (ImageProcessor.valid_contours contourArea image contours) ->
      exists s', contour_score image c' = Ok s' /\ (s' <= s)%Q.
Proof.
  intros Hread Hfind Hmany.
  unfold ImageProcessor.auto_detect_watermark. rewrite Hread, Hfind.
  cbn [res_bind].
  destruct contours as [| c0 cs]; [simpl in Hmany; lia |].
  destruct (ImageProcessor.valid_contours contourArea image (c0 :: cs))
    as [| first more] eqn:Hvalid; [simpl in Hmany; lia |].
  assert (Hrows : fst (shape image) <> 0).
  { intros Hz.
    rewrite (valid_contours_no_rows contourArea image (c0 :: cs) Hz) in Hvalid.
    discriminate. }
  destruct (contour_features_ok contourArea boundingRect image (first :: more) Hrows)
    as (features & Hfeat & Hmap).
  destruct (contour_features_scores image (first :: more) features Hfeat)
    as [_ Hscores].
  apply Nat.ltb_lt in Hmany. rewrite Hmany, Hfeat. cbn [res_bind].
  destruct features as [| f rest]; [discriminate |].
  set (best := ImageProcessor.max_by_score f rest).
  assert (Hbest : In best (f :: rest)) by apply max_by_score_in.
  exists (fst best), (snd best).
  split; [rewrite <- Hmap; apply in_map, Hbest |].
  split; [apply Hscores; destruct best; exact Hbest |].
  split; [reflexivity |].
  intros c' Hc'. rewrite <- Hmap in Hc'. apply in_map_iff in Hc' as ([c'' s'] & <- & Hin).
  exists s'. split; [apply Hscores, Hin |].
  apply (max_by_score_is_max f rest (c'', s') Hin).
Qed.

End DetectorFacts.

(** X3. The padding step never shrinks a bounding rectangle that lies in
    the image: the padded region contains it, reaches at most 5 pixels
    further left and up, at most 10 pixels further right and down (5 when
    the rectangle starts at least 5 pixels from the left or top edge), and
    has non-negative width and height. *)
Theorem pad_region_contains_rect (image : Frame) (x y w h : Z) :
  0 <= w -> 0 <= h -> region_in_frame image (x, y, w, h) ->
  let '(x', y', w', h') := ImageProcessor.pad_region image (x, y, w, h) in
  x - 5 <= x' <= x /\ y - 5 <= y' <= y /\
  x + w <= x' + w' <= x + w + 10 /\ y + h <= y' + h' <= y + h + 10 /\
  (5 <= x -> x' + w' <= x + w + 5) /\ (5 <= y -> y' + h' <= y + h + 5) /\
  0 <= w' /\ 0 <= h'.
Proof.
  intros Hw Hh (Hx & Hy & Hxw & Hyh).
  unfold ImageProcessor.pad_region. cbv zeta. lia.
Qed.

(** ** The mask *)

Lemma lookup_repeat {A} (a : A) (n i : nat) :
  (i < n)%nat -> repeat a n !! i = Some a.
Proof.
  revert i. induction n as [| n IH]; intros i Hi; [lia |].
  destruct i as [| i]; [reflexivity |]. simpl. apply IH. lia.
Qed.

Lemma in_slice_nonneg (n start stop k : Z) :
  0 <= start -> 0 <= stop -> 0 <= k < n ->
  in_slice n start stop k = (start <=? k) && (k <? stop).
Proof.
  intros Hstart Hstop Hk. unfold in_slice, slice_index.
  destruct (Z.ltb_spec start 0); [lia |].
  destruct (Z.ltb_spec stop 0); [lia |].
  destruct (Z.leb_spec (Z.min start n) k), (Z.leb_spec start k),
    (Z.ltb_spec k (Z.min stop n)), (Z.ltb_spec k stop); try reflexivity; lia.
Qed.

(** X4. For a region with non-negative origin and sides, the mask handed
    to the reconstruction has the height and width of the frame, and its
    entry at row i, column j is 255 exactly when (j, i) lies in the region
    (y <= i < y + h and x <= j < x + w) and 0 otherwise: a region that
    overhangs the frame is clipped, nothing outside it is marked. *)
Theorem region_mask_marks_the_region (image : Frame) (x y w h : Z) (i j : nat) :
  0 <= x -> 0 <= y -> 0 <= w -> 0 <= h ->
  Z.of_nat i < fst (shape image) ->
  Z.of_nat j < snd (shape image) ->
  Z.of_nat (length (region_mask image (x, y, w, h))) = fst (shape image) /\
  (exists row,
     region_mask image (x, y, w, h) !! i = Some row /\
     Z.of_nat (length row) = snd (shape image) /\
     row !! j
     = Some (if (y <=? Z.of_nat i) && (Z.of_nat i <? y + h)
                && ((x <=? Z.of_nat j) && (Z.of_nat j <? x + w))
             then 255 else 0)).
Proof.
  intros Hx Hy Hw Hh Hi Hj.
  unfold region_mask, assign_rect, np_zeros.
  set (rows := fst (shape image)) in *. set (cols := snd (shape image)) in *.
  assert (Hrows : length (repeat (repeat 0 (Z.to_nat cols)) (Z.to_nat rows))
                  = Z.to_nat rows) by apply repeat_length.
  split; [rewrite length_imap, Hrows; lia |].
  eexists. split.
  { etrans; [apply list_lookup_imap |]. rewrite lookup_repeat by lia. simpl. reflexivity. }
  rewrite Hrows, repeat_length, !Z2Nat.id by lia.
  rewrite (in_slice_nonneg rows y (y + h)) by lia.
  destruct ((y <=? Z.of_nat i) && (Z.of_nat i <? y + h)) eqn:Hrow.
  - split; [rewrite length_imap, repeat_length; lia |].
    rewrite list_lookup_imap, lookup_repeat by lia. simpl.
    rewrite (in_slice_nonneg cols x (x + w)) by lia. reflexivity.
  - split; [rewrite repeat_length; lia |].
    rewrite lookup_repeat by lia. reflexivity.
Qed.

(** ** Batch output and preview *)

(** X5. With [method = 'telea'], [remove_watermark] succeeds exactly when
    [preview_removal] does and the output can be saved, and then the file
    it writes is the frame the preview returns; no other file changes. *)
Theorem remove_watermark_saves_the_preview
    (writable : string -> bool)
    (inpaint : Frame -> Mask -> Z -> InpaintFlag -> res Frame)
    (self : ImageProcessor.t) (fs : gmap string Frame)
    (input_path output_path : string) :
  ImageProcessor.method self = "telea" ->
  (forall shown,
     ImageProcessor.preview_removal inpaint self fs input_path = Ok shown ->
     writable output_path = true ->
     ImageProcessor.remove_watermark writable inpaint self fs input_path output_path
     = Ok (<[output_path := shown]> fs))
  /\ (forall fs',
        ImageProcessor.remove_watermark writable inpaint self fs input_path
          output_path = Ok fs' ->
        exists shown,
          ImageProcessor.preview_removal inpaint self fs input_path = Ok shown /\
          writable output_path = true /\
          fs' = <[output_path := shown]> fs /\
          forall other, other <> output_path -> fs' !! other = fs !! other).
Proof.
  intros Hmethod.
  unfold ImageProcessor.remove_watermark, ImageProcessor.preview_removal,
    ImageProcessor.save_image.
  rewrite Hmethod. cbn [String.eqb].
  destruct (ImageProcessor.watermark_region self) as [region |];
    [| split; [intros shown Hshown; discriminate | intros fs' Hfs'; discriminate]].
  destruct (ImageProcessor.read_image fs input_path) as [image |];
    [| split; [intros shown Hshown; discriminate | intros fs' Hfs'; discriminate]].
  change (String.eqb "telea" "telea") with true. cbv iota.
  destruct (inpaint image (region_mask image region)
              (ImageProcessor.inpaint_radius self) INPAINT_TELEA) as [result | e];
    cbn [res_bind].
  - split.
    + intros shown [= <-] ->. reflexivity.
    + intros fs' Hfs'. destruct (writable output_path); [| discriminate].
      injection Hfs' as <-. exists result.
      split; [reflexivity |]. split; [reflexivity |]. split; [reflexivity |].
      intros other Hother. apply lookup_insert_ne. congruence.
  - split; [intros shown Hshown; discriminate | intros fs' Hfs'; discriminate].
Qed.

(** ** Truncation and scaling *)

Lemma inject_Z_nonneg (z : Z) : 0 <= z -> (0 <= inject_Z z)%Q.
Proof. intros Hz. change 0%Q with (inject_Z 0). rewrite <- Zle_Qle. exact Hz. Qed.

Lemma inject_Z_pos (z : Z) : 0 < z -> (0 < inject_Z z)%Q.
Proof. intros Hz. change 0%Q with (inject_Z 0). rewrite <- Zlt_Qlt. exact Hz. Qed.

(** [int(v)] never passes an integer that bounds [v]. *)
Lemma py_int_le (v : Q) (k : Z) : (v <= inject_Z k)%Q -> py_int v <= k.
Proof.
  intros Hv. unfold py_int. destruct (Qle_bool 0 v).
  - rewrite <- (Qfloor_Z k). apply Qfloor_resp_le, Hv.
  - rewrite <- (Qceiling_Z k). apply Qceiling_resp_le, Hv.
Qed.

Lemma py_int_ge (v : Q) (k : Z) : (inject_Z k <= v)%Q -> k <= py_int v.
Proof.
  intros Hv. unfold py_int. destruct (Qle_bool 0 v).
  - rewrite <- (Qfloor_Z k). apply Qfloor_resp_le, Hv.
  - rewrite <- (Qceiling_Z k). apply Qceiling_resp_le, Hv.
Qed.

Lemma py_int_below (v : Q) : (0 <= v)%Q -> (inject_Z (py_int v) <= v)%Q.
Proof. intros Hv. rewrite (py_int_nonneg v Hv). apply Qfloor_le. Qed.

Lemma py_min_le_l (a b : Q) : (py_min a b <= a)%Q.
Proof. unfold py_min. destruct (Qlt_le_dec b a); lra. Qed.

Lemma py_min_le_r (a b : Q) : (py_min a b <= b)%Q.
Proof. unfold py_min. destruct (Qlt_le_dec b a); lra. Qed.

Lemma py_min_glb (a b c : Q) : (c <= a)%Q -> (c <= b)%Q -> (c <= py_min a b)%Q.
Proof. intros Ha Hb. unfold py_min. destruct (Qlt_le_dec b a); assumption. Qed.

Lemma clamp_range (v bound : Q) :
  (0 <= bound)%Q ->
  (0 <= py_max 0 (py_min v bound))%Q /\ (py_max 0 (py_min v bound) <= bound)%Q.
Proof.
  intros Hb. pose proof (py_min_le_r v bound) as Hmin. unfold py_max.
  destruct (Qlt_le_dec 0 (py_min v bound)); split; lra.
Qed.

(** Two adjacent extents scaled by [n / d] and truncated still fit in [n]
    when they fit in [d]. *)
Lemma scaled_pair_fits (a b n d : Z) :
  0 <= a -> 0 <= b -> a + b <= d -> 0 < d -> 0 <= n ->
  let k := (inject_Z n / inject_Z d)%Q in
  0 <= py_int (inject_Z a * k) /\ 0 <= py_int (inject_Z b * k) /\
  py_int (inject_Z a * k) + py_int (inject_Z b * k) <= n.
Proof.
  intros Ha Hb Hab Hd Hn k.
  pose proof (inject_Z_nonneg a Ha) as Haq. pose proof (inject_Z_nonneg b Hb) as Hbq.
  pose proof (inject_Z_pos d Hd) as Hdq. pose proof (inject_Z_nonneg n Hn) as Hnq.
  assert (Habq : (inject_Z a + inject_Z b <= inject_Z d)%Q)
    by (rewrite <- inject_Z_plus, <- Zle_Qle; exact Hab).
  assert (Hkd : (k * inject_Z d == inject_Z n)%Q) by (unfold k; field; lra).
  assert (Hk : (0 <= k)%Q).
  { apply (Qmult_le_r _ _ (inject_Z d)); [exact Hdq | lra]. }
  assert (Hak : (0 <= inject_Z a * k)%Q) by nra.
  assert (Hbk : (0 <= inject_Z b * k)%Q) by nra.
  split; [apply py_int_ge, Hak |]. split; [apply py_int_ge, Hbk |].
  pose proof (py_int_below _ Hak) as Hfa. pose proof (py_int_below _ Hbk) as Hfb.
  assert (Hsum : ((inject_Z a + inject_Z b) * k <= inject_Z d * k)%Q) by nra.
  rewrite Zle_Qle, inject_Z_plus. lra.
Qed.

(** ** Preview geometry of the image window *)

(** X6. Whatever the selection, the pixmap offset and the non-zero scale
    factor, the rectangle [get_scaled_rect] returns satisfies the Region
    invariant of the original image: 0 <= x <= width, 0 <= y <= height,
    x + w <= width and y + h <= height; for a positive scale factor and a
    selection with non-negative sides its width and height are
    non-negative too. *)
Theorem get_scaled_rect_is_clamped (label : ImageLabel.t) (q : QRect) :
  ImageLabel.get_scaled_rect label = Ok (Some q) ->
  0 <= fst (ImageLabel.original_size label) ->
  0 <= snd (ImageLabel.original_size label) ->
  (0 <= rect_x q <= fst (ImageLabel.original_size label) /\
   0 <= rect_y q <= snd (ImageLabel.original_size label) /\
   rect_x q + rect_width q <= fst (ImageLabel.original_size label) /\
   rect_y q + rect_height q <= snd (ImageLabel.original_size label))
  /\ ((0 < ImageLabel.scale_factor label)%Q ->
      (forall sel, ImageLabel.selection label = Some sel ->
                   0 <= rect_width sel /\ 0 <= rect_height sel) ->
      0 <= rect_width q /\ 0 <= rect_height q).
Proof.
  destruct label as [sel0 s [W H] pm size0].
  unfold ImageLabel.get_scaled_rect.
  cbn [ImageLabel.selection ImageLabel.pixmap ImageLabel.scale_factor
       ImageLabel.original_size fst snd].
  intros Hq HW HH.
  destruct sel0 as [sel |]; [| discriminate].
  destruct pm as [pm |]; [| discriminate].
  destruct (isNull sel); [discriminate |].
  destruct (ImageLabel.get_pixmap_rect _) as [pr |]; [| discriminate].
  destruct (isNull pr); [discriminate |].
  destruct (Qeq_bool s 0); [discriminate |].
  injection Hq as <-. cbn [rect_x rect_y rect_width rect_height].
  pose proof (inject_Z_nonneg W HW) as HWq. pose proof (inject_Z_nonneg H HH) as HHq.
  set (xc := py_max 0 (py_min (inject_Z (rect_x sel - rect_x pr) / s) (inject_Z W))).
  set (yc := py_max 0 (py_min (inject_Z (rect_y sel - rect_y pr) / s) (inject_Z H))).
  destruct (clamp_range (inject_Z (rect_x sel - rect_x pr) / s) (inject_Z W) HWq)
    as [Hx0 Hx1].
  destruct (clamp_range (inject_Z (rect_y sel - rect_y pr) / s) (inject_Z H) HHq)
    as [Hy0 Hy1].
  fold xc in Hx0, Hx1. fold yc in Hy0, Hy1.
  set (wc := py_min (inject_Z (rect_width sel) / s) (inject_Z W - xc)).
  set (hc := py_min (inject_Z (rect_height sel) / s) (inject_Z H - yc)).
  pose proof (py_min_le_r (inject_Z (rect_width sel) / s) (inject_Z W - xc)) as Hw1.
  pose proof (py_min_le_r (inject_Z (rect_height sel) / s) (inject_Z H - yc)) as Hh1.
  fold wc in Hw1. fold hc in Hh1.
  pose proof (py_int_below xc Hx0) as Hxb. pose proof (py_int_below yc Hy0) as Hyb.
  assert (Hsum : forall c room e : Q,
            (0 <= c)%Q -> (inject_Z (py_int c) <= c)%Q -> (e <= room - c)%Q ->
            (0 <= room - c)%Q ->
            (inject_Z (py_int c) + inject_Z (py_int e) <= room)%Q).
  { intros c room e Hc Hcb He Hroom.
    destruct (Qlt_le_dec e 0) as [Hneg | Hpos].
    - assert (py_int e <= 0) by (apply py_int_le; change (inject_Z 0) with 0%Q; lra).
      assert ((inject_Z (py_int e) <= 0)%Q)
        by (change 0%Q with (inject_Z 0); rewrite <- Zle_Qle; assumption).
      lra.
    - pose proof (py_int_below e Hpos). lra. }
  split.
  - split; [split; [apply py_int_ge, Hx0 | apply py_int_le, Hx1] |].
    split; [split; [apply py_int_ge, Hy0 | apply py_int_le, Hy1] |].
    split; rewrite Zle_Qle, inject_Z_plus; apply Hsum; try assumption; lra.
  - intros Hs Hsides. destruct (Hsides sel eq_refl) as [Hsw Hsh].
    assert (Hdiv : forall z : Z, 0 <= z -> (0 <= inject_Z z / s)%Q).
    { intros z Hz. apply Qle_shift_div_l; [exact Hs |].
      pose proof (inject_Z_nonneg z Hz). lra. }
    split; apply py_int_ge; change (inject_Z 0) with 0%Q; apply py_min_glb;
      try (apply Hdiv; assumption); lra.
Qed.

(** X7. The size [scale_image] asks the image to be resized to never
    exceeds the label: for an image with positive sides and a label with
    non-negative sides, 0 <= new width <= label width and
    0 <= new height <= label height. *)
Theorem scale_image_fits_the_label (label_size image_size : Z * Z) :
  0 < fst image_size -> 0 < snd image_size ->
  0 <= fst label_size -> 0 <= snd label_size ->
  let new_size :=
    ImageLabel.scaled_size image_size
      (ImageLabel.scale_image_factor label_size image_size) in
  0 <= fst new_size <= fst label_size /\ 0 <= snd new_size <= snd label_size.
Proof.
  destruct label_size as [lw lh], image_size as [W H]. cbn [fst snd].
  intros HW HH Hlw Hlh.
  unfold ImageLabel.scaled_size, ImageLabel.scale_image_factor. cbn [fst snd].
  pose proof (inject_Z_pos W HW) as HWq. pose proof (inject_Z_pos H HH) as HHq.
  pose proof (inject_Z_nonneg lw Hlw) as Hlwq.
  pose proof (inject_Z_nonneg lh Hlh) as Hlhq.
  set (rw := (inject_Z lw / inject_Z W)%Q). set (rh := (inject_Z lh / inject_Z H)%Q).
  assert (Hrw : (rw * inject_Z W == inject_Z lw)%Q) by (unfold rw; field; lra).
  assert (Hrh : (rh * inject_Z H == inject_Z lh)%Q) by (unfold rh; field; lra).
  assert (Hrw0 : (0 <= rw)%Q)
    by (apply (Qmult_le_r _ _ (inject_Z W)); [exact HWq | lra]).
  assert (Hrh0 : (0 <= rh)%Q)
    by (apply (Qmult_le_r _ _ (inject_Z H)); [exact HHq | lra]).
  pose proof (py_min_le_l rw rh) as Hl. pose proof (py_min_le_r rw rh) as Hr.
  pose proof (py_min_glb rw rh 0 Hrw0 Hrh0) as Hs0.
  set (s := py_min rw rh) in *.
  repeat split.
  - apply py_int_ge. change (inject_Z 0) with 0%Q. nra.
  - apply py_int_le. nra.
  - apply py_int_ge. change (inject_Z 0) with 0%Q. nra.
  - apply py_int_le. nra.
Qed.

(** X8. A detected region inside the image is displayed inside the
    pixmap: the selection [detect_watermark] sets starts at or after the
    pixmap's origin, has non-negative sides and ends at or before the
    pixmap's far edges. *)
Theorem detected_region_is_shown_inside_pixmap
    (label : ImageLabel.t) (r : Region) (pixmap_rect : QRect) :
  0 < fst (ImageLabel.original_size label) ->
  0 < snd (ImageLabel.original_size label) ->
  region_in_size (ImageLabel.original_size label) r ->
  ImageLabel.get_pixmap_rect label = Some pixmap_rect ->
  isNull pixmap_rect = false ->
  0 <= rect_width pixmap_rect -> 0 <= rect_height pixmap_rect ->
  exists sel,
    ImageLabel.selection (shown label r) = Some sel /\
    rect_x pixmap_rect <= rect_x sel /\ rect_y pixmap_rect <= rect_y sel /\
    0 <= rect_width sel /\ 0 <= rect_height sel /\
    rect_x sel + rect_width sel <= rect_x pixmap_rect + rect_width pixmap_rect /\
    rect_y sel + rect_height sel <= rect_y pixmap_rect + rect_height pixmap_rect.
Proof.
  destruct label as [sel0 s [W H] pm size0]. destruct r as [[[x y] w] h].
  cbn [ImageLabel.original_size fst snd].
  intros HW HH (Hx & Hy & Hw & Hh & Hxw & Hyh) Hrect Hnull Hpw Hph.
  cbn [fst snd] in Hxw, Hyh.
  unfold shown, MainWindow.detect_watermark. rewrite Hrect, Hnull.
  cbn [ImageLabel.original_size].
  destruct (Z.eqb_spec W 0) as [? | _]; [lia |].
  destruct (Z.eqb_spec H 0) as [? | _]; [lia |].
  cbn [orb ImageLabel.set_selection ImageLabel.selection].
  eexists. split; [reflexivity |]. cbn [rect_x rect_y rect_width rect_height].
  destruct (scaled_pair_fits x w (rect_width pixmap_rect) W Hx Hw Hxw HW Hpw)
    as (Hdx & Hdw & Hdxw).
  destruct (scaled_pair_fits y h (rect_height pixmap_rect) H Hy Hh Hyh HH Hph)
    as (Hdy & Hdh & Hdyh).
  cbv zeta in Hdx, Hdw, Hdxw, Hdy, Hdh, Hdyh. lia.
Qed.

(** ** Preview geometry of the video window *)

(** X9. In the video window a selection drawn inside the pixmap becomes a
    watermark region inside the video frame: after [preview_removal] the
    processor's region has a non-negative origin and sides, x + w <= width
    and y + h <= height. *)
Theorem video_selection_maps_into_frame
    (label : VideoPreviewLabel.t) (vp : VideoProcessor.t)
    (sel pixmap_rect : QRect) :
  VideoPreviewLabel.selection label = Some sel ->
  isNull sel = false ->
  VideoPreviewLabel.get_pixmap_rect label = Some pixmap_rect ->
  0 < rect_width pixmap_rect -> 0 < rect_height pixmap_rect ->
  0 <= VideoProcessor.width vp -> 0 <= VideoProcessor.height vp ->
  rect_x pixmap_rect <= rect_x sel -> rect_y pixmap_rect <= rect_y sel ->
  0 <= rect_width sel -> 0 <= rect_height sel ->
  rect_x sel + rect_width sel <= rect_x pixmap_rect + rect_width pixmap_rect ->
  rect_y sel + rect_height sel <= rect_y pixmap_rect + rect_height pixmap_rect ->
  exists r,
    VideoProcessor.watermark_region (VideoWindow.preview_removal label vp) = Some r /\
    region_in_size (VideoProcessor.width vp, VideoProcessor.height vp) r.
Proof.
  intros Hsel Hselnull Hrect Hpw Hph HW HH Hx Hy Hw Hh Hxw Hyh.
  unfold VideoWindow.preview_removal. rewrite Hsel, Hselnull, Hrect.
  assert (Hnull : isNull pixmap_rect = false).
  { unfold isNull. destruct (Z.eqb_spec (rect_width pixmap_rect) 0); [lia | reflexivity]. }
  rewrite Hnull.
  destruct (Z.eqb_spec (rect_width pixmap_rect) 0) as [? | _]; [lia |].
  destruct (Z.eqb_spec (rect_height pixmap_rect) 0) as [? | _]; [lia |].
  cbn [orb]. cbv zeta.
  unfold VideoProcessor.set_watermark_region. cbn [VideoProcessor.watermark_region].
  rewrite !py_int_inject_Z.
  eexists. split; [reflexivity |]. unfold region_in_size. cbn [fst snd].
  destruct (scaled_pair_fits (rect_x sel - rect_x pixmap_rect) (rect_width sel)
              (VideoProcessor.width vp) (rect_width pixmap_rect)
              ltac:(lia) ltac:(lia) ltac:(lia) ltac:(lia) ltac:(lia))
    as (Hdx & Hdw & Hdxw).
  destruct (scaled_pair_fits (rect_y sel - rect_y pixmap_rect) (rect_height sel)
              (VideoProcessor.height vp) (rect_height pixmap_rect)
              ltac:(lia) ltac:(lia) ltac:(lia) ltac:(lia) ltac:(lia))
    as (Hdy & Hdh & Hdyh).
  cbv zeta in Hdx, Hdw, Hdxw, Hdy, Hdh, Hdyh. lia.
Qed.

Section PreviewFrameFacts.

Context (read_at : capture -> Z -> res (option Frame)).
Context (resize : Frame -> Z * Z -> res Frame).
Context (cvtColor : Frame -> res Frame).

Local Abbreviation get_frame := (VideoProcessor.get_frame read_at).
Local Abbreviation get_preview_frame :=
  (VideoProcessor.get_preview_frame read_at resize cvtColor).

(** X10. A preview frame is either the frame itself, when neither side
    exceeds [max_size], or the frame resized to a (width, height) with
    0 <= width <= max_size and 0 <= height <= max_size that is no larger
    than the frame: [get_preview_frame] never asks for an enlargement and
    never for more than [max_size] in either direction. *)
Theorem preview_frame_within_max_size
    (cap : option capture) (frame_idx max_size : Z) (out : Frame) :
  0 <= max_size ->
  get_preview_frame cap frame_idx max_size = Some out ->
  exists frame,
    get_frame cap frame_idx = Some frame /\
    let h := fst (shape frame) in
    let w := snd (shape frame) in
    (w <= max_size /\ h <= max_size /\ cvtColor frame = Ok out)
    \/ (exists nw nh resized,
          (max_size < w \/ max_size < h) /\
          0 <= nw <= max_size /\ 0 <= nh <= max_size /\ nw <= w /\ nh <= h /\
          resize frame (nw, nh) = Ok resized /\ cvtColor resized = Ok out).
Proof.
  intros HM Hout. unfold VideoProcessor.get_preview_frame in Hout.
  destruct (get_frame cap frame_idx) as [frame |]; [| discriminate].
  exists frame. split; [reflexivity |].
  destruct (shape frame) as [h w] eqn:Hshape. cbn [fst snd].
  assert (Hdims : 0 <= h /\ 0 <= w).
  { unfold shape in Hshape. injection Hshape as <- <-. lia. }
  destruct (Z.eqb_spec w 0) as [Hw0 | Hw0]; [discriminate |].
  destruct (Z.eqb_spec h 0) as [Hh0 | Hh0]; [discriminate |].
  cbn [orb] in Hout.
  assert (Hwq : (0 < inject_Z w)%Q) by (apply inject_Z_pos; lia).
  assert (Hhq : (0 < inject_Z h)%Q) by (apply inject_Z_pos; lia).
  pose proof (inject_Z_nonneg max_size HM) as HMq.
  set (rw := (inject_Z max_size / inject_Z w)%Q) in *.
  set (rh := (inject_Z max_size / inject_Z h)%Q) in *.
  assert (Hrw : (rw * inject_Z w == inject_Z max_size)%Q) by (unfold rw; field; lra).
  assert (Hrh : (rh * inject_Z h == inject_Z max_size)%Q) by (unfold rh; field; lra).
  assert (Hrw0 : (0 <= rw)%Q)
    by (apply (Qmult_le_r _ _ (inject_Z w)); [exact Hwq | lra]).
  assert (Hrh0 : (0 <= rh)%Q)
    by (apply (Qmult_le_r _ _ (inject_Z h)); [exact Hhq | lra]).
  pose proof (py_min_le_l rw rh) as Hl. pose proof (py_min_le_r rw rh) as Hr.
  pose proof (py_min_glb rw rh 0 Hrw0 Hrh0) as Hs0.
  set (scale := py_min rw rh) in *.
  destruct (Qltb scale 1) eqn:Hsmall.
  - right. apply Qltb_true in Hsmall.
    destruct (resize frame _) as [resized |] eqn:Hresize; [| discriminate].
    cbn [res_bind] in Hout.
    destruct (cvtColor resized) as [rgb |] eqn:Hrgb; [| discriminate].
    injection Hout as <-.
    eexists _, _, resized. split; [| split; [| split; [| split; [| split; [| split;
      [exact Hresize | exact Hrgb]]]]]].
    + assert (Hone : (rw < 1)%Q \/ (rh < 1)%Q).
      { unfold scale, py_min in Hsmall. destruct (Qlt_le_dec rh rw); [right | left]; lra. }
      destruct Hone as [Hone | Hone]; [left | right]; rewrite Zlt_Qlt; nra.
    + split; [apply py_int_ge; change (inject_Z 0) with 0%Q; nra | apply py_int_le; nra].
    + split; [apply py_int_ge; change (inject_Z 0) with 0%Q; nra | apply py_int_le; nra].
    + apply py_int_le. nra.
    + apply py_int_le. nra.
  - left. assert (Hbig : (1 <= scale)%Q).
    { unfold Qltb in Hsmall. destruct (Qlt_le_dec scale 1); [discriminate | assumption]. }
    cbn [res_bind] in Hout.
    destruct (cvtColor frame) as [rgb |] eqn:Hrgb; [| discriminate].
    injection Hout as <-.
    split; [rewrite Zle_Qle; nra |]. split; [rewrite Zle_Qle; nra | reflexivity].
Qed.

End PreviewFrameFacts.

(** ** Names of the stills *)

Lemma string_length_app (s t : string) :
  String.length (s ++ t) = (String.length s + String.length t)%nat.
Proof. induction s as [| c s IH]; simpl; [reflexivity | rewrite IH; reflexivity]. Qed.

Lemma string_app_inv_tail (s1 s2 t : string) : s1 ++ t = s2 ++ t -> s1 = s2.
Proof.
  revert s2. induction s1 as [| a s1 IH]; intros [| b s2] Heq.
  - reflexivity.
  - apply (f_equal String.length) in Heq.
    rewrite !string_length_app in Heq. simpl in Heq. lia.
  - apply (f_equal String.length) in Heq.
    rewrite !string_length_app in Heq. simpl in Heq. lia.
  - simpl in Heq. injection Heq as -> Heq. f_equal. apply IH, Heq.
Qed.

Lemma pretty_N_go_head (x : N) (s : string) :
  (0 < x)%N ->
  exists c rest, pretty_N_go x s = String c rest /\ c <> "0"%char.
Proof.
  revert s. induction (N.lt_wf_0 x) as [x _ IH]; intros s Hx.
  rewrite pretty_N_go_step by exact Hx.
  destruct (decide (x < 10)%N) as [Hsmall | Hbig].
  - rewrite (N.div_small x 10 Hsmall), pretty_N_go_0, (N.mod_small x 10 Hsmall).
    eexists _, _. split; [reflexivity |].
    assert (x = 1 \/ x = 2 \/ x = 3 \/ x = 4 \/ x = 5 \/ x = 6
            \/ x = 7 \/ x = 8 \/ x = 9)%N as Hcases by lia.
    destruct Hcases as [-> | [-> | [-> | [-> | [-> | [-> | [-> | [-> | ->]]]]]]]];
      discriminate.
  - apply IH.
    + apply N.div_lt; lia.
    + apply N.div_str_pos. lia.
Qed.

Lemma pretty_nat_head (n : nat) :
  (0 < n)%nat -> exists c rest, pretty n = String c rest /\ c <> "0"%char.
Proof.
  intros Hn. unfold pretty, pretty_nat, pretty, pretty_N.
  destruct (decide (N.of_nat n = 0%N)) as [Hz | _]; [lia |].
  apply pretty_N_go_head. lia.
Qed.

Lemma zeros_succ (k : nat) :
  String.concat "" (repeat "0" (S k)) = String "0" (String.concat "" (repeat "0" k)).
Proof. destruct k; reflexivity. Qed.

Lemma strip_zeros_pad (k : nat) (t : string) :
  strip_zeros (String.concat "" (repeat "0" k) ++ t) = strip_zeros t.
Proof.
  induction k as [| k IH]; [reflexivity |].
  rewrite zeros_succ. simpl. exact IH.
Qed.

Lemma strip_zeros_pad6 (n : nat) :
  strip_zeros (pad6 n) = if decide (n = 0%nat) then "" else pretty n.
Proof.
  unfold pad6. rewrite strip_zeros_pad.
  destruct (decide (n = 0%nat)) as [-> | Hn]; [reflexivity |].
  destruct (pretty_nat_head n ltac:(lia)) as (c & rest & Hpretty & Hc).
  rewrite Hpretty. simpl.
  destruct (Ascii.eqb_spec c "0"); [contradiction | reflexivity].
Qed.

Lemma frame_name_determines_index (n m : nat) :
  frame_name n = frame_name m -> n = m.
Proof.
  unfold frame_name. intros Heq.
  apply (String.app_inj "frame_") in Heq.
  apply string_app_inv_tail in Heq.
  apply (f_equal strip_zeros) in Heq. rewrite !strip_zeros_pad6 in Heq.
  destruct (decide (n = 0%nat)) as [-> | Hn], (decide (m = 0%nat)) as [-> | Hm].
  - reflexivity.
  - destruct (pretty_nat_head m ltac:(lia)) as (c & rest & Hpretty & _).
    rewrite Hpretty in Heq. discriminate.
  - destruct (pretty_nat_head n ltac:(lia)) as (c & rest & Hpretty & _).
    rewrite Hpretty in Heq. discriminate.
  - apply (inj pretty). exact Heq.
Qed.

(** X11. Distinct frame numbers give distinct file names: the zero-padded
    name [frame_NNNNNN.jpg] determines the frame number, also beyond six
    digits, so no still of a run overwrites another. *)
Theorem frame_names_are_distinct (n m : nat) :
  n <> m -> frame_name n <> frame_name m.
Proof.
  intros Hneq Heq. apply Hneq, frame_name_determines_index, Heq.
Qed.

(** ** More on video runs *)

Section VideoRunFacts.

Context (VideoCapture : string -> option capture).
Context (inpaint : Frame -> Mask -> Z -> InpaintFlag -> res Frame).
Context (dirname : string -> string) (join : string -> string -> string).
Context (makedirs_ok : string -> bool).
Context (ffmpeg_ok : ffmpeg_cmd -> gmap string (gmap string entry) -> bool).

Local Abbreviation process_frame := (VideoProcessor.process_frame inpaint).
Local Abbreviation frame_loop := (VideoProcessor.frame_loop inpaint).
Local Abbreviation process_video :=
  (VideoProcessor.process_video VideoCapture inpaint dirname join makedirs_ok
     ffmpeg_ok).
Local Abbreviation scratch_dir := (VideoProcessor.scratch_dir dirname join).
Local Abbreviation mux_command := (VideoProcessor.mux_command join).

Lemma cv2_imwrite_exact d name image w es :
  dirs w !! d = Some es ->
  es !! name <> Some (Foreign false) ->
  cv2_imwrite d name (Some image) w
  = (Normal tt, set_dirs w (<[d := <[name := Still image]> es]> (dirs w))).
Proof.
  intros Hdir Hfree. unfold cv2_imwrite. rewrite Hdir.
  destruct (es !! name) as [[img0 | [|]] |]; try reflexivity. contradiction.
Qed.

Lemma frame_loop_unfold self temp_dir total cb frame rest n w :
  exists image',
    process_frame self (Some frame) = Ok (Some image') /\
    frame_loop self temp_dir total cb (frame :: rest) n w
    = let w0 := snd (cv2_imwrite temp_dir (frame_name n) (Some image') w) in
      match cb with
      | None => frame_loop self temp_dir total cb rest (S n) w0
      | Some sink =>
        if total =? 0 then (Throw ZeroDivisionError, w0)
        else
          let v := progress_value total (S n) in
          match sink (length (delivered w0)) v with
          | Ok true => frame_loop self temp_dir total cb rest (S n) (pushed w0 v)
          | Ok false => (Return false, pushed w0 v)
          | Raise e => (Throw e, pushed w0 v)
          end
      end.
Proof.
  destruct (process_frame_total inpaint self (Some frame))
    as (out & Hout & _ & _ & _ & Hsome).
  destruct (Hsome frame eq_refl) as (image' & ->).
  exists image'. split; [exact Hout |].
  destruct (cv2_imwrite_still temp_dir (frame_name n) image' w)
    as (w0 & Hwrite & _ & _).
  rewrite Hwrite. cbn [snd]. cbv zeta.
  cbn [VideoProcessor.frame_loop]. unfold mbind at 1, M_bind at 1.
  rewrite Hout. cbn [lift_res]. unfold mret at 1, M_ret at 1.
  unfold mbind at 1, M_bind at 1. rewrite Hwrite.
  destruct cb as [sink |]; [| reflexivity].
  destruct (total =? 0); [reflexivity |].
  unfold mbind at 1, M_bind at 1, VideoProcessor.deliver, progress_value.
  fold (progress_value total (S n)).
  destruct (sink (length (delivered w0)) (progress_value total (S n)))
    as [[|] | e]; reflexivity.
Qed.

(** A frame loop that runs to its end leaves one still per frame, under
    the frame's own name, and touches no other entry. *)
Lemma frame_loop_stills self temp_dir total cb pending :
  forall n w w2 es,
    frame_loop self temp_dir total cb pending n w = (Normal tt, w2) ->
    dirs w !! temp_dir = Some es ->
    (forall k, es !! frame_name k <> Some (Foreign false)) ->
    exists es2,
      dirs w2 !! temp_dir = Some es2 /\
      (forall i frame, pending !! i = Some frame ->
         exists image,
           process_frame self (Some frame) = Ok (Some image) /\
           es2 !! frame_name (n + i) = Some (Still image)) /\
      (forall name,
         (forall i, (i < length pending)%nat -> name <> frame_name (n + i)) ->
         es2 !! name = es !! name).
Proof.
  induction pending as [| frame rest IH]; intros n w w2 es Hrun Hdir Hfree.
  - injection Hrun as <-. exists es. split; [exact Hdir |].
    split; [intros i frame Hi; discriminate | reflexivity].
  - destruct (frame_loop_unfold self temp_dir total cb frame rest n w)
      as (image' & Hprocessed & Heq).
    rewrite Heq in Hrun. clear Heq.
    rewrite (cv2_imwrite_exact temp_dir (frame_name n) image' w es Hdir (Hfree n))
      in Hrun.
    cbn [snd] in Hrun. cbv zeta in Hrun.
    set (es0 := <[frame_name n := Still image']> es) in *.
    set (w0 := set_dirs w (<[temp_dir := es0]> (dirs w))) in *.
    assert (Hdir0 : dirs w0 !! temp_dir = Some es0) by apply lookup_insert_eq.
    assert (Hfree0 : forall k, es0 !! frame_name k <> Some (Foreign false)).
    { intros k. unfold es0. destruct (decide (frame_name n = frame_name k)) as [-> | Hne].
      - rewrite lookup_insert_eq. discriminate.
      - rewrite lookup_insert_ne by exact Hne. apply Hfree. }
    assert (Hrest : exists w1,
              dirs w1 !! temp_dir = Some es0 /\
              frame_loop self temp_dir total cb rest (S n) w1 = (Normal tt, w2)).
    { destruct cb as [sink |].
      - destruct (total =? 0); [discriminate |].
        destruct (sink _ _) as [[|] | e]; try discriminate.
        eexists. split; [| exact Hrun]. exact Hdir0.
      - eexists. split; [| exact Hrun]. exact Hdir0. }
    destruct Hrest as (w1 & Hdir1 & Hloop).
    destruct (IH (S n) w1 w2 es0 Hloop Hdir1 Hfree0) as (es2 & Hdir2 & Hstills & Hothers).
    exists es2. split; [exact Hdir2 |]. split.
    + intros [| i] frame0 Hi.
      * injection Hi as <-. exists image'. split; [exact Hprocessed |].
        rewrite Nat.add_0_r, Hothers.
        -- apply lookup_insert_eq.
        -- intros i _ Heq. apply frame_name_determines_index in Heq. lia.
      * destruct (Hstills i frame0 Hi) as (image & Himage & Hstill).
        exists image. split; [exact Himage |].
        replace (n + S i)%nat with (S n + i)%nat by lia. exact Hstill.
    + intros name Hname. rewrite Hothers.
      * unfold es0. apply lookup_insert_ne. intros Heq.
        apply (Hname 0%nat); [simpl; lia |]. rewrite Nat.add_0_r. symmetry. exact Heq.
      * intros i Hi. replace (S n + i)%nat with (n + S i)%nat by lia.
        apply Hname. simpl. lia.
Qed.

(** X12. When [process_video] returns [True] on a scratch directory that
    did not exist before, ffmpeg was run on a disk whose scratch directory
    holds, for every frame the capture delivered, the frame as
    [process_frame] returned it under the name [frame_NNNNNN.jpg] of its
    index, and holds nothing else. *)
Theorem mux_sees_one_still_per_frame self output_path cb w :
  dirs w !! scratch_dir output_path = None ->
  fst (process_video self output_path cb w) = Ok true ->
  exists cap disk es,
    VideoCapture (default "" (VideoProcessor.video_path self)) = Some cap /\
    ffmpeg_ok (mux_command self (scratch_dir output_path) output_path) disk = true /\
    disk !! scratch_dir output_path = Some es /\
    (forall i frame, frames cap !! i = Some frame ->
       exists image,
         process_frame self (Some frame) = Ok (Some image) /\
         es !! frame_name i = Some (Still image)) /\
    (forall name, is_Some (es !! name) ->
       exists i, (i < length (frames cap))%nat /\ name = frame_name i).
Proof.
  intros Hfresh Htrue.
  destruct (process_video_cases VideoCapture inpaint dirname join makedirs_ok
              ffmpeg_ok self output_path cb w)
    as [Hrun | [(_ & Hrun) | [(_ & _ & Hrun) | Hrun]]];
    try (rewrite Hrun in Htrue; discriminate).
  destruct Hrun as (cap & c & w2 & w4 & m & Hopen & _ & Hloop & Hrun & _ & _
                    & Hverdict & _).
  rewrite Hrun in Htrue. injection Htrue as Htrue.
  destruct (run_result_true _ _ _ _ _ _ _ _ Hverdict Htrue) as [-> Hok].
  assert (Hdir : dirs (prepared (scratch_dir output_path) w)
                   !! scratch_dir output_path = Some ∅).
  { unfold prepared. cbn [dirs]. rewrite Hfresh. apply lookup_insert_eq. }
  destruct (frame_loop_stills self _ _ cb (frames cap) 0 _ w2 ∅ Hloop Hdir)
    as (es2 & Hdir2 & Hstills & Hothers).
  { intros k. rewrite lookup_empty. discriminate. }
  exists cap, (dirs w2), es2.
  split; [exact Hopen |]. split; [exact Hok |]. split; [exact Hdir2 |].
  split; [exact Hstills |].
  intros name [e He].
  destruct (in_dec string_dec name (map frame_name (seq 0 (length (frames cap)))))
    as [Hyes | Hno].
  - apply in_map_iff in Hyes as (i & <- & Hi). apply in_seq in Hi.
    exists i. split; [lia | reflexivity].
  - exfalso. rewrite Hothers in He.
    + rewrite lookup_empty in He. discriminate.
    + intros i Hi ->. apply Hno. apply in_map, in_seq. lia.
Qed.

(** X13. [process_video] returns [True] or [False], or raises
    [UnboundLocalError]; it raises exactly when a path and a region are set
    and the scratch directory cannot be created (the outer [finally] then
    reads the unbound [cap]). An exception of the callback or of ffmpeg, or
    a division by a zero frame count, never leaves the call. *)
Theorem process_video_outcomes self output_path cb w :
  let run := process_video self output_path cb w in
  (fst run = Ok true \/ fst run = Ok false \/ fst run = Raise UnboundLocalError)
  /\ (fst run = Raise UnboundLocalError <->
      VideoProcessor.no_path (VideoProcessor.video_path self)
      || VideoProcessor.no_region (VideoProcessor.watermark_region self) = false
      /\ makedirs_ok (scratch_dir output_path) = false).
Proof.
  intros run. subst run.
  destruct (VideoProcessor.no_path (VideoProcessor.video_path self)
            || VideoProcessor.no_region (VideoProcessor.watermark_region self))
    eqn:Hready.
  { rewrite (process_video_not_ready VideoCapture inpaint dirname join makedirs_ok
               ffmpeg_ok self output_path cb w Hready).
    split; [right; left; reflexivity |].
    split; [intros Hraise; discriminate | intros [Hfalse _]; discriminate]. }
  destruct (makedirs_ok (scratch_dir output_path)) eqn:Hmk.
  2: { rewrite (process_video_no_scratch VideoCapture inpaint dirname join
                  makedirs_ok ffmpeg_ok self output_path cb w Hready Hmk).
       split; [right; right; reflexivity |]. split; intros; auto. }
  destruct (process_video_cases VideoCapture inpaint dirname join makedirs_ok
              ffmpeg_ok self output_path cb w)
    as [Hrun | [(Hmk' & _) | [(_ & _ & Hrun) | Hrun]]].
  - rewrite Hrun. split; [right; left; reflexivity |].
    split; [intros Hraise; discriminate | intros [_ Hfalse]; discriminate].
  - congruence.
  - rewrite Hrun. split; [right; left; reflexivity |].
    split; [intros Hraise; discriminate | intros [_ Hfalse]; discriminate].
  - destruct Hrun as (cap & c & w2 & w4 & m & _ & _ & _ & Hrun & _).
    rewrite Hrun. cbn [fst]. split.
    + destruct (run_result c _); [left | right; left]; reflexivity.
    + split; [intros Hraise; discriminate | intros [_ Hfalse]; discriminate].
Qed.

(** X14. A clip whose container reports a frame count of 0 is not
    converted when a progress callback is given: with at least one frame
    to decode, [process_video] returns [False], the callback is never
    called and ffmpeg is never run. *)
Theorem zero_frame_count_ends_the_run self output_path sink w cap :
  VideoProcessor.no_path (VideoProcessor.video_path self) = false ->
  VideoProcessor.no_region (VideoProcessor.watermark_region self) = false ->
  makedirs_ok (scratch_dir output_path) = true ->
  VideoCapture (default "" (VideoProcessor.video_path self)) = Some cap ->
  py_int (frame_count cap) = 0 ->
  frames cap <> [] ->
  let run := process_video self output_path (Some sink) w in
  fst run = Ok false /\
  delivered (snd run) = delivered w /\
  ffmpeg_log (snd run) = ffmpeg_log w.
Proof.
  intros Hpath Hregion Hmk Hopen Hzero Hframes run. subst run.
  destruct (process_video_cases VideoCapture inpaint dirname join makedirs_ok
              ffmpeg_ok self output_path (Some sink) w)
    as [Hrun | [(Hmk' & _) | [(Hnone & _) | Hrun]]].
  - rewrite Hrun. repeat split; reflexivity.
  - congruence.
  - congruence.
  - destruct Hrun as (cap' & c & w2 & w4 & m & Hopen' & _ & _ & Hrun & _ & Hdel
                      & Hverdict & Hlog & _).
    rewrite Hopen in Hopen'. injection Hopen' as <-.
    rewrite Hzero in Hverdict, Hdel. rewrite Hrun. cbn [fst snd].
    cbn [loop_verdict] in Hverdict. destruct Hverdict as (Hm & Hc).
    assert (m = 0%nat) as -> by (destruct m; [reflexivity | exfalso; apply Hm; [lia | reflexivity]]).
    destruct c as [[] | v | e].
    + destruct Hc as (Hlen & _). destruct (frames cap); [contradiction | discriminate].
    + destruct Hc as (_ & m' & Hm' & _). discriminate.
    + split; [reflexivity |]. split.
      * rewrite Hdel. simpl. apply app_nil_r.
      * rewrite Hlog. simpl. apply app_nil_r.
Qed.


Lemma stopped_loop_is_not_normal sink total base len m c vs v :
  loop_verdict (Some sink) total base 0 len m c ->
  map (progress_value total) (seq 1 m) = (vs ++ [v])%list ->
  sink (base + length vs)%nat v = Ok false ->
  c <> Normal tt.
Proof.
  intros Hverdict Hvalues Hstop ->. cbn [loop_verdict] in Hverdict.
  destruct Hverdict as (_ & _ & Hall).
  destruct m as [| m']; [destruct vs; discriminate |].
  rewrite seq_S, map_app in Hvalues. simpl in Hvalues.
  apply app_inj_tail in Hvalues as [Hvs Hv].
  assert (Hlen : length vs = m') by (rewrite <- Hvs, length_map, length_seq; reflexivity).
  specialize (Hall m' ltac:(lia)). rewrite Hlen, <- Hv in Hstop.
  simpl in Hall. rewrite Hall in Hstop. discriminate.
Qed.

(** X16. Once the sink has answered stop, nothing more happens but the
    cleanup: if the last value delivered in a run was answered with stop,
    ffmpeg was not run in that call, so a cancelled run writes no output. *)
Theorem cancelled_run_is_not_muxed self output_path sink w vs v :
  let run := process_video self output_path (Some sink) w in
  delivered (snd run) = (delivered w ++ vs ++ [v])%list ->
  sink (length (delivered w) + length vs)%nat v = Ok false ->
  ffmpeg_log (snd run) = ffmpeg_log w.
Proof.
  intros run Hdel Hstop. subst run.
  destruct (process_video_cases VideoCapture inpaint dirname join makedirs_ok
              ffmpeg_ok self output_path (Some sink) w)
    as [Hrun | [(_ & Hrun) | [(_ & _ & Hrun) | Hrun]]].
  1-3: rewrite Hrun; reflexivity.
  destruct Hrun as (cap & c & w2 & w4 & m & _ & _ & _ & Hrun & _ & Hdel' & Hverdict
                    & Hlog & _).
  rewrite Hrun in Hdel |- *. cbn [snd] in Hdel |- *.
  rewrite Hdel' in Hdel. apply app_inv_head in Hdel.
  pose proof (stopped_loop_is_not_normal _ _ _ _ _ _ _ _ Hverdict Hdel Hstop) as Hc.
  rewrite Hlog. destruct c as [[] | v0 | e]; [contradiction | |]; apply app_nil_r.
Qed.

(** X17. [process_frame_batch] never raises. It returns the numbers
    [start_idx + i] of the positions [i] that hold a frame, in increasing
    order, skipping the positions that hold None; it delivers no progress
    value and touches no directory but [temp_dir]. *)
Theorem process_frame_batch_indices self start_idx frames temp_dir w :
  exists results w',
    VideoProcessor.process_frame_batch inpaint self start_idx frames temp_dir w
    = (Normal results, w') /\
    (forall k, In k results <->
       exists i frame, frames !! i = Some (Some frame) /\ k = (start_idx + i)%nat) /\
    StronglySorted lt results /\
    delivered w' = delivered w /\
    scratch_step temp_dir w w'.
Proof.
  unfold VideoProcessor.process_frame_batch.
  assert (Hgen : forall i w,
    exists results w',
      VideoProcessor.process_frame_batch_from inpaint self start_idx frames
        temp_dir i w = (Normal results, w') /\
      (forall k, In k results <->
         exists j frame, frames !! j = Some (Some frame)
                         /\ k = (start_idx + (i + j))%nat) /\
      StronglySorted lt results /\
      delivered w' = delivered w /\
      scratch_step temp_dir w w').
  { induction frames as [| [frame |] rest IH]; intros i w0.
    - exists [], w0. split; [reflexivity |]. split.
      { intros k. split; [intros [] | intros (j & frame & Hj & _); discriminate]. }
      split; [constructor |]. split; [reflexivity | apply scratch_step_refl].
    - cbn [VideoProcessor.process_frame_batch_from].
      destruct (process_frame_total inpaint self (Some frame))
        as (out & Hout & _ & _ & _ & Hsome).
      destruct (Hsome frame eq_refl) as (image' & ->).
      destruct (cv2_imwrite_still temp_dir (frame_name (start_idx + i)) image' w0)
        as (w1 & Hwrite & Hdel1 & Hstep1).
      destruct (IH (S i) w1) as (results & w' & Hrest & Hmem & Hsorted & Hdel & Hstep).
      exists ((start_idx + i)%nat :: results), w'.
      split.
      { unfold mbind at 1, M_bind at 1. rewrite Hout. cbn [lift_res].
        unfold mret at 1, M_ret at 1. cbv zeta.
        unfold mbind at 1, M_bind at 1. rewrite Hwrite.
        unfold mbind at 1, M_bind at 1. rewrite Hrest. reflexivity. }
      split.
      { intros k. split.
        - intros [<- | Hin].
          + exists 0%nat, frame. split; [reflexivity | lia].
          + apply Hmem in Hin as (j & frame0 & Hj & ->).
            exists (S j), frame0. split; [exact Hj | lia].
        - intros ([| j] & frame0 & Hj & ->).
          + left. lia.
          + right. apply Hmem. exists j, frame0. split; [exact Hj | lia]. }
      split.
      { constructor; [exact Hsorted |]. apply List.Forall_forall. intros k Hk.
        apply Hmem in Hk as (j & frame0 & _ & ->). lia. }
      split; [congruence |].
      eapply scratch_step_trans; eassumption.
    - cbn [VideoProcessor.process_frame_batch_from].
      destruct (IH (S i) w0) as (results & w' & Hrest & Hmem & Hsorted & Hdel & Hstep).
      exists results, w'. split; [exact Hrest |]. split.
      { intros k. rewrite Hmem. split.
        - intros (j & frame0 & Hj & ->). exists (S j), frame0. split; [exact Hj | lia].
        - intros ([| j] & frame0 & Hj & ->); [discriminate |].
          exists j, frame0. split; [exact Hj | lia]. }
      split; [exact Hsorted |]. split; [exact Hdel | exact Hstep]. }
  destruct (Hgen 0%nat w) as (results & w' & Hrun & Hmem & Hrest).
  exists results, w'. split; [exact Hrun |]. split; [| exact Hrest].
  intros k. rewrite Hmem. reflexivity.
Qed.

End VideoRunFacts.

(** ** Files and batches *)

Section FileFacts.

Context (splitext : string -> string * string).
Context (basename dirname : string -> string).
Context (join : string -> string -> string).
Context (lower : string -> string).
Context (makedirs_ok : string -> bool).

Local Abbreviation is_image := (FileHandler.is_image splitext lower).
Local Abbreviation is_video := (FileHandler.is_video splitext lower).
Local Abbreviation scan_file := (FileHandler.scan_file splitext join lower).
Local Abbreviation scan_directory :=
  (FileHandler.scan_directory splitext join lower).
Local Abbreviation get_output_path :=
  (FileHandler.get_output_path splitext basename dirname join makedirs_ok).

Lemma is_image_not_video file_path :
  is_image file_path = true -> is_video file_path = false.
Proof.
  unfold FileHandler.is_image, FileHandler.is_video,
    FileHandler.IMAGE_EXTENSIONS, FileHandler.VIDEO_EXTENSIONS.
  intros Himage. apply bool_decide_eq_true in Himage.
  apply bool_decide_eq_false. intros Hvideo.
  set (ext := lower (snd (splitext file_path))) in *. clearbody ext.
  repeat (apply elem_of_cons in Himage as [-> | Himage];
          [repeat (apply elem_of_cons in Hvideo as [Hvideo | Hvideo];
                   [discriminate |]);
           apply elem_of_nil in Hvideo; exact Hvideo |]).
  apply elem_of_nil in Himage. exact Himage.
Qed.

Lemma scan_files_spec root files :
  forall image_files video_files,
    foldl (scan_file root) (image_files, video_files) files
    = ((image_files ++ List.filter is_image (map (join root) files))%list,
       (video_files ++ List.filter is_video (map (join root) files))%list).
Proof.
  induction files as [| file rest IH]; intros image_files video_files.
  - simpl. rewrite !app_nil_r. reflexivity.
  - cbn [foldl map List.filter]. unfold FileHandler.scan_file at 2.
    destruct (is_image (join root file)) eqn:Himage.
    + rewrite (is_image_not_video _ Himage), IH, <- app_assoc. reflexivity.
    + destruct (is_video (join root file)); rewrite IH;
        [rewrite <- app_assoc |]; reflexivity.
Qed.

(** X18. [scan_directory] returns, in the order of the walk, exactly the
    paths whose lower-cased extension is an image extension and exactly
    those whose extension is a video extension; every other file is
    dropped and no path is in both lists. *)
Theorem scan_directory_sorts_by_extension (walk : list (string * list string)) :
  let paths := flat_map (fun entry => map (join (fst entry)) (snd entry)) walk in
  scan_directory walk = (List.filter is_image paths, List.filter is_video paths)
  /\ forall p, ~ (In p (fst (scan_directory walk)) /\ In p (snd (scan_directory walk))).
Proof.
  intros paths.
  assert (Hgen : forall walk0 image_files video_files,
    foldl (fun lists entry => foldl (scan_file (fst entry)) lists (snd entry))
      (image_files, video_files) walk0
    = ((image_files ++ List.filter is_image
          (flat_map (fun entry => map (join (fst entry)) (snd entry)) walk0))%list,
       (video_files ++ List.filter is_video
          (flat_map (fun entry => map (join (fst entry)) (snd entry)) walk0))%list)).
  { induction walk0 as [| [root files] rest IH]; intros image_files video_files.
    - simpl. rewrite !app_nil_r. reflexivity.
    - cbn [foldl flat_map fst snd]. rewrite scan_files_spec, IH.
      rewrite !List.filter_app, <- !app_assoc. reflexivity. }
  assert (Hscan : scan_directory walk
                  = (List.filter is_image paths, List.filter is_video paths)).
  { unfold FileHandler.scan_directory. rewrite Hgen. reflexivity. }
  split; [exact Hscan |].
  intros p [Himage Hvideo]. rewrite Hscan in Himage, Hvideo. cbn [fst snd] in *.
  apply filter_In in Himage as [_ Himage]. apply filter_In in Hvideo as [_ Hvideo].
  rewrite (is_image_not_video p Himage) in Hvideo. discriminate.
Qed.

(** X19. [get_output_path] fails only when the [processed] directory next
    to the input neither exists nor can be created. Otherwise the returned
    path does not depend on what existed, the directory exists afterwards,
    nothing that existed is lost, and a second call returns the same path
    and changes nothing. *)
Theorem get_output_path_creates_processed_once
    (existing : gset string) (input_path suffix : string) :
  let output_dir := join (dirname input_path) "processed" in
  (get_output_path existing input_path suffix = Raise OSError <->
   (output_dir ∉ existing) /\ makedirs_ok output_dir = false)
  /\ (forall out existing',
        get_output_path existing input_path suffix = Ok (out, existing') ->
        output_dir ∈ existing' /\ existing ⊆ existing' /\
        get_output_path existing' input_path suffix = Ok (out, existing') /\
        forall other, get_output_path other input_path suffix = Raise OSError \/
                      exists other', get_output_path other input_path suffix
                                     = Ok (out, other')).
Proof.
  intros output_dir. unfold FileHandler.get_output_path. fold output_dir.
  destruct (splitext (basename input_path)) as [filename ext].
  split.
  - destruct (bool_decide (output_dir ∈ existing)) eqn:Hin.
    + apply bool_decide_eq_true in Hin. cbn [res_bind].
      split; [discriminate | intros [Hnot _]; contradiction].
    + apply bool_decide_eq_false in Hin.
      destruct (makedirs_ok output_dir); cbn [res_bind].
      * split; [discriminate | intros [_ Hfalse]; discriminate].
      * split; [intros _; split; [exact Hin | reflexivity] | reflexivity].
  - intros out existing' Hok.
    assert (Hsame : forall other,
      (existing0 <~ (if bool_decide (output_dir ∈ other) then Ok other
                     else if makedirs_ok output_dir
                          then Ok ({[output_dir]} ∪ other : gset string)
                     else Raise OSError) ;;
       Ok (join output_dir (filename ++ suffix ++ ext), existing0))%res
      = Raise OSError
      \/ exists other',
        (existing0 <~ (if bool_decide (output_dir ∈ other) then Ok other
                       else if makedirs_ok output_dir
                          then Ok ({[output_dir]} ∪ other : gset string)
                       else Raise OSError) ;;
         Ok (join output_dir (filename ++ suffix ++ ext), existing0))%res
        = Ok (join output_dir (filename ++ suffix ++ ext), other')).
    { intros other. destruct (bool_decide (output_dir ∈ other));
        [right; eexists; reflexivity |].
      destruct (makedirs_ok output_dir); [right; eexists; reflexivity | left; reflexivity]. }
    destruct (bool_decide (output_dir ∈ existing)) eqn:Hin.
    + apply bool_decide_eq_true in Hin. cbn [res_bind] in Hok.
      injection Hok as <- <-.
      split; [exact Hin |]. split; [reflexivity |].
      split; [rewrite bool_decide_eq_true_2 by exact Hin; reflexivity | exact Hsame].
    + destruct (makedirs_ok output_dir); [| discriminate].
      cbn [res_bind] in Hok. injection Hok as <- <-.
      assert (Hnew : output_dir ∈ ({[output_dir]} ∪ existing : gset string))
        by (apply elem_of_union_l, elem_of_singleton; reflexivity).
      split; [exact Hnew |]. split; [apply union_subseteq_r |].
      split; [| exact Hsame].
      rewrite bool_decide_eq_true_2; [reflexivity | exact Hnew].
Qed.

End FileFacts.

Section BatchFacts.

Context (splitext : string -> string * string).
Context (basename dirname : string -> string).
Context (join : string -> string -> string).
Context (lower : string -> string).
Context (makedirs_ok : string -> bool).
Context (writable : string -> bool).
Context (inpaint : Frame -> Mask -> Z -> InpaintFlag -> res Frame).

Local Abbreviation is_image := (FileHandler.is_image splitext lower).
Local Abbreviation get_output_path :=
  (FileHandler.get_output_path splitext basename dirname join makedirs_ok).
Local Abbreviation remove_watermark :=
  (ImageProcessor.remove_watermark writable inpaint).
Local Abbreviation process_each :=
  (MainWindow.process_each splitext basename dirname join lower makedirs_ok
     writable inpaint).
Local Abbreviation process_files :=
  (MainWindow.process_files splitext basename dirname join lower makedirs_ok
     writable inpaint).
Local Abbreviation output_of := (nowm_path splitext basename dirname join).

Lemma get_output_path_inv existing input_path out existing' :
  get_output_path existing input_path "_nowm" = Ok (out, existing') ->
  out = output_of input_path /\ existing ⊆ existing'.
Proof.
  unfold FileHandler.get_output_path, nowm_path.
  destruct (splitext (basename input_path)) as [filename ext]. cbn [fst snd].
  destruct (bool_decide (join (dirname input_path) "processed" ∈ existing)).
  - cbn [res_bind]. intros [= <- <-]. split; reflexivity.
  - destruct (makedirs_ok (join (dirname input_path) "processed")); [| discriminate].
    cbn [res_bind]. intros [= <- <-]. split; [reflexivity | apply union_subseteq_r].
Qed.

Lemma get_output_path_makes existing input_path :
  makedirs_ok (join (dirname input_path) "processed") = true
  \/ join (dirname input_path) "processed" ∈ existing ->
  exists existing',
    get_output_path existing input_path "_nowm"
    = Ok (output_of input_path, existing').
Proof.
  intros Hdir. unfold FileHandler.get_output_path, nowm_path.
  destruct (splitext (basename input_path)) as [filename ext]. cbn [fst snd].
  destruct (bool_decide (join (dirname input_path) "processed" ∈ existing)) eqn:Hin.
  - eexists. reflexivity.
  - apply bool_decide_eq_false in Hin. destruct Hdir as [-> | Hdir]; [| contradiction].
    eexists. reflexivity.
Qed.

Lemma remove_watermark_inv processor fs input_path output_path fs' :
  remove_watermark processor fs input_path output_path = Ok fs' ->
  exists image result,
    fs !! input_path = Some image /\ fs' = <[output_path := result]> fs.
Proof.
  unfold ImageProcessor.remove_watermark, ImageProcessor.read_image,
    ImageProcessor.save_image.
  destruct (ImageProcessor.watermark_region processor); [| discriminate].
  destruct (fs !! input_path) as [image |]; [| discriminate].
  destruct (inpaint _ _ _ _) as [result |]; [| discriminate]. cbn [res_bind].
  destruct (writable output_path); [| discriminate].
  intros [= <-]. exists image, result. split; reflexivity.
Qed.

(** X20. The loop of [process_files] counts at most the selected files
    with an image extension and never counts down; it removes no file and
    no directory, and the only paths it writes are the [_nowm] outputs,
    under [processed], of selected image files. *)
Theorem batch_counts_and_writes_only_outputs
    (processor : ImageProcessor.t) (selected_files : list string)
    (st : MainWindow.batch) :
  let st' := process_each processor selected_files st in
  (MainWindow.processed_count st <= MainWindow.processed_count st'
   <= MainWindow.processed_count st
      + length (List.filter is_image selected_files))%nat
  /\ MainWindow.batch_existing st ⊆ MainWindow.batch_existing st'
  /\ (forall p, is_Some (MainWindow.batch_files st !! p) ->
                is_Some (MainWindow.batch_files st' !! p))
  /\ (forall p, MainWindow.batch_files st' !! p <> MainWindow.batch_files st !! p ->
        exists q, In q selected_files /\ is_image q = true /\ p = output_of q).
Proof.
  revert st. induction selected_files as [| file_path rest IH]; intros st.
  - cbn. split; [lia |]. split; [reflexivity |]. split; [auto |].
    intros p Hneq. contradiction.
  - cbn [MainWindow.process_each List.filter].
    destruct (is_image file_path) eqn:Himage.
    2: { destruct (IH st) as (Hcount & Hdirs & Hkept & Hwritten).
         split; [exact Hcount |]. split; [exact Hdirs |]. split; [exact Hkept |].
         intros p Hneq. destruct (Hwritten p Hneq) as (q & Hq & Hrest).
         exists q. split; [right; exact Hq | exact Hrest]. }
    destruct (get_output_path (MainWindow.batch_existing st) file_path "_nowm")
      as [[output_path existing'] | e] eqn:Hout.
    2: { destruct (IH st) as (Hcount & Hdirs & Hkept & Hwritten).
         split; [cbn [length]; lia |]. split; [exact Hdirs |]. split; [exact Hkept |].
         intros p Hneq. destruct (Hwritten p Hneq) as (q & Hq & Hrest).
         exists q. split; [right; exact Hq | exact Hrest]. }
    apply get_output_path_inv in Hout as [-> Hsub].
    destruct (remove_watermark processor (MainWindow.batch_files st) file_path
                (output_of file_path)) as [files' | e] eqn:Hremove.
    + apply remove_watermark_inv in Hremove as (image & result & Hread & ->).
      match goal with |- context [process_each processor rest ?s] =>
        destruct (IH s) as (Hcount & Hdirs & Hkept & Hwritten) end.
      cbn [MainWindow.processed_count MainWindow.batch_existing
           MainWindow.batch_files] in *.
      split; [cbn [length]; lia |]. split; [etrans; eassumption |].
      split.
      * intros p Hp. apply Hkept.
        destruct (decide (output_of file_path = p)) as [<- | Hne].
        -- rewrite lookup_insert_eq. eexists. reflexivity.
        -- rewrite lookup_insert_ne by exact Hne. exact Hp.
      * intros p Hneq.
        destruct (decide (output_of file_path = p)) as [<- | Hne].
        -- exists file_path. split; [left; reflexivity |]. split; [exact Himage | reflexivity].
        -- rewrite <- (lookup_insert_ne (MainWindow.batch_files st)
                        (output_of file_path) p result Hne) in Hneq.
           destruct (Hwritten p Hneq) as (q & Hq & Hrest).
           exists q. split; [right; exact Hq | exact Hrest].
    + match goal with |- context [process_each processor rest ?s] =>
        destruct (IH s) as (Hcount & Hdirs & Hkept & Hwritten) end.
      cbn [MainWindow.processed_count MainWindow.batch_existing
           MainWindow.batch_files] in *.
      split; [cbn [length]; lia |]. split; [etrans; eassumption |].
      split; [exact Hkept |].
      intros p Hneq. destruct (Hwritten p Hneq) as (q & Hq & Hrest).
      exists q. split; [right; exact Hq | exact Hrest].
Qed.

Lemma process_each_exact (processor : ImageProcessor.t) (region : Region)
    (selected_files : list string) :
  ImageProcessor.watermark_region processor = Some region ->
  (forall image mask radius,
     exists result, inpaint image mask radius INPAINT_TELEA = Ok result) ->
  forall st,
    (forall p, In p selected_files -> writable (output_of p) = true) ->
    (forall p, In p selected_files ->
       makedirs_ok (join (dirname p) "processed") = true
       \/ join (dirname p) "processed" ∈ MainWindow.batch_existing st) ->
    (forall p q, In p selected_files -> In q selected_files -> output_of p <> q) ->
    MainWindow.processed_count (process_each processor selected_files st)
    = (MainWindow.processed_count st
       + length (List.filter
                   (fun p => is_image p
                             && bool_decide (is_Some (MainWindow.batch_files st !! p)))
                   selected_files))%nat.
Proof.
  intros Hregion Hinpaint.
  induction selected_files as [| file_path rest IH]; intros st Hwritable Hdirs Hfresh.
  - cbn. lia.
  - cbn [MainWindow.process_each List.filter].
    assert (Hrest_w : forall p, In p rest -> writable (output_of p) = true)
      by (intros p Hp; apply Hwritable; right; exact Hp).
    assert (Hrest_f : forall p q, In p rest -> In q rest -> output_of p <> q)
      by (intros p q Hp Hq; apply Hfresh; right; assumption).
    destruct (is_image file_path) eqn:Himage; cbn [andb].
    2: { apply IH; [exact Hrest_w | | exact Hrest_f].
         intros p Hp. apply Hdirs. right. exact Hp. }
    destruct (get_output_path_makes (MainWindow.batch_existing st) file_path
                (Hdirs file_path (or_introl eq_refl))) as (existing' & Hout).
    rewrite Hout.
    apply get_output_path_inv in Hout as [_ Hsub].
    assert (Hrest_d : forall p, In p rest ->
              makedirs_ok (join (dirname p) "processed") = true
              \/ join (dirname p) "processed" ∈ existing').
    { intros p Hp. destruct (Hdirs p (or_intror Hp)) as [Hmk | Hin];
        [left; exact Hmk | right; apply Hsub, Hin]. }
    unfold ImageProcessor.remove_watermark, ImageProcessor.read_image,
      ImageProcessor.save_image.
    rewrite Hregion.
    destruct (MainWindow.batch_files st !! file_path) as [image |] eqn:Hread.
    + destruct (Hinpaint image (region_mask image region)
                  (ImageProcessor.inpaint_radius processor)) as (result & ->).
      cbn [res_bind]. rewrite (Hwritable file_path (or_introl eq_refl)).
      rewrite bool_decide_eq_true_2 by (eexists; reflexivity).
      rewrite IH; [| exact Hrest_w | exact Hrest_d | exact Hrest_f].
      cbn [MainWindow.processed_count MainWindow.batch_files length].
      rewrite (List.filter_ext_in
                 (fun p => is_image p
                           && bool_decide (is_Some (<[output_of file_path := result]>
                                                      (MainWindow.batch_files st) !! p)))
                 (fun p => is_image p
                           && bool_decide (is_Some (MainWindow.batch_files st !! p)))).
      * lia.
      * intros q Hq. f_equal. apply bool_decide_ext.
        rewrite lookup_insert_ne; [reflexivity |].
        apply Hfresh; [left; reflexivity | right; exact Hq].
    + rewrite bool_decide_eq_false_2 by (intros [? [=]]).
      rewrite IH; [| exact Hrest_w | exact Hrest_d | exact Hrest_f].
      reflexivity.
Qed.

(** X21. When the reconstruction never fails, every output can be
    written, every [processed] directory exists or can be created and no
    output path is itself among the selected files, [process_files] counts
    exactly the selected files that have an image extension and can be
    decoded: a corrupt or missing file is skipped and does not end the
    batch. *)
Theorem process_files_counts_decodable_images
    (label : ImageLabel.t) (processor : ImageProcessor.t)
    (selected_files : list string) (fs : gmap string Frame)
    (existing : gset string) (sel rect : QRect) :
  selected_files <> [] ->
  ImageLabel.selection label = Some sel -> isNull sel = false ->
  ImageLabel.get_scaled_rect label = Ok (Some rect) -> isNull rect = false ->
  (forall image mask radius,
     exists result, inpaint image mask radius INPAINT_TELEA = Ok result) ->
  (forall p, In p selected_files -> writable (output_of p) = true) ->
  (forall p, In p selected_files ->
     makedirs_ok (join (dirname p) "processed") = true
     \/ join (dirname p) "processed" ∈ existing) ->
  (forall p q, In p selected_files -> In q selected_files -> output_of p <> q) ->
  exists processor' done,
    process_files label processor selected_files fs existing
    = Ok (Some (processor', done)) /\
    ImageProcessor.watermark_region processor'
    = Some (rect_x rect, rect_y rect, rect_width rect, rect_height rect) /\
    MainWindow.processed_count done
    = length (List.filter (fun p => is_image p && bool_decide (is_Some (fs !! p)))
                selected_files).
Proof.
  intros Hfiles Hsel Hselnull Hrect Hrectnull Hinpaint Hwritable Hdirs Hfresh.
  unfold MainWindow.process_files.
  destruct selected_files as [| file_path rest]; [contradiction |].
  rewrite Hsel, Hselnull, Hrect. cbn [res_bind]. rewrite Hrectnull.
  eexists _, _. split; [reflexivity |]. split; [reflexivity |].
  rewrite (process_each_exact
             (ImageProcessor.set_watermark_region processor
                (rect_x rect) (rect_y rect) (rect_width rect) (rect_height rect))
             (rect_x rect, rect_y rect, rect_width rect, rect_height rect)
             (file_path :: rest) eq_refl Hinpaint); [reflexivity | | |]; assumption.
Qed.

End BatchFacts.

(** ** The worker thread of the video window *)

Section ThreadFacts.

Context (VideoCapture : string -> option capture).
Context (inpaint : Frame -> Mask -> Z -> InpaintFlag -> res Frame).
Context (dirname : string -> string) (join : string -> string -> string).
Context (makedirs_ok : string -> bool).
Context (ffmpeg_ok : ffmpeg_cmd -> gmap string (gmap string entry) -> bool).
Context (emit : Q -> res bool).
Context (is_canceled : nat -> bool).

Local Abbreviation thread_run :=
  (ProcessThread.run VideoCapture inpaint dirname join makedirs_ok ffmpeg_ok
     emit is_canceled).

(** X22. In the worker thread a report that finds the cancel flag set is
    the last one of the run: no further frame is reported, ffmpeg is not
    run and [finished] is not emitted with True. And [finished] is emitted
    with True only when the flag was clear at the end and at every report,
    and every [emit] of a progress value returned something true. *)
Theorem cancel_flag_ends_the_run
    (video_processor : VideoProcessor.t) (output_path : string)
    (canceled_at_end : bool) (w : world) :
  let done := thread_run video_processor output_path canceled_at_end w in
  (forall k,
     (length (delivered w) <= k < length (delivered (snd done)))%nat ->
     is_canceled k = true ->
     S k = length (delivered (snd done)) /\
     ffmpeg_log (snd done) = ffmpeg_log w /\
     fst done <> Some true)
  /\ (fst done = Some true ->
      canceled_at_end = false /\
      forall k v,
        (length (delivered w) <= k)%nat -> delivered (snd done) !! k = Some v ->
        is_canceled k = false /\ emit v = Ok true).
Proof.
  intros done. subst done. unfold ProcessThread.run.
  destruct (process_video_cases VideoCapture inpaint dirname join makedirs_ok
              ffmpeg_ok video_processor output_path
              (Some (ProcessThread.callback emit is_canceled)) w)
    as [Hrun | [(_ & Hrun) | [(_ & _ & Hrun) | Hrun]]].
  1-3: rewrite Hrun; cbn [fst snd]; split;
    [intros k Hk; cbn in Hk; lia
    | destruct canceled_at_end; cbn [fst]; intros [=]].
  destruct Hrun as (cap & c & w2 & w4 & m & _ & _ & _ & Hrun & _ & Hdel & Hverdict
                    & Hlog & _).
  rewrite Hrun. clear Hrun.
  set (total := py_int (frame_count cap)) in *.
  set (base := length (delivered w)) in *.
  assert (Hlen : length (delivered w4) = (base + m)%nat).
  { rewrite Hdel, length_app, length_map, length_seq. reflexivity. }
  cbn [loop_verdict] in Hverdict. destruct Hverdict as [_ Hverdict].
  split.
  - intros k. cbn [fst snd]. rewrite Hlen. intros Hk Hflag.
    assert (Hanswer : forall p, ProcessThread.callback emit is_canceled k p = Ok false)
      by (intros p; unfold ProcessThread.callback; rewrite Hflag; reflexivity).
    replace k with (base + (k - base))%nat in Hanswer by lia.
    destruct c as [[] | v | e].
    + destruct Hverdict as [_ Hall].
      pose proof (Hall (k - base)%nat ltac:(lia)) as Hok.
      rewrite Hanswer in Hok. discriminate.
    + destruct Hverdict as (-> & m' & -> & Hall & _).
      destruct (decide (k - base < m')%nat) as [Hlt | Hge].
      * pose proof (Hall (k - base)%nat Hlt) as Hok.
        rewrite Hanswer in Hok. discriminate.
      * split; [lia |]. rewrite Hlog. cbn [run_commands run_result].
        split; [apply app_nil_r |]. destruct canceled_at_end; cbn [fst]; discriminate.
    + destruct Hverdict as [(-> & _) | (m' & -> & Hall & Hraise)]; [lia |].
      destruct (decide (k - base < m')%nat) as [Hlt | Hge].
      * pose proof (Hall (k - base)%nat Hlt) as Hok.
        rewrite Hanswer in Hok. discriminate.
      * replace m' with (k - base)%nat in Hraise by lia.
        rewrite Hanswer in Hraise. discriminate.
  - cbn [fst snd]. intros Htrue.
    destruct canceled_at_end; [discriminate |]. split; [reflexivity |].
    injection Htrue as Htrue.
    destruct c as [[] | v | e]; cbn [run_result] in Htrue.
    + destruct Hverdict as [_ Hall].
      intros k v Hk Hv. rewrite Hdel in Hv.
      rewrite lookup_app_r in Hv by exact Hk. fold base in Hv.
      apply list_lookup_fmap_Some in Hv as (j & -> & Hj).
      apply lookup_seq in Hj as [-> Hlt].
      specialize (Hall (k - base)%nat Hlt).
      replace (base + (k - base))%nat with k in Hall by lia.
      unfold ProcessThread.callback in Hall.
      destruct (is_canceled k); [discriminate |]. split; [reflexivity | exact Hall].
    + destruct Hverdict as (-> & _). discriminate.
    + discriminate.
Qed.

End ThreadFacts.

(** ** Instances *)

Lemma detected_region_lies_in_frame_witness :
  exists image,
    ImageProcessor.read_image Sample.big_file "in.png" = Some image /\
    region_in_frame image (0, 0, 10, 10).
Proof.
  exact (detected_region_lies_in_frame Sample.one_blob Sample.area Sample.rect
           Sample.big_file "in.png" (0, 0, 10, 10) eq_refl).
Defined.

Lemma detector_picks_a_best_scored_contour_witness :
  let blobs : list Sample.contour := [(4%Q, (3, 3, 2, 2)); (6%Q, (5, 5, 3, 3))] in
  exists c s,
    In c (ImageProcessor.valid_contours Sample.area Sample.image10x10 blobs) /\
    ImageProcessor.score Sample.area Sample.rect Sample.image10x10 c = Ok s /\
    ImageProcessor.auto_detect_watermark Fixtures.two_blobs Sample.area Sample.rect
      Sample.big_file "in.png"
    = Ok (Some (ImageProcessor.pad_region Sample.image10x10 (Sample.rect c))) /\
    forall c', In c' (ImageProcessor.valid_contours Sample.area Sample.image10x10 blobs) ->
      exists s', ImageProcessor.score Sample.area Sample.rect Sample.image10x10 c'
                 = Ok s' /\ (s' <= s)%Q.
Proof.
  exact (detector_picks_a_best_scored_contour Fixtures.two_blobs Sample.area
           Sample.rect Sample.big_file "in.png" Sample.image10x10
           [(4%Q, (3, 3, 2, 2)); (6%Q, (5, 5, 3, 3))] eq_refl eq_refl
           ltac:(vm_compute; lia)).
Defined.

Lemma pad_region_contains_rect_witness :
  let '(x', y', w', h') := ImageProcessor.pad_region Sample.image10x10 (3, 3, 2, 2) in
  3 - 5 <= x' <= 3 /\ 3 - 5 <= y' <= 3 /\
  3 + 2 <= x' + w' <= 3 + 2 + 10 /\ 3 + 2 <= y' + h' <= 3 + 2 + 10 /\
  (5 <= 3 -> x' + w' <= 3 + 2 + 5) /\ (5 <= 3 -> y' + h' <= 3 + 2 + 5) /\
  0 <= w' /\ 0 <= h'.
Proof.
  apply (pad_region_contains_rect Sample.image10x10 3 3 2 2); [lia | lia |].
  unfold region_in_frame. simpl. lia.
Defined.

Lemma region_mask_marks_the_region_witness :
  Z.of_nat (length (region_mask Sample.image2x2 (0, 0, 1, 1)))
  = fst (shape Sample.image2x2) /\
  (exists row,
     region_mask Sample.image2x2 (0, 0, 1, 1) !! 1%nat = Some row /\
     Z.of_nat (length row) = snd (shape Sample.image2x2) /\
     row !! 0%nat
     = Some (if (0 <=? Z.of_nat 1) && (Z.of_nat 1 <? 0 + 1)
                && ((0 <=? Z.of_nat 0) && (Z.of_nat 0 <? 0 + 1))
             then 255 else 0)).
Proof.
  apply (region_mask_marks_the_region Sample.image2x2 0 0 1 1 1 0);
    try lia; simpl; lia.
Defined.

Lemma remove_watermark_saves_the_preview_witness :
  (forall shown,
     ImageProcessor.preview_removal Sample.paint Fixtures.telea_processor
       Sample.one_file "in.png" = Ok shown ->
     Sample.always_writable "out.png" = true ->
     ImageProcessor.remove_watermark Sample.always_writable Sample.paint
       Fixtures.telea_processor Sample.one_file "in.png" "out.png"
     = Ok (<["out.png" := shown]> Sample.one_file))
  /\ (forall fs',
        ImageProcessor.remove_watermark Sample.always_writable Sample.paint
          Fixtures.telea_processor Sample.one_file "in.png" "out.png" = Ok fs' ->
        exists shown,
          ImageProcessor.preview_removal Sample.paint Fixtures.telea_processor
            Sample.one_file "in.png" = Ok shown /\
          Sample.always_writable "out.png" = true /\
          fs' = <["out.png" := shown]> Sample.one_file /\
          forall other, other <> "out.png" -> fs' !! other = Sample.one_file !! other).
Proof.
  exact (remove_watermark_saves_the_preview Sample.always_writable Sample.paint
           Fixtures.telea_processor Sample.one_file "in.png" "out.png" eq_refl).
Defined.

Lemma get_scaled_rect_is_clamped_witness :
  let q := {| rect_x := 400; rect_y := 200; rect_width := 160; rect_height := 80 |} in
  ImageLabel.get_scaled_rect Fixtures.selected_preview = Ok (Some q) /\
  (0 <= rect_x q <= 1600 /\ 0 <= rect_y q <= 1200 /\
   rect_x q + rect_width q <= 1600 /\ rect_y q + rect_height q <= 1200).
Proof.
  split; [reflexivity |].
  apply (get_scaled_rect_is_clamped Fixtures.selected_preview
           {| rect_x := 400; rect_y := 200; rect_width := 160; rect_height := 80 |}
           eq_refl); simpl; lia.
Defined.

Lemma scale_image_fits_the_label_witness :
  let new_size :=
    ImageLabel.scaled_size (1600, 1200)
      (ImageLabel.scale_image_factor (400, 300) (1600, 1200)) in
  0 <= fst new_size <= 400 /\ 0 <= snd new_size <= 300.
Proof.
  apply (scale_image_fits_the_label (400, 300) (1600, 1200)); simpl; lia.
Defined.

Lemma detected_region_is_shown_inside_pixmap_witness :
  let pixmap_rect :=
    {| rect_x := 0; rect_y := 0; rect_width := 400; rect_height := 300 |} in
  exists sel,
    ImageLabel.selection (shown Sample.small_preview (40, 40, 80, 80)) = Some sel /\
    rect_x pixmap_rect <= rect_x sel /\ rect_y pixmap_rect <= rect_y sel /\
    0 <= rect_width sel /\ 0 <= rect_height sel /\
    rect_x sel + rect_width sel <= rect_x pixmap_rect + rect_width pixmap_rect /\
    rect_y sel + rect_height sel <= rect_y pixmap_rect + rect_height pixmap_rect.
Proof.
  apply (detected_region_is_shown_inside_pixmap Sample.small_preview
           (40, 40, 80, 80)
           {| rect_x := 0; rect_y := 0; rect_width := 400; rect_height := 300 |});
    try reflexivity; unfold region_in_size; simpl; lia.
Defined.

Lemma video_selection_maps_into_frame_witness :
  exists r,
    VideoProcessor.watermark_region
      (VideoWindow.preview_removal Fixtures.video_label Sample.loaded) = Some r /\
    region_in_size (2, 2) r.
Proof.
  apply (video_selection_maps_into_frame Fixtures.video_label Sample.loaded
           {| rect_x := 150; rect_y := 100; rect_width := 50; rect_height := 100 |}
           {| rect_x := 100; rect_y := 50; rect_width := 200; rect_height := 200 |});
    try reflexivity; simpl; lia.
Defined.

Lemma preview_frame_within_max_size_witness :
  exists frame,
    VideoProcessor.get_frame Fixtures.read_at (Some (Sample.clip 2)) 0 = Some frame /\
    let h := fst (shape frame) in
    let w := snd (shape frame) in
    (w <= 1 /\ h <= 1 /\ Fixtures.cvtColor frame = Ok [[Sample.gray]])
    \/ (exists nw nh resized,
          (1 < w \/ 1 < h) /\
          0 <= nw <= 1 /\ 0 <= nh <= 1 /\ nw <= w /\ nh <= h /\
          Fixtures.resize frame (nw, nh) = Ok resized /\
          Fixtures.cvtColor resized = Ok [[Sample.gray]]).
Proof.
  apply (preview_frame_within_max_size Fixtures.read_at Fixtures.resize
           Fixtures.cvtColor (Some (Sample.clip 2)) 0 1 [[Sample.gray]]);
    [lia | reflexivity].
Defined.

Lemma frame_names_are_distinct_witness : frame_name 3 <> frame_name 12.
Proof.
  apply (frame_names_are_distinct 3 12). lia.
Defined.

Lemma mux_sees_one_still_per_frame_witness :
  exists cap disk es,
    Sample.one_video 2 "/v/in.mp4" = Some cap /\
    Sample.ffmpeg_works
      (VideoProcessor.mux_command Posix.join Sample.loaded
         (VideoProcessor.scratch_dir Posix.dirname Posix.join "/v/out.mp4")
         "/v/out.mp4") disk = true /\
    disk !! VideoProcessor.scratch_dir Posix.dirname Posix.join "/v/out.mp4"
    = Some es /\
    (forall i frame, frames cap !! i = Some frame ->
       exists image,
         VideoProcessor.process_frame Sample.paint Sample.loaded (Some frame)
         = Ok (Some image) /\
         es !! frame_name i = Some (Still image)) /\
    (forall name, is_Some (es !! name) ->
       exists i, (i < length (frames cap))%nat /\ name = frame_name i).
Proof.
  apply (mux_sees_one_still_per_frame (Sample.one_video 2) Sample.paint
           Posix.dirname Posix.join Sample.can_mkdir Sample.ffmpeg_works
           Sample.loaded "/v/out.mp4" (Some Sample.keep_going) Sample.empty_world);
    vm_compute; reflexivity.
Defined.

Lemma process_video_outcomes_witness :
  let run := Sample.run (Sample.one_video 2) Sample.paint Sample.ffmpeg_works
               (Some Sample.keep_going) in
  (fst run = Ok true \/ fst run = Ok false \/ fst run = Raise UnboundLocalError)
  /\ (fst run = Raise UnboundLocalError <->
      VideoProcessor.no_path (VideoProcessor.video_path Sample.loaded)
      || VideoProcessor.no_region (VideoProcessor.watermark_region Sample.loaded)
      = false
      /\ Sample.can_mkdir
           (VideoProcessor.scratch_dir Posix.dirname Posix.join "/v/out.mp4")
         = false).
Proof.
  exact (process_video_outcomes (Sample.one_video 2) Sample.paint
           Posix.dirname Posix.join Sample.can_mkdir Sample.ffmpeg_works
           Sample.loaded "/v/out.mp4" (Some Sample.keep_going) Sample.empty_world).
Defined.

Lemma zero_frame_count_ends_the_run_witness :
  let run := Sample.run (Sample.one_video 0) Sample.paint Sample.ffmpeg_works
               (Some Sample.keep_going) in
  fst run = Ok false /\
  delivered (snd run) = [] /\
  ffmpeg_log (snd run) = [].
Proof.
  apply (zero_frame_count_ends_the_run (Sample.one_video 0) Sample.paint
           Posix.dirname Posix.join Sample.can_mkdir Sample.ffmpeg_works
           Sample.loaded "/v/out.mp4" Sample.keep_going Sample.empty_world
           (Sample.clip 0)); try reflexivity.
  discriminate.
Defined.


Lemma cancelled_run_is_not_muxed_witness :
  ffmpeg_log (snd (Sample.run (Sample.one_video 2) Sample.paint Sample.ffmpeg_works
                     (Some Sample.stop_at_once))) = [].
Proof.
  apply (cancelled_run_is_not_muxed (Sample.one_video 2) Sample.paint
           Posix.dirname Posix.join Sample.can_mkdir Sample.ffmpeg_works
           Sample.loaded "/v/out.mp4" Sample.stop_at_once Sample.empty_world
           [] (100 # 2)%Q); vm_compute; reflexivity.
Defined.

Lemma process_frame_batch_indices_witness :
  let batch := [Some Sample.image2x2; None; Some Sample.image2x2] in
  exists results w',
    VideoProcessor.process_frame_batch Sample.paint Sample.loaded 5 batch
      "/v/temp_frames" Sample.empty_world
    = (Normal results, w') /\
    (forall k, In k results <->
       exists i frame, batch !! i = Some (Some frame) /\ k = (5 + i)%nat) /\
    StronglySorted lt results /\
    delivered w' = delivered Sample.empty_world /\
    scratch_step "/v/temp_frames" Sample.empty_world w'.
Proof.
  exact (process_frame_batch_indices Sample.paint Sample.loaded 5
           [Some Sample.image2x2; None; Some Sample.image2x2] "/v/temp_frames"
           Sample.empty_world).
Defined.

Lemma scan_directory_sorts_by_extension_witness :
  let walk := [("/pics", ["a.png"; "notes.txt"; "clip.MP4"]); ("/pics/old", ["b.JPG"])] in
  let scan := FileHandler.scan_directory Fixtures.splitext Posix.join Fixtures.lower in
  let paths := flat_map (fun entry => map (Posix.join (fst entry)) (snd entry)) walk in
  scan walk
  = (List.filter (FileHandler.is_image Fixtures.splitext Fixtures.lower) paths,
     List.filter (FileHandler.is_video Fixtures.splitext Fixtures.lower) paths)
  /\ forall p, ~ (In p (fst (scan walk)) /\ In p (snd (scan walk))).
Proof.
  exact (scan_directory_sorts_by_extension Fixtures.splitext Posix.join
           Fixtures.lower
           [("/pics", ["a.png"; "notes.txt"; "clip.MP4"]); ("/pics/old", ["b.JPG"])]).
Defined.

Lemma get_output_path_creates_processed_once_witness :
  let get := FileHandler.get_output_path Fixtures.splitext Fixtures.basename
               Posix.dirname Posix.join Sample.can_mkdir in
  let output_dir := Posix.join (Posix.dirname "/pics/a.png") "processed" in
  (get ∅ "/pics/a.png" "_nowm" = Raise OSError <->
   (output_dir ∉ (∅ : gset string)) /\ Sample.can_mkdir output_dir = false)
  /\ (forall out existing',
        get ∅ "/pics/a.png" "_nowm" = Ok (out, existing') ->
        output_dir ∈ existing' /\ ∅ ⊆ existing' /\
        get existing' "/pics/a.png" "_nowm" = Ok (out, existing') /\
        forall other, get other "/pics/a.png" "_nowm" = Raise OSError \/
                      exists other', get other "/pics/a.png" "_nowm"
                                     = Ok (out, other')).
Proof.
  exact (get_output_path_creates_processed_once Fixtures.splitext Fixtures.basename
           Posix.dirname Posix.join Sample.can_mkdir ∅ "/pics/a.png" "_nowm").
Defined.

Lemma batch_counts_and_writes_only_outputs_witness :
  let is_image := FileHandler.is_image Fixtures.splitext Fixtures.lower in
  let st := {| MainWindow.batch_files := Fixtures.pictures;
               MainWindow.batch_existing := ∅;
               MainWindow.processed_count := 0 |} in
  let st' := MainWindow.process_each Fixtures.splitext Fixtures.basename
               Posix.dirname Posix.join Fixtures.lower Sample.can_mkdir
               Sample.always_writable Sample.paint Fixtures.telea_processor
               Fixtures.selected st in
  (MainWindow.processed_count st <= MainWindow.processed_count st'
   <= MainWindow.processed_count st
      + length (List.filter is_image Fixtures.selected))%nat
  /\ MainWindow.batch_existing st ⊆ MainWindow.batch_existing st'
  /\ (forall p, is_Some (MainWindow.batch_files st !! p) ->
                is_Some (MainWindow.batch_files st' !! p))
  /\ (forall p, MainWindow.batch_files st' !! p <> MainWindow.batch_files st !! p ->
        exists q, In q Fixtures.selected /\ is_image q = true /\
                  p = nowm_path Fixtures.splitext Fixtures.basename Posix.dirname
                        Posix.join q).
Proof.
  exact (batch_counts_and_writes_only_outputs Fixtures.splitext Fixtures.basename
           Posix.dirname Posix.join Fixtures.lower Sample.can_mkdir
           Sample.always_writable Sample.paint Fixtures.telea_processor
           Fixtures.selected
           {| MainWindow.batch_files := Fixtures.pictures;
              MainWindow.batch_existing := ∅;
              MainWindow.processed_count := 0 |}).
Defined.

Lemma process_files_counts_decodable_images_witness :
  exists processor' done,
    MainWindow.process_files Fixtures.splitext Fixtures.basename Posix.dirname
      Posix.join Fixtures.lower Sample.can_mkdir Sample.always_writable
      Sample.paint Fixtures.selected_preview Fixtures.telea_processor
      Fixtures.selected Fixtures.pictures ∅
    = Ok (Some (processor', done)) /\
    ImageProcessor.watermark_region processor' = Some (400, 200, 160, 80) /\
    MainWindow.processed_count done = 2%nat.
Proof.
  destruct (process_files_counts_decodable_images Fixtures.splitext
              Fixtures.basename Posix.dirname Posix.join Fixtures.lower
              Sample.can_mkdir Sample.always_writable Sample.paint
              Fixtures.selected_preview Fixtures.telea_processor
              Fixtures.selected Fixtures.pictures ∅
              {| rect_x := 100; rect_y := 50; rect_width := 40; rect_height := 20 |}
              {| rect_x := 400; rect_y := 200; rect_width := 160; rect_height := 80 |})
    as (processor' & done & Hrun & Hregion & Hcount);
    try reflexivity.
  - discriminate.
  - intros image mask radius. eexists. reflexivity.
  - intros p _. left. reflexivity.
  - intros p q Hp Hq.
    repeat (destruct Hp as [<- | Hp]; [| try contradiction]);
      repeat (destruct Hq as [<- | Hq]; [| try contradiction]);
      vm_compute; discriminate.
  - exists processor', done. split; [exact Hrun |]. split; [exact Hregion |].
    rewrite Hcount. reflexivity.
Defined.

Lemma cancel_flag_ends_the_run_witness :
  let done :=
    ProcessThread.run (Sample.one_video 2) Sample.paint Posix.dirname Posix.join
      Sample.can_mkdir Sample.ffmpeg_works Fixtures.emit_true
      (Fixtures.canceled_from 1) Sample.loaded "/v/out.mp4" true
      Sample.empty_world in
  (forall k,
     (length (delivered Sample.empty_world) <= k < length (delivered (snd done)))%nat ->
     Fixtures.canceled_from 1 k = true ->
     S k = length (delivered (snd done)) /\
     ffmpeg_log (snd done) = ffmpeg_log Sample.empty_world /\
     fst done <> Some true)
  /\ (fst done = Some true ->
      true = false /\
      forall k v,
        (length (delivered Sample.empty_world) <= k)%nat ->
        delivered (snd done) !! k = Some v ->
        Fixtures.canceled_from 1 k = false /\ Fixtures.emit_true v = Ok true).
Proof.
  exact (cancel_flag_ends_the_run (Sample.one_video 2) Sample.paint Posix.dirname
           Posix.join Sample.can_mkdir Sample.ffmpeg_works Fixtures.emit_true
           (Fixtures.canceled_from 1) Sample.loaded "/v/out.mp4" true
           Sample.empty_world).
Defined.
